(** * Run merging of gaze-interval tables

    A shallow embedding of the two merge scripts of the repository:

    - [tpl_metrics_aois_aggregation_le20ms_batch.py]           (module [AtMost]),
    - [branches/tpl_metrics_aois_aggregation_20ms_batch.py]   (module [Exact]).

    A pandas data frame is a list of rows; a column is the list obtained
    by projecting a field.  Numeric cells are integers (time stamps and
    durations in milliseconds) or [NaN]; [AOI] and [EventIndex] cells may
    be blank.  Whether the optional [EventIndex] column exists at all is a
    flag of the frame.  In modules [AtMost] and [Exact] the seven grouping
    columns are strings that are filled in on every row; module [Sparse]
    is the at-most script on sheets where these cells may be blank too.

    The pandas operations are given their library meaning: comparisons
    with [NaN] are false (except [!=]), [sort_values] on several columns
    is a stable ascending sort with [NaN] last, [groupby] lists its groups
    in ascending key order and keeps the frame order inside a group, the
    aggregations [min], [max], [sum] and [first] skip null cells, and a
    boolean mask keeps the index labels of the rows it selects.

    The first part holds the definitions (cells, frames, the two scripts,
    the sequential reading of the classifier, sample sheets); the second
    part holds the properties. *)

From Stdlib Require Import String ZArith List Bool Arith Lia.
From Stdlib Require Import Sorted Permutation OrdersEx RelationClasses.
Import ListNotations.

Local Open Scope Z_scope.

(** ** Cells *)

(** A float64 cell after [pd.to_numeric]. *)
Inductive num : Type :=
| NaN
| Num (z : Z).

(** A cell of [Start], [Stop] or [Duration] as read from the sheet:
    a number, a text that is not a number, or an empty cell. *)
Inductive xcell : Type :=
| Numeric (z : Z)
| Unparsable (s : string)
| Blank.

(** [pd.to_numeric(_, errors="coerce")] on one cell. *)
Definition to_numeric (c : xcell) : num :=
  match c with
  | Numeric z => Num z
  | Unparsable _ => NaN
  | Blank => NaN
  end.

Definition DURATION_TARGET : Z := 20.

(** [Series.eq], [Series.le], [Series.gt], [!=] and [-] on one cell:
    every comparison with [NaN] is false, except [!=] which is true. *)
Definition num_eq (a b : num) : bool :=
  match a, b with
  | Num x, Num y => x =? y
  | _, _ => false
  end.

Definition num_ne (a b : num) : bool := negb (num_eq a b).

Definition num_le (a b : num) : bool :=
  match a, b with
  | Num x, Num y => x <=? y
  | _, _ => false
  end.

Definition num_gt (a b : num) : bool :=
  match a, b with
  | Num x, Num y => y <? x
  | _, _ => false
  end.

Definition num_sub (a b : num) : num :=
  match a, b with
  | Num x, Num y => Num (x - y)
  | _, _ => NaN
  end.

(** [Series.eq] on an object column ([AOI]); a blank cell equals nothing. *)
Definition obj_eq (a b : option string) : bool :=
  match a, b with
  | Some x, Some y => String.eqb x y
  | _, _ => false
  end.

(** ** Rows and frames *)

Record GroupKey : Type := mkKey {
  Recording : string;
  Participant : string;
  Position : string;
  TOI : string;
  Interval : string;
  Event_type : string;
  Validity : string
}.

(** One interval row; [T] is the type of the three numeric cells. *)
Record Row (T : Type) : Type := mkRow {
  key : GroupKey;
  Start : T;
  Stop : T;
  Duration : T;
  AOI : option string;
  EventIndex : option Z
}.

Arguments mkRow {T}.
Arguments key {T}.
Arguments Start {T}.
Arguments Stop {T}.
Arguments Duration {T}.
Arguments AOI {T}.
Arguments EventIndex {T}.

Record DataFrame (R : Type) : Type := mkFrame {
  has_EventIndex : bool;
  rows : list R
}.

Arguments mkFrame {R}.
Arguments has_EventIndex {R}.
Arguments rows {R}.

(** Rows as read from the sheet, and rows after [pd.to_numeric]. *)
Abbreviation RawRow := (Row xcell).
Abbreviation NRow := (Row num).

(** A row together with its index label. *)
Definition Labelled (R : Type) : Type := (nat * R)%type.

(** The rows of a frame; a frame without the [EventIndex] column has no
    such cells. *)
Definition records (df : DataFrame RawRow) : list RawRow :=
  map (fun r =>
         mkRow (key r) (Start r) (Stop r) (Duration r) (AOI r)
               (if has_EventIndex df then EventIndex r else None))
      (rows df).

(** The loop [for c in ["Start", "Stop", "Duration"]: df[c] = pd.to_numeric(...)]. *)
Definition normalize_row (r : RawRow) : NRow :=
  mkRow (key r) (to_numeric (Start r)) (to_numeric (Stop r))
        (to_numeric (Duration r)) (AOI r) (EventIndex r).

Definition normalize (df : DataFrame RawRow) : list NRow :=
  map normalize_row (records df).

(** The [RangeIndex] that [pd.read_excel] gives the frame. *)
Definition with_index {R : Type} (l : list R) : list (Labelled R) :=
  combine (seq 0 (length l)) l.

(** Boolean-mask selection [df[mask]]: labels are kept. *)
Definition select {R : Type} (mask : R -> bool) (l : list (Labelled R)) :
  list (Labelled R) :=
  filter (fun ir => mask (snd ir)) l.

(** [reset_index(drop=True)]: the labels are discarded. *)
Definition reset_index {R : Type} (l : list (Labelled R)) : list R :=
  map snd l.

(** ** Orders used by [sort_values] and [groupby] *)

(** Lexicographic combination of two comparisons. *)
Definition lex (c1 c2 : comparison) : comparison :=
  match c1 with
  | Eq => c2
  | Lt => Lt
  | Gt => Gt
  end.

Definition pair_cmp {A B : Type} (ca : A -> A -> comparison)
  (cb : B -> B -> comparison) (x y : A * B) : comparison :=
  lex (ca (fst x) (fst y)) (cb (snd x) (snd y)).

(** Numeric columns sort ascending with [na_position="last"]. *)
Definition num_cmp (a b : num) : comparison :=
  match a, b with
  | Num x, Num y => Z.compare x y
  | Num _, NaN => Lt
  | NaN, Num _ => Gt
  | NaN, NaN => Eq
  end.

Definition str_cmp : string -> string -> comparison := String_as_OT.compare.

(** The values of [GROUP_COLS] of a row, in the order of the list. *)
Definition GROUP_COLS (k : GroupKey) :
  string * (string * (string * (string * (string * (string * string))))) :=
  (Recording k, (Participant k, (Position k, (TOI k, (Interval k,
   (Event_type k, Validity k)))))).

Definition key_cmp (a b : GroupKey) : comparison :=
  pair_cmp str_cmp (pair_cmp str_cmp (pair_cmp str_cmp (pair_cmp str_cmp
    (pair_cmp str_cmp (pair_cmp str_cmp str_cmp)))))
    (GROUP_COLS a) (GROUP_COLS b).

Definition cmp_eqb {K : Type} (cmp : K -> K -> comparison) (a b : K) : bool :=
  match cmp a b with
  | Eq => true
  | _ => false
  end.

Definition cmp_leb {K : Type} (cmp : K -> K -> comparison) (a b : K) : bool :=
  match cmp a b with
  | Gt => false
  | _ => true
  end.

Definition key_eqb : GroupKey -> GroupKey -> bool := cmp_eqb key_cmp.

(** The sort key [GROUP_COLS + ["Start", "Stop"]]. *)
Definition SortKey : Type := (GroupKey * (num * num))%type.

Definition sortkey_cmp : SortKey -> SortKey -> comparison :=
  pair_cmp key_cmp (pair_cmp num_cmp num_cmp).

Definition sort_key (r : NRow) : SortKey := (key r, (Start r, Stop r)).

(** The grouping key [GROUP_COLS + ["run_id"]]. *)
Definition RunKey : Type := (GroupKey * nat)%type.

Definition runkey_cmp : RunKey -> RunKey -> comparison :=
  pair_cmp key_cmp Nat.compare.

(** ** Frame operations *)

Section FrameOps.

Context {R K : Type}.
Variable cmp : K -> K -> comparison.
Variable col : R -> K.

(** [sort_values(by)]: a stable ascending sort on the key [col]. *)
Fixpoint insert_sorted (x : R) (l : list R) : list R :=
  match l with
  | [] => [x]
  | y :: t =>
      if cmp_leb cmp (col x) (col y) then x :: y :: t
      else y :: insert_sorted x t
  end.

Fixpoint sort_values (l : list R) : list R :=
  match l with
  | [] => []
  | x :: t => insert_sorted x (sort_values t)
  end.

(** The rows of the group [k], in frame order. *)
Definition group_rows (k : K) (l : list R) : list R :=
  filter (fun r => cmp_eqb cmp k (col r)) l.

(** [groupby(by).shift(1)] of the column [val]: the value of the nearest
    earlier row of the same group, [na] when there is none.  [seen] is the
    part of the frame above the current row, nearest row first. *)
Fixpoint shift_from {V : Type} (na : V) (val : R -> V) (seen l : list R) :
  list V :=
  match l with
  | [] => []
  | r :: t =>
      match find (fun p => cmp_eqb cmp (col r) (col p)) seen with
      | Some p => val p
      | None => na
      end :: shift_from na val (r :: seen) t
  end.

Definition groupby_shift {V : Type} (na : V) (val : R -> V) (l : list R) :
  list V :=
  shift_from na val [] l.

End FrameOps.

Section Distinct.

Context {K : Type}.
Variable cmp : K -> K -> comparison.

(** The distinct group keys of a frame. *)
Fixpoint distinct (ks : list K) : list K :=
  match ks with
  | [] => []
  | k :: t =>
      if existsb (cmp_eqb cmp k) t then distinct t else k :: distinct t
  end.

(** [groupby] with the default [sort=True]: keys ascending. *)
Definition group_keys (ks : list K) : list K :=
  sort_values cmp (fun k => k) (distinct ks).

(** [groupby(by)[flag].cumsum()]: the number of set flags among the rows
    of the same group down to and including the current one. *)
Fixpoint cumsum_from (seen l : list (K * bool)) : list nat :=
  match l with
  | [] => []
  | kb :: t =>
      List.length
        (filter (fun p => cmp_eqb cmp (fst kb) (fst p) && snd p) (kb :: seen))
      :: cumsum_from (kb :: seen) t
  end.

Definition groupby_cumsum (ks : list K) (flags : list bool) : list nat :=
  cumsum_from [] (combine ks flags).

End Distinct.

(** [groupby(by)]: the groups in ascending key order, each with its rows
    in frame order. *)
Definition groupby {R K : Type} (cmp : K -> K -> comparison) (col : R -> K)
  (l : list R) : list (K * list R) :=
  map (fun k => (k, group_rows cmp col k l)) (group_keys cmp (map col l)).

(** Element-wise binary operation on two columns. *)
Fixpoint map2 {A B C : Type} (f : A -> B -> C) (xs : list A) (ys : list B) :
  list C :=
  match xs, ys with
  | x :: xs', y :: ys' => f x y :: map2 f xs' ys'
  | _, _ => []
  end.

(** [Series.shift(1)] inside one group. *)
Definition shift1 {V : Type} (na : V) (xs : list V) : list V :=
  firstn (List.length xs) (na :: xs).

(** ** Aggregations (all skip [NaN], as pandas does by default) *)

Definition num_min2 (a b : num) : num :=
  match a, b with
  | Num x, Num y => Num (Z.min x y)
  | NaN, _ => b
  | _, NaN => a
  end.

Definition num_max2 (a b : num) : num :=
  match a, b with
  | Num x, Num y => Num (Z.max x y)
  | NaN, _ => b
  | _, NaN => a
  end.

Definition agg_min (xs : list num) : num := fold_right num_min2 NaN xs.
Definition agg_max (xs : list num) : num := fold_right num_max2 NaN xs.

Definition agg_sum (xs : list num) : num :=
  Num (fold_right (fun x acc => match x with Num z => z + acc | NaN => acc end)
         0 xs).

(** ["first"]: the first entry of the group that is not null. *)
Fixpoint agg_first {V : Type} (xs : list (option V)) : option V :=
  match xs with
  | [] => None
  | Some v :: _ => Some v
  | None :: t => agg_first t
  end.

Definition count_sum (xs : list nat) : nat := fold_right Nat.add 0%nat xs.

(** ** The frames built by the merge *)

(** A row of the mergeable stream with the columns the merge adds. *)
Record Classified : Type := mkClassified {
  row : NRow;
  new_run : bool;
  run_id : nat;
  SegmentsMerged : nat
}.

(** A row of [merged_runs]: the aggregated cells, the run number and the
    number of rows folded into the run. *)
Record Run : Type := mkRun {
  cells : NRow;
  Run_id : nat;
  Run_SegmentsMerged : nat
}.

Definition run_key (c : Classified) : RunKey := (key (row c), run_id c).

(** Assigning the columns [new_run], [run_id] and [SegmentsMerged = 1]. *)
Fixpoint assign (t : list NRow) (flags : list bool) (ids : list nat) :
  list Classified :=
  match t, flags, ids with
  | r :: t', b :: flags', n :: ids' =>
      mkClassified r b n 1 :: assign t' flags' ids'
  | _, _, _ => []
  end.

(** One group of [groupby(GROUP_COLS + ["run_id"]).agg(...)]; [ei] tells
    whether the [EventIndex] aggregation is part of the call. *)
Definition agg_run (ei : bool) (g : RunKey * list Classified) : Run :=
  let members := map row (snd g) in
  mkRun
    (mkRow (fst (fst g))
           (agg_min (map Start members))
           (agg_max (map Stop members))
           (agg_sum (map Duration members))
           (agg_first (map AOI members))
           (if ei then agg_first (map EventIndex members) else None))
    (snd (fst g))
    (count_sum (map SegmentsMerged (snd g))).

(** [groupby(GROUP_COLS + ["run_id"], as_index=False).agg(...)
      .sort_values(GROUP_COLS + ["Start", "Stop"]).reset_index(drop=True)]. *)
Definition aggregate (ei : bool) (t : list Classified) : list Run :=
  sort_values sortkey_cmp (fun r => sort_key (cells r))
    (map (agg_run ei) (groupby runkey_cmp run_key t)).

(** A row of the [Timeline_Combined] sheet: the union of the columns of
    the run table and of the raw rows; cells a source lacks are unset. *)
Record TimelineRow : Type := mkTimeline {
  tl_cells : NRow;
  tl_run_id : option nat;
  tl_SegmentsMerged : option nat;
  Source : string;
  OriginalRowIndex : option nat
}.

Definition merged_out (src : string) (r : Run) : TimelineRow :=
  mkTimeline (cells r) (Some (Run_id r)) (Some (Run_SegmentsMerged r)) src None.

(** [out["Source"] = src; out["OriginalRowIndex"] = out.index]. *)
Definition raw_out (src : string) (ir : Labelled NRow) : TimelineRow :=
  mkTimeline (snd ir) None None src (Some (fst ir)).

(** [pd.concat([...]).sort_values(GROUP_COLS + ["Start", "Stop"], kind="mergesort")]. *)
Definition combine_timeline (src_runs src_raw : string) (runs : list Run)
  (raw : list (Labelled NRow)) : list TimelineRow :=
  sort_values sortkey_cmp (fun t => sort_key (tl_cells t))
    (map (merged_out src_runs) runs ++ map (raw_out src_raw) raw).

Record Workbook : Type := mkWorkbook {
  Timeline_Combined : list TimelineRow;
  MergedRuns : DataFrame Run
}.

(** ** The at-most variant: [tpl_metrics_aois_aggregation_le20ms_batch.py] *)

Module AtMost.

Definition le_target (r : NRow) : bool := num_le (Duration r) (Num DURATION_TARGET).
Definition gt_target (r : NRow) : bool := num_gt (Duration r) (Num DURATION_TARGET).

(** [df[df["Duration"].le(DURATION_TARGET)].copy()] *)
Definition le20_split (df : DataFrame RawRow) : list (Labelled NRow) :=
  select le_target (with_index (normalize df)).

(** [df[df["Duration"].gt(DURATION_TARGET)].copy()] *)
Definition gt20_rows (df : DataFrame RawRow) : list (Labelled NRow) :=
  select gt_target (with_index (normalize df)).

(** [le20_rows.sort_values(GROUP_COLS + ["Start", "Stop"]).reset_index(drop=True)] *)
Definition le20_sorted (df : DataFrame RawRow) : list NRow :=
  reset_index
    (sort_values sortkey_cmp (fun ir => sort_key (snd ir)) (le20_split df)).

Definition is_target (x : num) : bool := num_eq x (Num DURATION_TARGET).

Definition prev_aoi (t : list NRow) : list (option string) :=
  groupby_shift key_cmp key None AOI t.
Definition prev_stop (t : list NRow) : list num :=
  groupby_shift key_cmp key NaN Stop t.
Definition prev_start (t : list NRow) : list num :=
  groupby_shift key_cmp key NaN Start t.
Definition prev_dur (t : list NRow) : list num :=
  groupby_shift key_cmp key NaN Duration t.

Definition same_aoi (t : list NRow) : list bool :=
  map2 obj_eq (map AOI t) (prev_aoi t).

Definition contiguous_by_stop (t : list NRow) : list bool :=
  map2 num_eq (map Start t) (prev_stop t).

Definition contiguous_by_step20 (t : list NRow) : list bool :=
  map2 andb
    (map2 andb
       (map is_target (map2 num_sub (map Start t) (prev_start t)))
       (map is_target (map Duration t)))
    (map is_target (prev_dur t)).

Definition contiguous (t : list NRow) : list bool :=
  map2 orb (contiguous_by_stop t) (contiguous_by_step20 t).

(** [le20_rows["new_run"] = ~(same_aoi & contiguous)] *)
Definition new_run_col (t : list NRow) : list bool :=
  map negb (map2 andb (same_aoi t) (contiguous t)).

(** [le20_rows["run_id"] = le20_rows.groupby(GROUP_COLS)["new_run"].cumsum()] *)
Definition run_id_col (t : list NRow) : list nat :=
  groupby_cumsum key_cmp (map key t) (new_run_col t).

Definition classify (t : list NRow) : list Classified :=
  assign t (new_run_col t) (run_id_col t).

(** The frame [le20_rows] that the function returns. *)
Definition le20_rows (df : DataFrame RawRow) : list Classified :=
  classify (le20_sorted df).

(** [if "EventIndex" in le20_rows.columns: agg_dict["EventIndex"] = ...] *)
Definition merged_runs (df : DataFrame RawRow) : DataFrame Run :=
  mkFrame (has_EventIndex df) (aggregate (has_EventIndex df) (le20_rows df)).

Definition merge_consecutive_aoi_duration_le20 (df : DataFrame RawRow) :
  DataFrame Run * list Classified * list (Labelled NRow) :=
  (merged_runs df, le20_rows df, gt20_rows df).

Definition process_one_file (df : DataFrame RawRow) : Workbook :=
  let '(runs, _, raw) := merge_consecutive_aoi_duration_le20 df in
  mkWorkbook (combine_timeline "Merged<=20msRun" "Raw>20msRow" (rows runs) raw)
             runs.

End AtMost.

(** ** The exact variant: [branches/tpl_metrics_aois_aggregation_20ms_batch.py] *)

(** A call either returns or raises. *)
Inductive outcome (A : Type) : Type :=
| Returned (a : A)
| Raised (exc : string).

Arguments Returned {A}.
Arguments Raised {A}.

Module Exact.

Definition eq_target (r : NRow) : bool := num_eq (Duration r) (Num DURATION_TARGET).
Definition ne_target (r : NRow) : bool := num_ne (Duration r) (Num DURATION_TARGET).

(** [df[df["Duration"] == DURATION_TARGET].copy()] *)
Definition df20_split (df : DataFrame RawRow) : list (Labelled NRow) :=
  select eq_target (with_index (normalize df)).

(** [df[df["Duration"] != DURATION_TARGET].copy()] *)
Definition df_non20 (df : DataFrame RawRow) : list (Labelled NRow) :=
  select ne_target (with_index (normalize df)).

Definition df20_sorted (df : DataFrame RawRow) : list NRow :=
  reset_index
    (sort_values sortkey_cmp (fun ir => sort_key (snd ir)) (df20_split df)).

Definition is_target (x : num) : bool := num_eq x (Num DURATION_TARGET).

(** The inner function [compute_new_run(g)], applied to one group. *)
Definition compute_new_run (g : list NRow) : list bool :=
  let same_aoi := map2 obj_eq (map AOI g) (shift1 None (map AOI g)) in
  let contiguous_by_stop :=
    map2 num_eq (map Start g) (shift1 NaN (map Stop g)) in
  let contiguous_by_step :=
    map is_target (map2 num_sub (map Start g) (shift1 NaN (map Start g))) in
  let contiguous := map2 orb contiguous_by_stop contiguous_by_step in
  map negb (map2 andb same_aoi contiguous).

(** The results of [compute_new_run] on the groups, in ascending key order. *)
Definition apply_results (t : list NRow) : list (list bool) :=
  map (fun g => compute_new_run (snd g)) (groupby key_cmp key t).

(** The per-group results one after the other, renumbered from 0: the
    Series that [.apply(compute_new_run).reset_index(drop=True)] is when
    there are at least two groups. *)
Definition new_run_flags (t : list NRow) : list bool :=
  concat (apply_results t).

(** [df20["new_run"] = df20.groupby(GROUP_COLS, group_keys=False)
      .apply(compute_new_run).reset_index(drop=True)].
    [groupby.apply] concatenates the per-group Series only when their
    indexes differ, which they do as soon as there are two groups.  The
    result of a single group is stacked into a frame of one row with one
    column per row of the group, and with no group at all the result is an
    empty frame with the columns of [df20]; assigning a frame to the single
    column [new_run] raises unless the frame has exactly one column. *)
Definition new_run_col (t : list NRow) : outcome (list bool) :=
  match apply_results t with
  | [] =>
      Raised "ValueError: Cannot set a DataFrame with multiple columns to the single column new_run"
  | [flags] =>
      if (List.length flags =? 1)%nat then Returned flags
      else
        Raised "ValueError: Cannot set a DataFrame with multiple columns to the single column new_run"
  | _ :: _ :: _ => Returned (new_run_flags t)
  end.

(** [df20["run_id"] = df20.groupby(GROUP_COLS)["new_run"].cumsum()] and
    [df20["SegmentsMerged"] = 1], once [new_run] is assigned. *)
Definition assign_columns (t : list NRow) (flags : list bool) : list Classified :=
  assign t flags (groupby_cumsum key_cmp (map key t) flags).

Definition classify (t : list NRow) : outcome (list Classified) :=
  match new_run_col t with
  | Returned flags => Returned (assign_columns t flags)
  | Raised e => Raised e
  end.

(** The frame [df20] that the function returns. *)
Definition df20 (df : DataFrame RawRow) : outcome (list Classified) :=
  classify (df20_sorted df).

(** [.agg(EventIndex=("EventIndex", "first"), ...)] names the column
    unconditionally: pandas raises [KeyError] when the frame lacks it. *)
Definition merged_runs (df : DataFrame RawRow) : outcome (DataFrame Run) :=
  match df20 df with
  | Returned cl =>
      if has_EventIndex df
      then Returned (mkFrame true (aggregate true cl))
      else Raised "KeyError: Column(s) ['EventIndex'] do not exist"
  | Raised e => Raised e
  end.

Definition merge_consecutive_aoi (df : DataFrame RawRow) :
  outcome (DataFrame Run * list Classified * list (Labelled NRow)) :=
  match merged_runs df, df20 df with
  | Returned runs, Returned cl => Returned (runs, cl, df_non20 df)
  | Raised e, _ => Raised e
  | _, Raised e => Raised e
  end.

Definition process_one_file (df : DataFrame RawRow) : outcome Workbook :=
  match merge_consecutive_aoi df with
  | Returned (runs, _, raw) =>
      Returned
        (mkWorkbook
           (combine_timeline "Merged20msRun" "RawNon20Row" (rows runs) raw)
           runs)
  | Raised e => Raised e
  end.

End Exact.

(** ** The sequential reading of the classifier

    The classifier as the specification words it (section 4.4): a scan of
    each group in sort order that carries the preceding row and the number
    of runs started so far.  The scripts are compared with it below. *)

(** The contiguity rules between a row and its predecessor in the group. *)
Definition starts_at_previous_stop (prev cur : NRow) : bool :=
  num_eq (Start cur) (Stop prev).

Definition start_step_is_target (prev cur : NRow) : bool :=
  num_eq (num_sub (Start cur) (Start prev)) (Num DURATION_TARGET).

Definition both_durations_target (prev cur : NRow) : bool :=
  num_eq (Duration cur) (Num DURATION_TARGET)
  && num_eq (Duration prev) (Num DURATION_TARGET).

Definition contiguous_at_most (prev cur : NRow) : bool :=
  starts_at_previous_stop prev cur
  || (start_step_is_target prev cur && both_durations_target prev cur).

Definition contiguous_exact (prev cur : NRow) : bool :=
  starts_at_previous_stop prev cur || start_step_is_target prev cur.

Definition same_aoi_as (prev cur : NRow) : bool := obj_eq (AOI cur) (AOI prev).

Section Scan.

Variable contiguous : NRow -> NRow -> bool.

(** Whether a row starts a new run, given its predecessor in the group:
    iff NOT (same AOI AND contiguous); always when there is no predecessor. *)
Definition starts_run (prev : option NRow) (cur : NRow) : bool :=
  match prev with
  | None => true
  | Some p => negb (same_aoi_as p cur && contiguous p cur)
  end.

(** The run number is the running count of the new-run flags. *)
Definition count_flag (flag : bool) (n : nat) : nat :=
  if flag then S n else n.

Fixpoint scan_from (prev : NRow) (n : nat) (g : list NRow) : list Classified :=
  match g with
  | [] => []
  | r :: t =>
      let flag := starts_run (Some prev) r in
      mkClassified r flag (count_flag flag n) 1
        :: scan_from r (count_flag flag n) t
  end.

(** The first row of a group starts run 1. *)
Definition scan_group (g : list NRow) : list Classified :=
  match g with
  | [] => []
  | r :: t => mkClassified r true 1 1 :: scan_from r 1 t
  end.

(** The scan resumed in the middle of a frame: [prev] is the last row of
    the group seen so far and [n] the number of runs started so far. *)
Definition scan_resume (prev : option NRow) (n : nat) (g : list NRow) :
  list Classified :=
  match g with
  | [] => []
  | r :: t =>
      let flag := starts_run prev r in
      mkClassified r flag (count_flag flag n) 1
        :: scan_from r (count_flag flag n) t
  end.

End Scan.

(** The predecessor of each row inside its group, if any. *)
Definition previous_rows (seen t : list NRow) : list (option NRow) :=
  shift_from key_cmp key None (fun r => Some r) seen t.

(** The value a shifted column takes from the predecessor. *)
Definition shifted {V : Type} (na : V) (val : NRow -> V) (prev : option NRow) : V :=
  match prev with
  | Some p => val p
  | None => na
  end.

(** The rows of a classified frame that belong to group [k]. *)
Definition classified_group (k : GroupKey) (t : list Classified) :
  list Classified :=
  group_rows key_cmp (fun c => key (row c)) k t.

(** The member rows of the run [(k, n)]. *)
Definition members (k : GroupKey) (n : nat) (t : list Classified) : list NRow :=
  map row (group_rows runkey_cmp run_key (k, n) t).

(** The runs of group [k] in a run table. *)
Definition runs_of_group (k : GroupKey) (rs : list Run) : list Run :=
  group_rows key_cmp (fun r => key (cells r)) k rs.

(** ** Feeding a run table back as an input sheet *)

Definition of_num (x : num) : xcell :=
  match x with
  | Num z => Numeric z
  | NaN => Blank
  end.

Definition run_as_row (r : Run) : RawRow :=
  let c := cells r in
  mkRow (key c) (of_num (Start c)) (of_num (Stop c)) (of_num (Duration c))
        (AOI c) (EventIndex c).

Definition runs_as_input (runs : DataFrame Run) : DataFrame RawRow :=
  mkFrame (has_EventIndex runs) (map run_as_row (rows runs)).

(** ** Sample sheets *)

Definition k0 : GroupKey := mkKey "Rec1" "P01" "Goalie" "T1" "I1" "Fixation" "Valid".
Definition k1 : GroupKey := mkKey "Rec1" "P02" "Goalie" "T1" "I1" "Fixation" "Valid".

Definition interval (k : GroupKey) (s e d : Z) (a : string) (i : Z) : RawRow :=
  mkRow k (Numeric s) (Numeric e) (Numeric d) (Some a) (Some i).

(** The boundary example: two [Puck] rows that touch, then an [Ice] row. *)
Definition sheet_boundary : DataFrame RawRow :=
  mkFrame true
    [ interval k0 0 20 20 "Puck" 1; interval k0 20 40 20 "Puck" 2;
      interval k0 40 60 20 "Ice" 3 ].

(** ** The two configured modes *)

Inductive Mode : Type :=
| ExactMode
| AtMostMode.

(** The threshold predicate of the mode. *)
Definition mergeable (m : Mode) (r : NRow) : bool :=
  match m with
  | ExactMode => Exact.eq_target r
  | AtMostMode => AtMost.le_target r
  end.

(** The predicate that selects the rows kept raw. *)
Definition kept_raw (m : Mode) (r : NRow) : bool :=
  match m with
  | ExactMode => Exact.ne_target r
  | AtMostMode => AtMost.gt_target r
  end.

Definition mergeable_split (m : Mode) (df : DataFrame RawRow) :
  list (Labelled NRow) :=
  match m with
  | ExactMode => Exact.df20_split df
  | AtMostMode => AtMost.le20_split df
  end.

Definition pass_through (m : Mode) (df : DataFrame RawRow) :
  list (Labelled NRow) :=
  match m with
  | ExactMode => Exact.df_non20 df
  | AtMostMode => AtMost.gt20_rows df
  end.

(** The sorted mergeable stream the classifier scans. *)
Definition sorted_stream (m : Mode) (df : DataFrame RawRow) : list NRow :=
  match m with
  | ExactMode => Exact.df20_sorted df
  | AtMostMode => AtMost.le20_sorted df
  end.

(** The classified stream, as the merge returns it. *)
Definition classified_stream (m : Mode) (df : DataFrame RawRow) :
  list Classified :=
  match m with
  | ExactMode =>
      Exact.assign_columns (Exact.df20_sorted df)
        (Exact.new_run_flags (Exact.df20_sorted df))
  | AtMostMode => AtMost.le20_rows df
  end.

Definition contiguity (m : Mode) : NRow -> NRow -> bool :=
  match m with
  | ExactMode => contiguous_exact
  | AtMostMode => contiguous_at_most
  end.

Definition merge (m : Mode) (df : DataFrame RawRow) :
  outcome (DataFrame Run * list Classified * list (Labelled NRow)) :=
  match m with
  | ExactMode => Exact.merge_consecutive_aoi df
  | AtMostMode => Returned (AtMost.merge_consecutive_aoi_duration_le20 df)
  end.

Definition process_one_file (m : Mode) (df : DataFrame RawRow) :
  outcome Workbook :=
  match m with
  | ExactMode => Exact.process_one_file df
  | AtMostMode => Returned (AtMost.process_one_file df)
  end.

Definition raw_source (m : Mode) : string :=
  match m with
  | ExactMode => "RawNon20Row"
  | AtMostMode => "Raw>20msRow"
  end.

(** ** More sample sheets *)

(** A row whose [Duration] cell is not a number. *)
Definition malformed_row : RawRow :=
  mkRow k0 (Numeric 20) (Numeric 40) (Unparsable "n/a") (Some "Puck"%string) (Some 2).

Definition sheet_malformed : DataFrame RawRow :=
  mkFrame true [ interval k0 0 20 20 "Puck" 1; malformed_row ].

(** Two 20 ms rows 20 ms apart whose first [Stop] is not the next [Start]. *)
Definition sheet_step : DataFrame RawRow :=
  mkFrame true
    [ interval k0 0 19 20 "Puck" 1; interval k0 20 40 20 "Puck" 2 ].

(** The two rows of [sheet_step] as the at-most merge classifies them. *)
Definition step_first : Classified :=
  mkClassified (normalize_row (interval k0 0 19 20 "Puck" 1)) true 1 1.

Definition step_second : Classified :=
  mkClassified (normalize_row (interval k0 20 40 20 "Puck" 2)) false 1 1.

(** Two touching rows; the [EventIndex] cell of the first is blank. *)
Definition sheet_blank_event : DataFrame RawRow :=
  mkFrame true
    [ mkRow k0 (Numeric 0) (Numeric 20) (Numeric 20) (Some "Puck"%string) None;
      interval k0 20 40 20 "Puck" 7 ].

(** Two rows of one group that overlap in time. *)
Definition sheet_overlap : DataFrame RawRow :=
  mkFrame true
    [ interval k0 0 20 20 "Puck" 1; interval k0 10 30 20 "Ice" 2 ].

(** The boundary example and a row of a second group, without the
    [EventIndex] column. *)
Definition sheet_no_event_index : DataFrame RawRow :=
  mkFrame false (rows sheet_boundary ++ [interval k1 0 20 20 "Ice" 4]).

(** A short row followed by a long one. *)
Definition sheet_mixed : DataFrame RawRow :=
  mkFrame true
    [ interval k0 0 20 20 "Puck" 1; interval k0 20 80 60 "Puck" 2 ].

(** Rows that do not merge, in two groups. *)
Definition sheet_apart : DataFrame RawRow :=
  mkFrame true
    [ interval k1 0 20 20 "Ice" 1; interval k0 50 60 10 "Puck" 2;
      interval k0 0 20 20 "Puck" 3 ].

(** ** Predicates used in the statements *)

(** The number of set flags in a column of flags. *)
Definition flags_set (bs : list bool) : nat :=
  List.length (filter (fun b : bool => b) bs).


(** A comparison that is a strict total order whose [Eq] is equality. *)
Record OrderCmp {K : Type} (cmp : K -> K -> comparison) : Prop := {
  cmp_eq_iff : forall x y, cmp x y = Eq <-> x = y;
  cmp_flip : forall x y, cmp y x = CompOpp (cmp x y);
  cmp_lt_trans : forall x y z, cmp x y = Lt -> cmp y z = Lt -> cmp x z = Lt
}.

(** [x] sorts no later than [y] on the key [col]. *)
Definition le_by {R K : Type} (cmp : K -> K -> comparison) (col : R -> K)
  (x y : R) : Prop :=
  cmp_leb cmp (col x) (col y) = true.

(** [a <= b] with [NaN] last, the order of the sort on a numeric column. *)
Definition num_le_last (a b : num) : Prop := num_cmp a b <> Gt.

(** [m] is the least number of [xs], [NaN] when [xs] holds no number. *)
Definition least_of (xs : list num) (m : num) : Prop :=
  match m with
  | Num z => In (Num z) xs /\ forall y, In (Num y) xs -> z <= y
  | NaN => forall x, In x xs -> x = NaN
  end.

(** [m] is the greatest number of [xs], [NaN] when [xs] holds no number. *)
Definition greatest_of (xs : list num) (m : num) : Prop :=
  match m with
  | Num z => In (Num z) xs /\ forall y, In (Num y) xs -> y <= z
  | NaN => forall x, In x xs -> x = NaN
  end.

(** [m] is the sum of the numbers [zs]. *)
Definition total_of (zs : list Z) (m : num) : Prop :=
  m = Num (fold_right Z.add 0 zs).

(** [v] is the first filled cell of [xs], blank when [xs] has none. *)
Definition first_filled_of {V : Type} (xs : list (option V)) (v : option V) :
  Prop :=
  match v with
  | Some e =>
      exists pre post,
        xs = pre ++ Some e :: post /\ forall x, In x pre -> x = None
  | None => forall x, In x xs -> x = None
  end.

(** The run [r] summarises the member rows [ms] (in sort order); [ei]
    tells whether the frame has the [EventIndex] column. *)
Definition run_summarises (ei : bool) (ms : list NRow) (r : Run) : Prop :=
  exists first rest zs,
    ms = first :: rest /\
    least_of (map Start ms) (Start (cells r)) /\
    greatest_of (map Stop ms) (Stop (cells r)) /\
    map Duration ms = map Num zs /\
    total_of zs (Duration (cells r)) /\
    AOI (cells r) = AOI first /\
    Run_SegmentsMerged r = List.length ms /\
    (if ei
     then first_filled_of (map EventIndex ms) (EventIndex (cells r)) /\
          (EventIndex first <> None -> EventIndex (cells r) = EventIndex first)
     else EventIndex (cells r) = None).

(** Consecutive rows of a group do not overlap in time. *)
Definition rows_do_not_overlap (g : list NRow) : Prop :=
  Sorted (fun a b => num_le_last (Stop a) (Start b)) g.

(** ** Further parts of the scripts *)

(** *** The AOI summaries of [process_one_file] *)

(** A row of [AOI_Summary] ([K] is the AOI label) or of [AOI_ByGroup]
    ([K] is the group key with the AOI label). *)
Record SummaryRow (K : Type) : Type := mkSummary {
  group_of : K;
  Rows : nat;
  TotalDuration : num;
  FirstStart : num;
  LastStop : num
}.

Arguments mkSummary {K}.
Arguments group_of {K}.
Arguments Rows {K}.
Arguments TotalDuration {K}.
Arguments FirstStart {K}.
Arguments LastStop {K}.

(** [groupby] drops the rows whose key is null: a row with a blank [AOI]
    belongs to no group of the summaries. *)
Definition has_aoi (c : Classified) : bool :=
  match AOI (row c) with
  | Some _ => true
  | None => false
  end.

Definition aoi_label (c : Classified) : string :=
  match AOI (row c) with
  | Some a => a
  | None => EmptyString
  end.

(** [.agg(Rows=("AOI", "size"), TotalDuration=("Duration", "sum"),
          FirstStart=("Start", "min"), LastStop=("Stop", "max"))]
    on one group. *)
Definition summarise {K : Type} (g : K * list Classified) : SummaryRow K :=
  let members := map row (snd g) in
  mkSummary (fst g) (List.length (snd g))
    (agg_sum (map Duration members))
    (agg_min (map Start members))
    (agg_max (map Stop members)).

(** Descending order on a numeric column, nulls still last. *)
Definition num_cmp_desc (a b : num) : comparison :=
  match a, b with
  | Num x, Num y => Z.compare y x
  | Num _, NaN => Lt
  | NaN, Num _ => Gt
  | NaN, NaN => Eq
  end.

Definition aoi_groups (t : list Classified) : list (string * list Classified) :=
  groupby str_cmp aoi_label (filter has_aoi t).

(** [rows.groupby("AOI", as_index=False).agg(...)
      .sort_values("TotalDuration", ascending=False)].  The order pandas
    gives to equal totals is that of its default sort on one column; the
    insertion sort used here keeps them in group order. *)
Definition aoi_summary_overall (t : list Classified) : list (SummaryRow string) :=
  sort_values num_cmp_desc TotalDuration (map summarise (aoi_groups t)).

Definition GroupAoi : Type := (GroupKey * string)%type.

Definition groupaoi_cmp : GroupAoi -> GroupAoi -> comparison :=
  pair_cmp key_cmp str_cmp.

Definition group_aoi (c : Classified) : GroupAoi := (key (row c), aoi_label c).

(** [rows.groupby(GROUP_COLS + ["AOI"], as_index=False).agg(...)] *)
Definition aoi_by_group (t : list Classified) : list (SummaryRow GroupAoi) :=
  map summarise (groupby groupaoi_cmp group_aoi (filter has_aoi t)).

(** The number held by a numeric cell, 0 for a null one (what [sum] adds). *)
Definition num_value (x : num) : Z :=
  match x with
  | Num z => z
  | NaN => 0
  end.

Definition sum_values (xs : list num) : Z := fold_right Z.add 0 (map num_value xs).

(** The total of a weight over the rows of a frame. *)
Definition total {R : Type} (weight : R -> Z) (l : list R) : Z :=
  fold_right Z.add 0 (map weight l).

Definition is_nan (x : num) : bool :=
  match x with
  | NaN => true
  | Num _ => false
  end.

(** *** The archived single-file script:
        [input_metrics_data/archives/tpl_metrics_aois_aggregation_separate.py] *)

Module Archive.

(** [agg.sort_values(["Interval", "Start"]).reset_index(drop=True)] *)
Definition nice_ordering (rs : list Run) : list Run :=
  sort_values (pair_cmp str_cmp num_cmp)
    (fun r => (Interval (key (cells r)), Start (cells r))) rs.

(** The same steps as the exact variant up to the aggregation; only the
    final ordering of the run table differs. *)
Definition merge_consecutive_aoi (df : DataFrame RawRow) :
  outcome (DataFrame Run * list Classified * list (Labelled NRow)) :=
  match Exact.df20 df with
  | Returned cl =>
      if has_EventIndex df
      then Returned
             (mkFrame true
                (nice_ordering
                   (map (agg_run true) (groupby runkey_cmp run_key cl))),
              cl, Exact.df_non20 df)
      else Raised "KeyError: Column(s) ['EventIndex'] do not exist"
  | Raised e => Raised e
  end.

End Archive.

(** *** Provenance in the combined timeline *)

Definition merged_source (m : Mode) : string :=
  match m with
  | ExactMode => "Merged20msRun"
  | AtMostMode => "Merged<=20msRun"
  end.

(** Whether a timeline row comes from the run table. *)
Definition is_run_row (t : TimelineRow) : bool :=
  match tl_run_id t with
  | Some _ => true
  | None => false
  end.

(** *** The batch driver [main] *)

(** [INPUT_FOLDER.glob("*.xlsx")] keeps the names that end in [.xlsx]. *)
Definition ends_with (suffix s : string) : bool :=
  (String.length suffix <=? String.length s)%nat &&
  String.eqb
    (substring (String.length s - String.length suffix) (String.length suffix) s)
    suffix.

Definition is_xlsx (name : string) : bool := ends_with ".xlsx" name.

(** [f.name.startswith("~$")]: a temporary lock file of Excel. *)
Definition is_lock_file (name : string) : bool := String.prefix "~$" name.

(** [input_xlsx.stem] of a name that ends in [.xlsx]: the name without
    that suffix, except that the bare name [.xlsx] has no suffix. *)
Definition stem (name : string) : string :=
  if String.eqb name ".xlsx" then name
  else substring 0 (String.length name - 5) name.

(** [OUTPUT_FOLDER / f"{input_xlsx.stem}_aggregated.xlsx"] *)
Definition output_name (name : string) : string :=
  String.append (stem name) "_aggregated.xlsx".

(** An entry of the input folder: its name and what
    [pd.read_excel(_, sheet_name=SHEET_NAME)] gives for it. *)
Record InputFile : Type := mkInputFile {
  file_name : string;
  read_excel : outcome (DataFrame RawRow)
}.

(** One written workbook: the output name and the sheets. *)
Definition Written : Type := (string * Workbook)%type.

(** [for input_xlsx in input_files: process_one_file(input_xlsx)]: the
    workbooks written, in order, and how the loop ended.  No exception is
    caught: the first file that raises ends the batch. *)
Fixpoint process_files (m : Mode) (files : list InputFile) :
  list Written * outcome unit :=
  match files with
  | [] => ([], Returned tt)
  | f :: rest =>
      match read_excel f with
      | Raised e => ([], Raised e)
      | Returned df =>
          match process_one_file m df with
          | Raised e => ([], Raised e)
          | Returned wb =>
              let (written, ending) := process_files m rest in
              ((output_name (file_name f), wb) :: written, ending)
          end
      end
  end.

(** [sorted(INPUT_FOLDER.glob("*.xlsx"))] without the lock files. *)
Definition input_files (listing : list InputFile) : list InputFile :=
  filter (fun f => negb (is_lock_file (file_name f)))
    (sort_values str_cmp file_name
       (filter (fun f => is_xlsx (file_name f)) listing)).

(** [main()]; the input folder is [None] when it does not exist. *)
Definition main (m : Mode) (input_folder : option (list InputFile)) :
  list Written * outcome unit :=
  match input_folder with
  | None => ([], Raised "FileNotFoundError: Input folder not found")
  | Some listing =>
      match input_files listing with
      | [] => ([], Raised "FileNotFoundError: No .xlsx files found")
      | f :: rest => process_files m (f :: rest)
      end
  end.

(** The workbook [out] is what the loop writes for the input file [f]. *)
Definition written_from (m : Mode) (f : InputFile) (out : Written) : Prop :=
  fst out = output_name (file_name f) /\
  exists df, read_excel f = Returned df /\
             process_one_file m df = Returned (snd out).

(** Reading or processing the input file [f] raises [e]. *)
Definition fails_on (m : Mode) (f : InputFile) (e : string) : Prop :=
  read_excel f = Raised e \/
  exists df, read_excel f = Returned df /\ process_one_file m df = Raised e.

(** A folder with a lock file, a text file and two sheets. *)
Definition folder_sample : list InputFile :=
  [ mkInputFile "b.xlsx" (Returned sheet_mixed);
    mkInputFile "~$b.xlsx" (Raised "BadZipFile");
    mkInputFile "notes.txt" (Raised "ValueError");
    mkInputFile "a.xlsx" (Returned sheet_apart) ].

(** A sheet with one row in each of two groups. *)
Definition sheet_two_groups : DataFrame RawRow :=
  mkFrame true [ interval k1 0 20 20 "Ice" 1; interval k0 0 20 20 "Puck" 2 ].

(** A long row and a short row of one group with the same [Start] and
    [Stop]; the long row comes first in the sheet. *)
Definition sheet_tie : DataFrame RawRow :=
  mkFrame true [ interval k0 0 20 30 "Ice" 1; interval k0 0 20 20 "Puck" 2 ].

(** Rows on [Puck] in two groups, and a row on [Ice]. *)
Definition sheet_shared_aoi : DataFrame RawRow :=
  mkFrame true
    [ interval k0 0 20 20 "Puck" 1; interval k0 20 40 20 "Puck" 2;
      interval k1 0 10 10 "Puck" 3; interval k1 30 50 20 "Ice" 4 ].

(** A sheet whose second row has a blank [AOI]. *)
Definition sheet_blank_aoi : DataFrame RawRow :=
  mkFrame true
    [ interval k0 0 20 20 "Puck" 1;
      mkRow k0 (Numeric 20) (Numeric 40) (Numeric 20) None (Some 2);
      interval k0 40 60 20 "Puck" 3 ].

(** A folder whose second file, in name order, has a single group. *)
Definition folder_single_group : list InputFile :=
  [ mkInputFile "b.xlsx" (Returned sheet_boundary);
    mkInputFile "a.xlsx" (Returned sheet_two_groups);
    mkInputFile "c.xlsx" (Returned sheet_two_groups) ].

(** *** Sheets with blank group-key cells

    [pd.read_excel] reads an empty cell of a grouping column as a null.
    Three defaults of pandas decide what the at-most script does with
    such a row: [sort_values] puts the nulls of every column last;
    [groupby] ([dropna=True]) leaves a row with a null in any key column
    out of every group, so [shift] and [cumsum] give it a null; and the
    grouped aggregation has no line for it.  Module [Sparse] is the
    at-most script on sheets whose seven key cells may be blank. *)

(** The seven cells of [GROUP_COLS] as read from the sheet. *)
Record KeyCells : Type := mkCells {
  Recording_cell : option string;
  Participant_cell : option string;
  Position_cell : option string;
  TOI_cell : option string;
  Interval_cell : option string;
  Event_type_cell : option string;
  Validity_cell : option string
}.

Definition GROUP_CELLS (c : KeyCells) :
  option string * (option string * (option string * (option string *
    (option string * (option string * option string))))) :=
  (Recording_cell c, (Participant_cell c, (Position_cell c, (TOI_cell c,
   (Interval_cell c, (Event_type_cell c, Validity_cell c)))))).

(** A text column sorts ascending with [na_position="last"]. *)
Definition cell_cmp (a b : option string) : comparison :=
  match a, b with
  | Some x, Some y => str_cmp x y
  | Some _, None => Lt
  | None, Some _ => Gt
  | None, None => Eq
  end.

Definition cells_cmp (a b : KeyCells) : comparison :=
  pair_cmp cell_cmp (pair_cmp cell_cmp (pair_cmp cell_cmp (pair_cmp cell_cmp
    (pair_cmp cell_cmp (pair_cmp cell_cmp cell_cmp)))))
    (GROUP_CELLS a) (GROUP_CELLS b).

(** The group key of a row: defined when none of the seven cells is
    blank. *)
Definition filled (c : KeyCells) : option GroupKey :=
  match Recording_cell c, Participant_cell c, Position_cell c, TOI_cell c,
        Interval_cell c, Event_type_cell c, Validity_cell c with
  | Some r, Some p, Some q, Some t, Some i, Some e, Some v =>
      Some (mkKey r p q t i e v)
  | _, _, _, _, _, _, _ => None
  end.

(** The cells that spell a group key. *)
Definition cells_of (k : GroupKey) : KeyCells :=
  mkCells (Some (Recording k)) (Some (Participant k)) (Some (Position k))
          (Some (TOI k)) (Some (Interval k)) (Some (Event_type k))
          (Some (Validity k)).

(** The rows [f] keeps, with what it makes of them. *)
Fixpoint dropna {A B : Type} (f : A -> option B) (l : list A) : list B :=
  match l with
  | [] => []
  | x :: t =>
      match f x with
      | Some y => y :: dropna f t
      | None => dropna f t
      end
  end.

Section DropNa.

Context {R K : Type}.
Variable cmp : K -> K -> comparison.
Variable col : R -> option K.

(** Whether the row is in the group [k]; a row with a null key is in no
    group. *)
Definition in_group (k : K) (r : R) : bool :=
  match col r with
  | Some k' => cmp_eqb cmp k k'
  | None => false
  end.

(** [groupby(by).shift(1)] of the column [val] when key cells may be
    null: the value of the nearest earlier row of the same group, [na]
    when there is none or when the row is in no group. *)
Fixpoint shift_from_dropna {V : Type} (na : V) (val : R -> V)
  (seen l : list R) : list V :=
  match l with
  | [] => []
  | r :: t =>
      match col r with
      | Some k =>
          match find (in_group k) seen with
          | Some p => val p
          | None => na
          end
      | None => na
      end :: shift_from_dropna na val (r :: seen) t
  end.

Definition groupby_shift_dropna {V : Type} (na : V) (val : R -> V)
  (l : list R) : list V :=
  shift_from_dropna na val [] l.

End DropNa.

Section CumsumDropNa.

Context {K : Type}.
Variable cmp : K -> K -> comparison.

(** [groupby(by)[flag].cumsum()] when key cells may be null: the count of
    set flags of the group so far, a null for a row in no group. *)
Fixpoint cumsum_from_dropna (seen l : list (option K * bool)) :
  list (option nat) :=
  match l with
  | [] => []
  | kb :: t =>
      match fst kb with
      | Some k =>
          Some (List.length
                  (filter (fun p => in_group cmp fst k p && snd p) (kb :: seen)))
      | None => None
      end :: cumsum_from_dropna (kb :: seen) t
  end.

Definition groupby_cumsum_dropna (ks : list (option K)) (flags : list bool) :
  list (option nat) :=
  cumsum_from_dropna [] (combine ks flags).

End CumsumDropNa.

Module Sparse.

(** One interval row of a sheet whose key cells may be blank. *)
Record Row (T : Type) : Type := mkSparse {
  key_cells : KeyCells;
  Start : T;
  Stop : T;
  Duration : T;
  AOI : option string;
  EventIndex : option Z
}.

Arguments mkSparse {T}.
Arguments key_cells {T}.
Arguments Start {T}.
Arguments Stop {T}.
Arguments Duration {T}.
Arguments AOI {T}.
Arguments EventIndex {T}.

Definition records (df : DataFrame (Row xcell)) : list (Row xcell) :=
  map (fun r =>
         mkSparse (key_cells r) (Start r) (Stop r) (Duration r) (AOI r)
                  (if has_EventIndex df then EventIndex r else None))
      (rows df).

Definition normalize_row (r : Row xcell) : Row num :=
  mkSparse (key_cells r) (to_numeric (Start r)) (to_numeric (Stop r))
           (to_numeric (Duration r)) (AOI r) (EventIndex r).

Definition normalize (df : DataFrame (Row xcell)) : list (Row num) :=
  map normalize_row (records df).

Definition le_target (r : Row num) : bool :=
  num_le (Duration r) (Num DURATION_TARGET).
Definition gt_target (r : Row num) : bool :=
  num_gt (Duration r) (Num DURATION_TARGET).

(** [df[df["Duration"].le(DURATION_TARGET)].copy()] *)
Definition le20_split (df : DataFrame (Row xcell)) : list (Labelled (Row num)) :=
  select le_target (with_index (normalize df)).

(** [df[df["Duration"].gt(DURATION_TARGET)].copy()] *)
Definition gt20_rows (df : DataFrame (Row xcell)) : list (Labelled (Row num)) :=
  select gt_target (with_index (normalize df)).

Definition sortkey_cmp :
  KeyCells * (num * num) -> KeyCells * (num * num) -> comparison :=
  pair_cmp cells_cmp (pair_cmp num_cmp num_cmp).

Definition sort_key (r : Row num) : KeyCells * (num * num) :=
  (key_cells r, (Start r, Stop r)).

(** [le20_rows.sort_values(GROUP_COLS + ["Start", "Stop"]).reset_index(drop=True)] *)
Definition le20_sorted (df : DataFrame (Row xcell)) : list (Row num) :=
  reset_index
    (sort_values sortkey_cmp (fun ir => sort_key (snd ir)) (le20_split df)).

(** The group of a row under [groupby(GROUP_COLS)]. *)
Definition group (r : Row num) : option GroupKey := filled (key_cells r).

Definition is_target (x : num) : bool := num_eq x (Num DURATION_TARGET).

Definition prev_aoi (t : list (Row num)) : list (option string) :=
  groupby_shift_dropna key_cmp group None AOI t.
Definition prev_stop (t : list (Row num)) : list num :=
  groupby_shift_dropna key_cmp group NaN Stop t.
Definition prev_start (t : list (Row num)) : list num :=
  groupby_shift_dropna key_cmp group NaN Start t.
Definition prev_dur (t : list (Row num)) : list num :=
  groupby_shift_dropna key_cmp group NaN Duration t.

Definition same_aoi (t : list (Row num)) : list bool :=
  map2 obj_eq (map AOI t) (prev_aoi t).

Definition contiguous_by_stop (t : list (Row num)) : list bool :=
  map2 num_eq (map Start t) (prev_stop t).

Definition contiguous_by_step20 (t : list (Row num)) : list bool :=
  map2 andb
    (map2 andb
       (map is_target (map2 num_sub (map Start t) (prev_start t)))
       (map is_target (map Duration t)))
    (map is_target (prev_dur t)).

Definition contiguous (t : list (Row num)) : list bool :=
  map2 orb (contiguous_by_stop t) (contiguous_by_step20 t).

(** [le20_rows["new_run"] = ~(same_aoi & contiguous)] *)
Definition new_run_col (t : list (Row num)) : list bool :=
  map negb (map2 andb (same_aoi t) (contiguous t)).

(** [le20_rows["run_id"] = le20_rows.groupby(GROUP_COLS)["new_run"].cumsum()] *)
Definition run_id_col (t : list (Row num)) : list (option nat) :=
  groupby_cumsum_dropna key_cmp (map group t) (new_run_col t).

(** A row of [le20_rows] with the added columns; [run_id] is null for a
    row in no group. *)
Record ClassifiedRow : Type := mkClassifiedRow {
  row : Row num;
  new_run : bool;
  run_id : option nat;
  SegmentsMerged : nat
}.

Fixpoint assign (t : list (Row num)) (flags : list bool)
  (ids : list (option nat)) : list ClassifiedRow :=
  match t, flags, ids with
  | r :: t', b :: flags', n :: ids' =>
      mkClassifiedRow r b n 1 :: assign t' flags' ids'
  | _, _, _ => []
  end.

Definition classify (t : list (Row num)) : list ClassifiedRow :=
  assign t (new_run_col t) (run_id_col t).

(** The frame [le20_rows] that the function returns. *)
Definition le20_rows (df : DataFrame (Row xcell)) : list ClassifiedRow :=
  classify (le20_sorted df).

(** The rows that [groupby(GROUP_COLS + ["run_id"])] puts in a group:
    those without a null in the seven key cells or in [run_id]. *)
Definition grouped (c : ClassifiedRow) : option Classified :=
  match group (row c), run_id c with
  | Some k, Some n =>
      Some (mkClassified
              (mkRow k (Start (row c)) (Stop (row c)) (Duration (row c))
                     (AOI (row c)) (EventIndex (row c)))
              (new_run c) n (SegmentsMerged c))
  | _, _ => None
  end.

Definition merged_runs (df : DataFrame (Row xcell)) : DataFrame Run :=
  mkFrame (has_EventIndex df)
    (aggregate (has_EventIndex df) (dropna grouped (le20_rows df))).

Definition merge_consecutive_aoi_duration_le20 (df : DataFrame (Row xcell)) :
  DataFrame Run * list ClassifiedRow * list (Labelled (Row num)) :=
  (merged_runs df, le20_rows df, gt20_rows df).

(** The mergeable rows whose key cells are all filled and spell [k]. *)
Definition rows_of_group (k : GroupKey) (t : list ClassifiedRow) :
  list ClassifiedRow :=
  filter (fun c => in_group key_cmp group k (row c)) t.

(** Whether the seven key cells of a mergeable row are all filled. *)
Definition has_group (c : ClassifiedRow) : bool :=
  match group (row c) with
  | Some _ => true
  | None => false
  end.

(** The mergeable rows that carry the key cells [g], blank ones included. *)
Definition rows_with_cells (g : KeyCells) (t : list ClassifiedRow) :
  list ClassifiedRow :=
  group_rows cells_cmp (fun c => key_cells (row c)) g t.

(** The runs that carry the key cells [g]. *)
Definition runs_with_cells (g : KeyCells) (rs : list Run) : list Run :=
  group_rows cells_cmp (fun r => cells_of (key (cells r))) g rs.

End Sparse.

(** A sheet without blank key cells, as a sheet of module [Sparse]. *)
Definition sparse_row {T : Type} (r : Row T) : Sparse.Row T :=
  Sparse.mkSparse (cells_of (key r)) (Start r) (Stop r) (Duration r) (AOI r)
                  (EventIndex r).

Definition sparse_sheet (df : DataFrame RawRow) : DataFrame (Sparse.Row xcell) :=
  mkFrame (has_EventIndex df) (map sparse_row (rows df)).

(** What the added columns hold: [SegmentsMerged] is 1, and [run_id] is
    a number for every row that is in a group. *)
Definition sparse_columns (c : Sparse.ClassifiedRow) : Prop :=
  Sparse.SegmentsMerged c = 1%nat /\
  (Sparse.has_group c = true -> exists n, Sparse.run_id c = Some n).

(** The cells of [k0] with the [Validity] cell left blank. *)
Definition blank_validity : KeyCells :=
  mkCells (Some "Rec1"%string) (Some "P01"%string) (Some "Goalie"%string)
          (Some "T1"%string) (Some "I1"%string) (Some "Fixation"%string) None.

(** The boundary example with the [Validity] cell of its third row blank
    and the three rows on one AOI. *)
Definition sheet_blank_key : DataFrame (Sparse.Row xcell) :=
  mkFrame true
    [ sparse_row (interval k0 0 20 20 "Puck" 1);
      sparse_row (interval k0 20 40 20 "Puck" 2);
      Sparse.mkSparse blank_validity (Numeric 40) (Numeric 60) (Numeric 20)
                      (Some "Puck"%string) (Some 3) ].

(** * Properties *)

(** ** Comparisons *)

Lemma Z_compare_order : OrderCmp Z.compare.
Proof.
  constructor.
  - intros x y. apply Z.compare_eq_iff.
  - intros x y. apply Z.compare_antisym.
  - intros x y z Hxy Hyz. rewrite Z.compare_lt_iff in *. lia.
Qed.

Lemma nat_compare_order : OrderCmp Nat.compare.
Proof.
  constructor.
  - intros x y. apply Nat.compare_eq_iff.
  - intros x y. apply Nat.compare_antisym.
  - intros x y z Hxy Hyz. rewrite Nat.compare_lt_iff in *. lia.
Qed.

Lemma str_cmp_order : OrderCmp str_cmp.
Proof.
  assert (Hirr : forall x, str_cmp x x <> Lt).
  { intros x H. exact (StrictOrder_Irreflexive (R := String_as_OT.lt) x H). }
  assert (Htr : forall x y z, str_cmp x y = Lt -> str_cmp y z = Lt -> str_cmp x z = Lt).
  { intros x y z. exact (StrictOrder_Transitive (R := String_as_OT.lt) x y z). }
  constructor.
  - intros x y. unfold str_cmp. split.
    + intros H. destruct (String_as_OT.compare_spec x y); congruence.
    + intros ->. destruct (String_as_OT.compare_spec y y) as [ _ | H | H ];
        [reflexivity | destruct (Hirr _ H) | destruct (Hirr _ H)].
  - intros x y. unfold str_cmp.
    destruct (String_as_OT.compare_spec x y) as [ E | H1 | H1 ];
      destruct (String_as_OT.compare_spec y x) as [ E' | H2 | H2 ];
      unfold String_as_OT.eq, String_as_OT.lt in *;
      simpl; try reflexivity; try congruence; exfalso.
    + subst. exact (Hirr _ H2).
    + subst. exact (Hirr _ H2).
    + subst. exact (Hirr _ H1).
    + exact (Hirr x (Htr _ _ _ H1 H2)).
    + subst. exact (Hirr _ H1).
    + exact (Hirr x (Htr _ _ _ H2 H1)).
  - exact Htr.
Qed.

Lemma num_cmp_order : OrderCmp num_cmp.
Proof.
  constructor.
  - intros [|x] [|y]; simpl; split; intros H; try congruence.
    + apply Z.compare_eq_iff in H. congruence.
    + inversion H. apply Z.compare_refl.
  - intros [|x] [|y]; simpl; try reflexivity. apply Z.compare_antisym.
  - intros [|x] [|y] [|z]; simpl; try congruence.
    rewrite !Z.compare_lt_iff. lia.
Qed.

Section OrderFacts.

Context {K : Type} (cmp : K -> K -> comparison) (Hc : OrderCmp cmp).

Lemma cmp_refl x : cmp x x = Eq.
Proof. apply (cmp_eq_iff _ Hc). reflexivity. Qed.

Lemma cmp_gt_lt x y : cmp x y = Gt <-> cmp y x = Lt.
Proof.
  rewrite (cmp_flip _ Hc x y). destruct (cmp x y); simpl; split; congruence.
Qed.

Lemma cmp_eqb_eq x y : cmp_eqb cmp x y = true <-> x = y.
Proof.
  unfold cmp_eqb. rewrite <- (cmp_eq_iff _ Hc).
  destruct (cmp x y); split; congruence.
Qed.

Lemma cmp_eqb_refl x : cmp_eqb cmp x x = true.
Proof. apply cmp_eqb_eq. reflexivity. Qed.

Lemma cmp_eqb_neq x y : cmp_eqb cmp x y = false <-> x <> y.
Proof.
  rewrite <- cmp_eqb_eq. destruct (cmp_eqb cmp x y); split; congruence.
Qed.

Lemma cmp_eqb_sym x y : cmp_eqb cmp x y = cmp_eqb cmp y x.
Proof.
  destruct (cmp_eqb cmp x y) eqn:E.
  - apply cmp_eqb_eq in E. subst. symmetry. apply cmp_eqb_refl.
  - symmetry. apply cmp_eqb_neq. apply cmp_eqb_neq in E. congruence.
Qed.

Lemma cmp_leb_total x y : cmp_leb cmp x y = true \/ cmp_leb cmp y x = true.
Proof.
  unfold cmp_leb. rewrite (cmp_flip _ Hc x y).
  destruct (cmp x y); simpl; auto.
Qed.

Lemma cmp_leb_refl x : cmp_leb cmp x x = true.
Proof. unfold cmp_leb. rewrite cmp_refl. reflexivity. Qed.

Lemma cmp_leb_trans x y z :
  cmp_leb cmp x y = true -> cmp_leb cmp y z = true -> cmp_leb cmp x z = true.
Proof.
  unfold cmp_leb. intros Hxy Hyz.
  destruct (cmp x y) eqn:Exy; try discriminate.
  - apply (cmp_eq_iff _ Hc) in Exy. subst. exact Hyz.
  - destruct (cmp y z) eqn:Eyz; try discriminate.
    + apply (cmp_eq_iff _ Hc) in Eyz. subst. rewrite Exy. reflexivity.
    + rewrite (cmp_lt_trans _ Hc _ _ _ Exy Eyz). reflexivity.
Qed.

Lemma cmp_leb_antisym x y :
  cmp_leb cmp x y = true -> cmp_leb cmp y x = true -> x = y.
Proof.
  unfold cmp_leb. rewrite (cmp_flip _ Hc x y). intros H1 H2.
  apply (cmp_eq_iff _ Hc). destruct (cmp x y); simpl in *; congruence.
Qed.

End OrderFacts.

Lemma pair_cmp_order {A B : Type} (ca : A -> A -> comparison)
  (cb : B -> B -> comparison) :
  OrderCmp ca -> OrderCmp cb -> OrderCmp (pair_cmp ca cb).
Proof.
  intros Ha Hb. constructor.
  - intros [a1 b1] [a2 b2]. unfold pair_cmp, lex. simpl. split.
    + intros H. destruct (ca a1 a2) eqn:E; try discriminate.
      apply (cmp_eq_iff _ Ha) in E. apply (cmp_eq_iff _ Hb) in H. congruence.
    + intros H. inversion H. subst. rewrite (cmp_refl _ Ha).
      apply (cmp_refl _ Hb).
  - intros [a1 b1] [a2 b2]. unfold pair_cmp, lex. simpl.
    rewrite (cmp_flip _ Ha a1 a2). destruct (ca a1 a2); simpl; auto.
    apply (cmp_flip _ Hb).
  - intros [a1 b1] [a2 b2] [a3 b3]. unfold pair_cmp, lex. simpl.
    destruct (ca a1 a2) eqn:E12; try discriminate;
      destruct (ca a2 a3) eqn:E23; try discriminate; intros H1 H2.
    + apply (cmp_eq_iff _ Ha) in E12, E23. subst. rewrite (cmp_refl _ Ha).
      exact (cmp_lt_trans _ Hb _ _ _ H1 H2).
    + apply (cmp_eq_iff _ Ha) in E12. subst. rewrite E23. reflexivity.
    + apply (cmp_eq_iff _ Ha) in E23. subst. rewrite E12. reflexivity.
    + rewrite (cmp_lt_trans _ Ha _ _ _ E12 E23). reflexivity.
Qed.

Lemma GROUP_COLS_inj a b : GROUP_COLS a = GROUP_COLS b -> a = b.
Proof.
  destruct a, b. unfold GROUP_COLS. simpl. intros H. inversion H. reflexivity.
Qed.

Lemma key_cmp_order : OrderCmp key_cmp.
Proof.
  pose proof str_cmp_order as Hs.
  assert (Ht : OrderCmp
    (pair_cmp str_cmp (pair_cmp str_cmp (pair_cmp str_cmp (pair_cmp str_cmp
      (pair_cmp str_cmp (pair_cmp str_cmp str_cmp))))))).
  { repeat apply pair_cmp_order; exact Hs. }
  constructor; unfold key_cmp.
  - intros x y. rewrite (cmp_eq_iff _ Ht). split.
    + apply GROUP_COLS_inj.
    + intros ->. reflexivity.
  - intros x y. apply (cmp_flip _ Ht).
  - intros x y z. apply (cmp_lt_trans _ Ht).
Qed.

Lemma sortkey_cmp_order : OrderCmp sortkey_cmp.
Proof.
  repeat apply pair_cmp_order;
    first [exact key_cmp_order | exact num_cmp_order].
Qed.

Lemma runkey_cmp_order : OrderCmp runkey_cmp.
Proof.
  apply pair_cmp_order; [exact key_cmp_order | exact nat_compare_order].
Qed.

Lemma key_eqb_eq a b : key_eqb a b = true <-> a = b.
Proof. apply cmp_eqb_eq. exact key_cmp_order. Qed.

Lemma key_eqb_refl a : key_eqb a a = true.
Proof. apply key_eqb_eq. reflexivity. Qed.

(** ** [sort_values]: a stable sort *)

Section SortFacts.

Context {R K : Type} (cmp : K -> K -> comparison) (Hc : OrderCmp cmp).
Variable col : R -> K.

Lemma insert_sorted_perm x l : Permutation (insert_sorted cmp col x l) (x :: l).
Proof.
  induction l as [|y t IH]; simpl.
  - apply Permutation_refl.
  - destruct (cmp_leb cmp (col x) (col y)).
    + apply Permutation_refl.
    + apply perm_trans with (y :: x :: t).
      * apply perm_skip. exact IH.
      * apply perm_swap.
Qed.

Lemma sort_values_perm l : Permutation (sort_values cmp col l) l.
Proof.
  induction l as [|x t IH]; simpl.
  - apply perm_nil.
  - apply perm_trans with (x :: sort_values cmp col t).
    + apply insert_sorted_perm.
    + apply perm_skip. exact IH.
Qed.

Lemma sort_values_In l x : In x (sort_values cmp col l) <-> In x l.
Proof.
  split; apply Permutation_in;
    [apply sort_values_perm | apply Permutation_sym, sort_values_perm].
Qed.

Lemma sort_values_length l : List.length (sort_values cmp col l) = List.length l.
Proof. apply Permutation_length, sort_values_perm. Qed.

Lemma insert_sorted_head x l :
  (forall y, In y l -> le_by cmp col x y) ->
  insert_sorted cmp col x l = x :: l.
Proof.
  destruct l as [|y t]; simpl; intros H.
  - reflexivity.
  - rewrite (H y (or_introl eq_refl)). reflexivity.
Qed.

Lemma insert_sorted_sorted x l :
  StronglySorted (le_by cmp col) l ->
  StronglySorted (le_by cmp col) (insert_sorted cmp col x l).
Proof.
  induction 1 as [|y t Hs IH Hall]; simpl.
  - constructor; constructor.
  - destruct (cmp_leb cmp (col x) (col y)) eqn:E.
    + constructor.
      * constructor; assumption.
      * constructor; [exact E|].
        rewrite Forall_forall in *. intros z Hz.
        exact (cmp_leb_trans _ Hc _ _ _ E (Hall z Hz)).
    + constructor; [exact IH|].
      rewrite Forall_forall in *. intros z Hz.
      apply (Permutation_in _ (insert_sorted_perm x t)) in Hz.
      destruct Hz as [<- | Hz].
      * destruct (cmp_leb_total _ Hc (col x) (col y)) as [H|H]; congruence.
      * exact (Hall z Hz).
Qed.

Lemma sort_values_sorted l :
  StronglySorted (le_by cmp col) (sort_values cmp col l).
Proof.
  induction l as [|x t IH]; simpl.
  - constructor.
  - apply insert_sorted_sorted. exact IH.
Qed.

Lemma sorted_sort_values l :
  StronglySorted (le_by cmp col) l -> sort_values cmp col l = l.
Proof.
  induction 1 as [|x t Hs IH Hall]; simpl.
  - reflexivity.
  - rewrite IH. apply insert_sorted_head.
    rewrite Forall_forall in Hall. exact Hall.
Qed.

Lemma sorted_filter (p : R -> bool) l :
  StronglySorted (le_by cmp col) l -> StronglySorted (le_by cmp col) (filter p l).
Proof.
  induction 1 as [|x t Hs IH Hall]; simpl.
  - constructor.
  - destruct (p x); [|exact IH].
    constructor; [exact IH|].
    rewrite Forall_forall in *. intros z Hz.
    apply filter_In in Hz. apply Hall. tauto.
Qed.

Lemma insert_sorted_filter (p : R -> bool) x l :
  StronglySorted (le_by cmp col) l ->
  filter p (insert_sorted cmp col x l) =
  if p x then insert_sorted cmp col x (filter p l) else filter p l.
Proof.
  induction 1 as [|y t Hs IH Hall]; simpl.
  - destruct (p x); reflexivity.
  - destruct (cmp_leb cmp (col x) (col y)) eqn:E; simpl.
    + destruct (p x) eqn:Px; [|reflexivity].
      symmetry. apply insert_sorted_head.
      intros z Hz. destruct (p y) eqn:Py.
      * destruct Hz as [<- | Hz]; [exact E|].
        apply filter_In in Hz. rewrite Forall_forall in Hall.
        exact (cmp_leb_trans _ Hc _ _ _ E (Hall z (proj1 Hz))).
      * apply filter_In in Hz. rewrite Forall_forall in Hall.
        exact (cmp_leb_trans _ Hc _ _ _ E (Hall z (proj1 Hz))).
    + rewrite IH. destruct (p y) eqn:Py; destruct (p x) eqn:Px; simpl;
        try rewrite E; reflexivity.
Qed.

(** Stability: selecting rows commutes with sorting. *)
Lemma sort_values_filter (p : R -> bool) l :
  filter p (sort_values cmp col l) = sort_values cmp col (filter p l).
Proof.
  induction l as [|x t IH]; simpl.
  - reflexivity.
  - rewrite insert_sorted_filter by apply sort_values_sorted.
    rewrite IH. destruct (p x); reflexivity.
Qed.

Lemma sort_values_group k l :
  group_rows cmp col k (sort_values cmp col l) =
  sort_values cmp col (group_rows cmp col k l).
Proof. apply sort_values_filter. Qed.

End SortFacts.

Lemma sort_values_map {A B K : Type} (cmp : K -> K -> comparison)
  (col : B -> K) (f : A -> B) (l : list A) :
  map f (sort_values cmp (fun a => col (f a)) l) = sort_values cmp col (map f l).
Proof.
  induction l as [|x t IH]; simpl.
  - reflexivity.
  - rewrite <- IH. generalize (sort_values cmp (fun a => col (f a)) t).
    intros s. induction s as [|y s IHs]; simpl.
    + reflexivity.
    + destruct (cmp_leb cmp (col (f x)) (col (f y))); simpl.
      * reflexivity.
      * rewrite IHs. reflexivity.
Qed.

Lemma sorted_map {A B K : Type} (cmp : K -> K -> comparison)
  (col : B -> K) (f : A -> B) (l : list A) :
  StronglySorted (le_by cmp (fun a => col (f a))) l <->
  StronglySorted (le_by cmp col) (map f l).
Proof.
  induction l as [|x t IH]; simpl.
  - split; constructor.
  - split; intros H; inversion H as [|? ? Hs Hall]; subst; constructor;
      try (apply IH; assumption); rewrite Forall_forall in *.
    + intros z Hz. apply in_map_iff in Hz. destruct Hz as [a [<- Ha]].
      exact (Hall a Ha).
    + intros z Hz. exact (Hall (f z) (in_map f t z Hz)).
Qed.

(** ** [groupby]: keys and groups *)

Section GroupFacts.

Context {R K : Type} (cmp : K -> K -> comparison) (Hc : OrderCmp cmp).
Variable col : R -> K.

Lemma existsb_cmp_eqb k ks : existsb (cmp_eqb cmp k) ks = true <-> In k ks.
Proof.
  rewrite existsb_exists. split.
  - intros [y [Hy E]]. apply (cmp_eqb_eq _ Hc) in E. subst. exact Hy.
  - intros H. exists k. split; [exact H | apply (cmp_eqb_refl _ Hc)].
Qed.

Lemma distinct_In k ks : In k (distinct cmp ks) <-> In k ks.
Proof.
  induction ks as [|x t IH]; simpl.
  - tauto.
  - destruct (existsb (cmp_eqb cmp x) t) eqn:E.
    + rewrite IH. apply existsb_cmp_eqb in E. split; [tauto|].
      intros [<- | H]; assumption.
    + simpl. rewrite IH. tauto.
Qed.

Lemma distinct_NoDup ks : NoDup (distinct cmp ks).
Proof.
  induction ks as [|x t IH]; simpl.
  - constructor.
  - destruct (existsb (cmp_eqb cmp x) t) eqn:E; [exact IH|].
    constructor; [|exact IH].
    rewrite distinct_In. intros H. apply existsb_cmp_eqb in H. congruence.
Qed.

Lemma group_keys_In k ks : In k (group_keys cmp ks) <-> In k ks.
Proof.
  unfold group_keys. rewrite sort_values_In. apply distinct_In.
Qed.

Lemma group_keys_NoDup ks : NoDup (group_keys cmp ks).
Proof.
  unfold group_keys.
  apply (Permutation_NoDup (l := distinct cmp ks)).
  - apply Permutation_sym, sort_values_perm.
  - apply distinct_NoDup.
Qed.

Lemma group_keys_sorted ks :
  StronglySorted (le_by cmp (fun k => k)) (group_keys cmp ks).
Proof. apply sort_values_sorted. exact Hc. Qed.

Lemma group_rows_In k l x :
  In x (group_rows cmp col k l) <-> In x l /\ col x = k.
Proof.
  unfold group_rows. rewrite filter_In, (cmp_eqb_eq _ Hc).
  split; intros [H1 H2]; split; congruence.
Qed.

Lemma group_rows_cons k x l :
  group_rows cmp col k (x :: l) =
  if cmp_eqb cmp k (col x) then x :: group_rows cmp col k l
  else group_rows cmp col k l.
Proof. reflexivity. Qed.

Lemma group_rows_app k l1 l2 :
  group_rows cmp col k (l1 ++ l2) =
  group_rows cmp col k l1 ++ group_rows cmp col k l2.
Proof. apply filter_app. Qed.

Lemma group_rows_none k l :
  (forall x, In x l -> col x <> k) -> group_rows cmp col k l = [].
Proof.
  induction l as [|x t IH]; intros H; simpl.
  - reflexivity.
  - assert (E : cmp_eqb cmp k (col x) = false).
    { apply (cmp_eqb_neq _ Hc). intros E. apply (H x (or_introl eq_refl)).
      congruence. }
    rewrite E. apply IH. intros y Hy. apply H. right. exact Hy.
Qed.

Lemma group_rows_all k l :
  (forall x, In x l -> col x = k) -> group_rows cmp col k l = l.
Proof.
  induction l as [|x t IH]; intros H; simpl.
  - reflexivity.
  - rewrite (proj2 (cmp_eqb_eq _ Hc k (col x)))
      by (symmetry; apply H; left; reflexivity).
    f_equal. apply IH. intros y Hy. apply H. right. exact Hy.
Qed.

Lemma groupby_In g l :
  In g (groupby cmp col l) <->
  (exists x, In x l /\ col x = fst g) /\ snd g = group_rows cmp col (fst g) l.
Proof.
  unfold groupby. rewrite in_map_iff. split.
  - intros [k [<- Hk]]. simpl. split; [|reflexivity].
    apply group_keys_In, in_map_iff in Hk. destruct Hk as [x [E Hx]].
    exists x. split; assumption.
  - intros [[x [Hx Ex]] E]. exists (fst g). split.
    + destruct g as [k rs]. simpl in *. congruence.
    + apply group_keys_In, in_map_iff. exists x. split; assumption.
Qed.

Lemma groupby_keys l :
  map fst (groupby cmp col l) = group_keys cmp (map col l).
Proof.
  unfold groupby. rewrite map_map. simpl. apply map_id.
Qed.

Lemma count_sum_split (f d f0 : K -> nat) ks :
  (forall k, f k = (d k + f0 k)%nat) ->
  count_sum (map f ks) = (count_sum (map d ks) + count_sum (map f0 ks))%nat.
Proof.
  intros H. induction ks as [|k s IH]; simpl.
  - reflexivity.
  - unfold count_sum in *. simpl. rewrite IH, H. lia.
Qed.

Lemma count_sum_indicator c ks :
  ~ In c ks ->
  count_sum (map (fun k => if cmp_eqb cmp k c then 1%nat else 0%nat) ks) = 0%nat.
Proof.
  induction ks as [|k s IH]; simpl; intros H.
  - reflexivity.
  - unfold count_sum in *. simpl. rewrite IH by tauto.
    destruct (cmp_eqb cmp k c) eqn:E; [|reflexivity].
    apply (cmp_eqb_eq _ Hc) in E. tauto.
Qed.

Lemma count_sum_once (p : K -> bool) c ks :
  NoDup ks -> In c ks ->
  count_sum (map (fun k => if cmp_eqb cmp k c then 1%nat else 0%nat)
               (filter p ks)) =
  if p c then 1%nat else 0%nat.
Proof.
  induction 1 as [|k s Hk Hs IH]; simpl; intros Hin.
  - tauto.
  - destruct Hin as [-> | Hin].
    + destruct (p c) eqn:Pc.
      * unfold count_sum. simpl. rewrite (cmp_eqb_refl _ Hc).
        fold (count_sum (map (fun k => if cmp_eqb cmp k c then 1%nat else 0%nat)
                           (filter p s))).
        rewrite count_sum_indicator; [reflexivity|].
        intros H. apply filter_In in H. tauto.
      * apply count_sum_indicator. intros H. apply filter_In in H. tauto.
    + assert (E : cmp_eqb cmp k c = false).
      { apply (cmp_eqb_neq _ Hc). intros ->. tauto. }
      destruct (p k); [|exact (IH Hin)].
      unfold count_sum. simpl. rewrite E. exact (IH Hin).
Qed.

(** Every row is counted in exactly one group. *)
Lemma group_sizes (p : K -> bool) ks l :
  NoDup ks -> (forall x, In x l -> In (col x) ks) ->
  count_sum (map (fun k => List.length (group_rows cmp col k l)) (filter p ks)) =
  List.length (filter (fun x => p (col x)) l).
Proof.
  intros Hnd. induction l as [|x t IH]; intros Hin.
  - simpl. induction (filter p ks) as [|k s IHs]; simpl; auto.
  - rewrite (count_sum_split _
               (fun k => if cmp_eqb cmp k (col x) then 1%nat else 0%nat)
               (fun k => List.length (group_rows cmp col k t))).
    + rewrite count_sum_once by (try apply Hin; try left; auto).
      rewrite IH by (intros y Hy; apply Hin; right; exact Hy).
      simpl. destruct (p (col x)); reflexivity.
    + intros k. rewrite group_rows_cons.
      destruct (cmp_eqb cmp k (col x)); reflexivity.
Qed.

End GroupFacts.

(** ** A sorted frame is the concatenation of its groups *)

Section SortedGroups.

Context {R K : Type} (cmp : K -> K -> comparison) (Hc : OrderCmp cmp).
Variable col : R -> K.

Lemma sorted_split k l :
  StronglySorted (le_by cmp col) l ->
  (forall x, In x l -> cmp_leb cmp k (col x) = true) ->
  l = group_rows cmp col k l ++
      filter (fun x => negb (cmp_eqb cmp k (col x))) l.
Proof.
  induction 1 as [|x t Hs IH Hall]; intros Hlow; simpl.
  - reflexivity.
  - destruct (cmp_eqb cmp k (col x)) eqn:E; simpl.
    + f_equal. apply IH. intros y Hy. apply Hlow. right. exact Hy.
    + assert (Hne : forall y, In y t -> col y <> k).
      { intros y Hy Ey. rewrite Forall_forall in Hall.
        apply (cmp_eqb_neq _ Hc) in E. apply E.
        apply (cmp_leb_antisym _ Hc).
        - apply Hlow. left. reflexivity.
        - rewrite <- Ey. exact (Hall y Hy). }
      rewrite (group_rows_none _ Hc col k t Hne). simpl. f_equal.
      symmetry. apply forallb_filter_id. apply forallb_forall.
      intros y Hy. apply negb_true_iff. apply (cmp_eqb_neq _ Hc).
      intros Ey. exact (Hne y Hy (eq_sym Ey)).
Qed.

Lemma group_rows_other k k' l :
  k' <> k ->
  group_rows cmp col k' (filter (fun x => negb (cmp_eqb cmp k (col x))) l) =
  group_rows cmp col k' l.
Proof.
  intros Hne. induction l as [|x t IH]; simpl.
  - reflexivity.
  - destruct (cmp_eqb cmp k (col x)) eqn:E; simpl.
    + rewrite IH. apply (cmp_eqb_eq _ Hc) in E. subst k.
      rewrite (proj2 (cmp_eqb_neq _ Hc k' (col x)) Hne). reflexivity.
    + rewrite IH. reflexivity.
Qed.

Lemma flat_map_groups ks l :
  NoDup ks -> StronglySorted (le_by cmp (fun k => k)) ks ->
  StronglySorted (le_by cmp col) l ->
  (forall x, In x l -> In (col x) ks) ->
  flat_map (fun k => group_rows cmp col k l) ks = l.
Proof.
  intros Hnd. revert l. induction Hnd as [|k ks' Hk Hnd' IH]; intros l Hks Hl Hin.
  - destruct l as [|x t]; [reflexivity|].
    destruct (Hin x (or_introl eq_refl)).
  - inversion Hks as [|? ? Hks' Hall]; subst. rewrite Forall_forall in Hall.
    simpl.
    set (rest := filter (fun x => negb (cmp_eqb cmp k (col x))) l).
    assert (Hsplit : l = group_rows cmp col k l ++ rest).
    { apply sorted_split; [exact Hl|]. intros x Hx.
      destruct (Hin x Hx) as [<- | Hx'].
      - apply (cmp_leb_refl _ Hc).
      - exact (Hall _ Hx'). }
    transitivity (group_rows cmp col k l ++ rest);
      [|symmetry; exact Hsplit]. f_equal.
    rewrite <- (IH rest).
    + rewrite !flat_map_concat_map. f_equal. apply map_ext_in.
      intros k' Hk'. unfold rest. symmetry. apply group_rows_other.
      intros ->. tauto.
    + exact Hks'.
    + apply sorted_filter. exact Hl.
    + intros x Hx. unfold rest in Hx. apply filter_In in Hx.
      destruct Hx as [Hx Hne]. destruct (Hin x Hx) as [E | Hx']; [|exact Hx'].
      subst k. rewrite (cmp_eqb_refl _ Hc) in Hne. discriminate.
Qed.

Lemma concat_groupby l :
  StronglySorted (le_by cmp col) l ->
  concat (map snd (groupby cmp col l)) = l.
Proof.
  intros Hl. unfold groupby. rewrite map_map. simpl.
  rewrite <- flat_map_concat_map. apply flat_map_groups.
  - apply group_keys_NoDup. exact Hc.
  - apply group_keys_sorted. exact Hc.
  - exact Hl.
  - intros x Hx. apply group_keys_In; [exact Hc|]. apply in_map. exact Hx.
Qed.

End SortedGroups.

(** ** The classifier, column by column *)

Lemma map2_length {A B C : Type} (f : A -> B -> C) xs ys :
  List.length xs = List.length ys ->
  List.length (map2 f xs ys) = List.length xs.
Proof.
  revert ys. induction xs as [|x xs IH]; intros [|y ys]; simpl; intros H;
    try reflexivity; try discriminate.
  f_equal. apply IH. congruence.
Qed.

Lemma map2_app {A B C : Type} (f : A -> B -> C) xs1 xs2 ys1 ys2 :
  List.length xs1 = List.length ys1 ->
  map2 f (xs1 ++ xs2) (ys1 ++ ys2) = map2 f xs1 ys1 ++ map2 f xs2 ys2.
Proof.
  revert ys1. induction xs1 as [|x xs1 IH]; intros [|y ys1]; simpl; intros H;
    try reflexivity; try discriminate.
  f_equal. apply IH. congruence.
Qed.

Lemma map2_flat_map {A B C I : Type} (f : A -> B -> C)
  (g : I -> list A) (h : I -> list B) ks :
  (forall k, List.length (g k) = List.length (h k)) ->
  map2 f (flat_map g ks) (flat_map h ks) =
  flat_map (fun k => map2 f (g k) (h k)) ks.
Proof.
  intros H. induction ks as [|k ks IH]; simpl.
  - reflexivity.
  - rewrite map2_app by apply H. rewrite IH. reflexivity.
Qed.

Lemma shift1_cons {V : Type} (na x : V) xs :
  shift1 na (x :: xs) = na :: shift1 x xs.
Proof. reflexivity. Qed.

Lemma shift1_length {V : Type} (na : V) xs :
  List.length (shift1 na xs) = List.length xs.
Proof.
  unfold shift1. rewrite length_firstn. simpl. lia.
Qed.

Lemma shift1_shifted {V : Type} (na : V) (val : NRow -> V) g prev :
  shift1 (shifted na val prev) (map val g) =
  map (shifted na val) (shift1 prev (map (fun r => Some r) g)).
Proof.
  revert prev. induction g as [|x g IH]; intros prev.
  - reflexivity.
  - simpl map. rewrite !shift1_cons. simpl. f_equal.
    exact (IH (Some x)).
Qed.

Lemma shift_from_previous {V : Type} (na : V) (val : NRow -> V) seen t :
  shift_from key_cmp key na val seen t =
  map (shifted na val) (previous_rows seen t).
Proof.
  revert seen. induction t as [|r t IH]; intros seen; simpl.
  - reflexivity.
  - rewrite IH. f_equal.
    destruct (find (fun p => cmp_eqb key_cmp (key r) (key p)) seen); reflexivity.
Qed.

Lemma obj_eq_blank a : obj_eq a None = false.
Proof. destruct a; reflexivity. Qed.

(** The column expression of the at-most script, row by row. *)
Lemma at_most_flags_pointwise (P : list (option NRow)) (t : list NRow) :
  map negb
    (map2 andb
       (map2 obj_eq (map AOI t) (map (shifted None AOI) P))
       (map2 orb
          (map2 num_eq (map Start t) (map (shifted NaN Stop) P))
          (map2 andb
             (map2 andb
                (map AtMost.is_target
                   (map2 num_sub (map Start t) (map (shifted NaN Start) P)))
                (map AtMost.is_target (map Duration t)))
             (map AtMost.is_target (map (shifted NaN Duration) P))))) =
  map2 (starts_run contiguous_at_most) P t.
Proof.
  revert P. induction t as [|r t IH]; intros [|o P]; simpl; try reflexivity.
  rewrite IH. f_equal. destruct o as [p|]; simpl.
  - unfold same_aoi_as, contiguous_at_most, starts_at_previous_stop,
      start_step_is_target, both_durations_target, AtMost.is_target.
    rewrite andb_assoc. reflexivity.
  - rewrite obj_eq_blank. reflexivity.
Qed.

(** The column expression of [compute_new_run], row by row. *)
Lemma exact_flags_pointwise (P : list (option NRow)) (t : list NRow) :
  map negb
    (map2 andb
       (map2 obj_eq (map AOI t) (map (shifted None AOI) P))
       (map2 orb
          (map2 num_eq (map Start t) (map (shifted NaN Stop) P))
          (map Exact.is_target
             (map2 num_sub (map Start t) (map (shifted NaN Start) P))))) =
  map2 (starts_run contiguous_exact) P t.
Proof.
  revert P. induction t as [|r t IH]; intros [|o P]; simpl; try reflexivity.
  rewrite IH. f_equal. destruct o as [p|]; simpl.
  - reflexivity.
  - rewrite obj_eq_blank. reflexivity.
Qed.

Lemma at_most_new_run_col t :
  AtMost.new_run_col t =
  map2 (starts_run contiguous_at_most) (previous_rows [] t) t.
Proof.
  unfold AtMost.new_run_col, AtMost.same_aoi, AtMost.contiguous,
    AtMost.contiguous_by_stop, AtMost.contiguous_by_step20, AtMost.prev_aoi,
    AtMost.prev_stop, AtMost.prev_start, AtMost.prev_dur, groupby_shift.
  rewrite !shift_from_previous. apply at_most_flags_pointwise.
Qed.

Lemma compute_new_run_group g :
  Exact.compute_new_run g =
  map2 (starts_run contiguous_exact) (shift1 None (map (fun r => Some r) g)) g.
Proof.
  unfold Exact.compute_new_run.
  change (@None string) with (shifted (@None string) AOI None).
  change NaN with (shifted NaN Stop None) at 1.
  change NaN with (shifted NaN Start None) at 2.
  rewrite !shift1_shifted. apply exact_flags_pointwise.
Qed.

(** ** Predecessors on a frame made of consecutive groups *)

Lemma previous_rows_app seen l1 l2 :
  previous_rows seen (l1 ++ l2) =
  previous_rows seen l1 ++ previous_rows (rev l1 ++ seen) l2.
Proof.
  revert seen. induction l1 as [|x l1 IH]; intros seen; simpl.
  - reflexivity.
  - unfold previous_rows in *. simpl. f_equal. rewrite IH.
    rewrite <- app_assoc. reflexivity.
Qed.

Lemma find_key_none k (seen : list NRow) :
  (forall p, In p seen -> key p <> k) ->
  find (fun p => cmp_eqb key_cmp k (key p)) seen = None.
Proof.
  induction seen as [|p seen IH]; simpl; intros H.
  - reflexivity.
  - rewrite (proj2 (cmp_eqb_neq _ key_cmp_order k (key p))).
    + apply IH. intros q Hq. apply H. right. exact Hq.
    + intros E. apply (H p (or_introl eq_refl)). congruence.
Qed.

Lemma previous_rows_one_group k seen g :
  (forall x, In x g -> key x = k) ->
  previous_rows seen g =
  shift1 (find (fun p => cmp_eqb key_cmp k (key p)) seen)
         (map (fun r => Some r) g).
Proof.
  revert seen. induction g as [|x g IH]; intros seen H.
  - reflexivity.
  - assert (Ex : key x = k) by (apply H; left; reflexivity).
    simpl map. rewrite shift1_cons. unfold previous_rows in *. simpl.
    rewrite Ex. f_equal.
    + destruct (find (fun p => cmp_eqb key_cmp k (key p)) seen); reflexivity.
    + rewrite IH by (intros y Hy; apply H; right; exact Hy).
      simpl. rewrite Ex, (cmp_eqb_refl _ key_cmp_order). reflexivity.
Qed.

Lemma previous_rows_groups (G : GroupKey -> list NRow) ks seen :
  NoDup ks -> (forall k x, In x (G k) -> key x = k) ->
  (forall k p, In k ks -> In p seen -> key p <> k) ->
  previous_rows seen (flat_map G ks) =
  flat_map (fun k => shift1 None (map (fun r => Some r) (G k))) ks.
Proof.
  intros Hnd HG. revert seen. induction Hnd as [|k ks Hk Hnd IH];
    intros seen Hseen; simpl.
  - reflexivity.
  - rewrite previous_rows_app. f_equal.
    + rewrite (previous_rows_one_group k) by apply HG.
      rewrite find_key_none; [reflexivity|].
      intros p Hp. apply Hseen; [left; reflexivity | exact Hp].
    + apply IH. intros k' p Hk' Hp. apply in_app_or in Hp.
      destruct Hp as [Hp | Hp].
      * apply in_rev in Hp. rewrite (HG k p Hp). intros ->. tauto.
      * apply Hseen; [right; exact Hk' | exact Hp].
Qed.

Lemma exact_flags_groups (G : GroupKey -> list NRow) ks t :
  NoDup ks -> (forall k x, In x (G k) -> key x = k) ->
  flat_map G ks = t ->
  flat_map (fun k => Exact.compute_new_run (G k)) ks =
  map2 (starts_run contiguous_exact) (previous_rows [] t) t.
Proof.
  intros Hnd HG <-.
  rewrite (previous_rows_groups G ks [] Hnd HG) by (intros k p _ []).
  rewrite map2_flat_map.
  - rewrite !flat_map_concat_map. f_equal. apply map_ext.
    intros k. apply compute_new_run_group.
  - intros k. rewrite shift1_length, length_map. reflexivity.
Qed.

Lemma sorted_weaken {R : Type} (P Q : R -> R -> Prop) l :
  (forall x y, P x y -> Q x y) -> StronglySorted P l -> StronglySorted Q l.
Proof.
  intros H. induction 1 as [|x t Hs IH Hall]; constructor.
  - exact IH.
  - rewrite Forall_forall in *. intros y Hy. apply H, Hall, Hy.
Qed.

Lemma sort_key_le_key x y :
  le_by sortkey_cmp sort_key x y -> le_by key_cmp key x y.
Proof.
  unfold le_by, cmp_leb, sortkey_cmp, pair_cmp, sort_key, lex. simpl.
  destruct (key_cmp (key x) (key y)); congruence.
Qed.

Lemma exact_new_run_flags t :
  StronglySorted (le_by sortkey_cmp sort_key) t ->
  Exact.new_run_flags t =
  map2 (starts_run contiguous_exact) (previous_rows [] t) t.
Proof.
  intros Hs.
  assert (Hk : StronglySorted (le_by key_cmp key) t).
  { revert Hs. apply sorted_weaken. exact sort_key_le_key. }
  pose proof (concat_groupby key_cmp key_cmp_order key t Hk) as Ht.
  set (ks := group_keys key_cmp (map key t)).
  set (G := fun k => group_rows key_cmp key k t).
  assert (Hflat : flat_map G ks = t).
  { transitivity (concat (map snd (groupby key_cmp key t))); [|exact Ht].
    unfold groupby. rewrite map_map. rewrite flat_map_concat_map.
    reflexivity. }
  transitivity (flat_map (fun k => Exact.compute_new_run (G k)) ks).
  - unfold Exact.new_run_flags, Exact.apply_results, groupby.
    rewrite map_map.
    rewrite flat_map_concat_map. reflexivity.
  - assert (HG : forall k x, In x (G k) -> key x = k).
    { intros k x Hx. apply (group_rows_In _ key_cmp_order) in Hx. tauto. }
    exact (exact_flags_groups G ks t
             (group_keys_NoDup _ key_cmp_order _) HG Hflat).
Qed.

(** ** From the columns to the per-group scan *)

Lemma scan_resume_some contig p n g :
  scan_resume contig (Some p) n g = scan_from contig p n g.
Proof. destruct g; reflexivity. Qed.

Lemma scan_resume_none contig g :
  scan_resume contig None 0 g = scan_group contig g.
Proof. destruct g; reflexivity. Qed.

Lemma classify_from_group contig k t :
  forall seen seenf,
  classified_group k
    (assign t (map2 (starts_run contig) (previous_rows seen t) t)
       (cumsum_from key_cmp seenf
          (combine (map key t)
             (map2 (starts_run contig) (previous_rows seen t) t)))) =
  scan_resume contig
    (find (fun p => cmp_eqb key_cmp k (key p)) seen)
    (List.length (filter (fun p => cmp_eqb key_cmp k (fst p) && snd p) seenf))
    (group_rows key_cmp key k t).
Proof.
  induction t as [|r t IH]; intros seen seenf.
  - reflexivity.
  - unfold previous_rows in *. simpl shift_from.
    set (o := match find (fun p => cmp_eqb key_cmp (key r) (key p)) seen with
              | Some p => Some p
              | None => None
              end).
    simpl map2. simpl map. simpl combine. simpl cumsum_from. simpl assign.
    unfold classified_group in *. rewrite !group_rows_cons. simpl row.
    rewrite IH. clear IH. simpl find. simpl filter.
    rewrite (cmp_eqb_refl _ key_cmp_order (key r)).
    assert (Eo : o = find (fun p => cmp_eqb key_cmp (key r) (key p)) seen).
    { unfold o.
      destruct (find (fun p => cmp_eqb key_cmp (key r) (key p)) seen);
        reflexivity. }
    destruct (cmp_eqb key_cmp k (key r)) eqn:E.
    + apply (cmp_eqb_eq _ key_cmp_order) in E. subst k.
      rewrite <- Eo. rewrite scan_resume_some. simpl.
      destruct (starts_run contig o r); reflexivity.
    + simpl. reflexivity.
Qed.

Lemma classify_group contig k t :
  classified_group k
    (assign t (map2 (starts_run contig) (previous_rows [] t) t)
       (groupby_cumsum key_cmp (map key t)
          (map2 (starts_run contig) (previous_rows [] t) t))) =
  scan_group contig (group_rows key_cmp key k t).
Proof.
  unfold groupby_cumsum. rewrite classify_from_group. simpl.
  apply scan_resume_none.
Qed.

Lemma at_most_classify_group k t :
  classified_group k (AtMost.classify t) =
  scan_group contiguous_at_most (group_rows key_cmp key k t).
Proof.
  unfold AtMost.classify, AtMost.run_id_col. rewrite at_most_new_run_col.
  apply classify_group.
Qed.

Lemma exact_classify_group k t :
  StronglySorted (le_by sortkey_cmp sort_key) t ->
  classified_group k (Exact.assign_columns t (Exact.new_run_flags t)) =
  scan_group contiguous_exact (group_rows key_cmp key k t).
Proof.
  intros Hs. unfold Exact.assign_columns.
  rewrite exact_new_run_flags by exact Hs. apply classify_group.
Qed.

(** ** The stream partitioner *)

Lemma combine_seq_In {R : Type} (l : list R) s i r :
  In (i, r) (combine (seq s (List.length l)) l) <->
  (s <= i)%nat /\ nth_error l (i - s) = Some r.
Proof.
  revert s. induction l as [|x l IH]; intros s; simpl.
  - split; [tauto|]. intros [_ H]. destruct (i - s)%nat; discriminate.
  - rewrite IH. split.
    + intros [H | [Hle H]].
      * inversion H. subst. rewrite Nat.sub_diag. simpl. auto.
      * split; [lia|]. replace (i - s)%nat with (S (i - S s)) by lia.
        exact H.
    + intros [Hle H]. destruct (i - s)%nat as [|n] eqn:E.
      * left. simpl in H. inversion H. f_equal. lia.
      * right. split; [lia|]. replace (i - S s)%nat with n by lia. exact H.
Qed.

Lemma with_index_In {R : Type} (l : list R) i r :
  In (i, r) (with_index l) <-> nth_error l i = Some r.
Proof.
  unfold with_index. rewrite combine_seq_In, Nat.sub_0_r.
  split; [tauto|]. intros H. split; [lia | exact H].
Qed.

Lemma select_In {R : Type} (mask : R -> bool) (l : list (Labelled R)) ir :
  In ir (select mask l) <-> In ir l /\ mask (snd ir) = true.
Proof. unfold select. apply filter_In. Qed.

(** In exact mode the two masks are complementary on every cell. *)
Lemma exact_masks_complementary r :
  Exact.ne_target r = negb (Exact.eq_target r).
Proof. reflexivity. Qed.

Lemma exact_partition df ir :
  In ir (with_index (normalize df)) ->
  (In ir (Exact.df20_split df) /\ ~ In ir (Exact.df_non20 df)) \/
  (~ In ir (Exact.df20_split df) /\ In ir (Exact.df_non20 df)).
Proof.
  intros H. unfold Exact.df20_split, Exact.df_non20.
  rewrite !select_In, exact_masks_complementary.
  destruct (Exact.eq_target (snd ir)); simpl; [left | right];
    intuition congruence.
Qed.

Lemma exact_nan_passes_through df ir :
  In ir (with_index (normalize df)) -> Duration (snd ir) = NaN ->
  In ir (Exact.df_non20 df).
Proof.
  intros H E. apply select_In. split; [exact H|].
  unfold Exact.ne_target, num_ne. rewrite E. reflexivity.
Qed.

Lemma at_most_masks_exclusive r :
  AtMost.le_target r = true -> AtMost.gt_target r = true -> False.
Proof.
  unfold AtMost.le_target, AtMost.gt_target.
  destruct (Duration r) as [|z]; simpl; try discriminate.
  rewrite Z.leb_le, Z.ltb_lt. lia.
Qed.

Lemma at_most_partition_numbers df ir z :
  In ir (with_index (normalize df)) -> Duration (snd ir) = Num z ->
  (In ir (AtMost.le20_split df) /\ ~ In ir (AtMost.gt20_rows df)) \/
  (~ In ir (AtMost.le20_split df) /\ In ir (AtMost.gt20_rows df)).
Proof.
  intros H E. unfold AtMost.le20_split, AtMost.gt20_rows.
  rewrite !select_In. unfold AtMost.le_target, AtMost.gt_target.
  rewrite E. simpl. destruct (Z.leb_spec z DURATION_TARGET) as [Hle | Hgt].
  - left. split; [tauto|]. intros [_ Hc]. apply Z.ltb_lt in Hc. lia.
  - right. split; [intros [_ Hc]; discriminate|].
    split; [exact H | apply Z.ltb_lt; exact Hgt].
Qed.

Lemma at_most_nan_in_neither df ir :
  Duration (snd ir) = NaN ->
  ~ In ir (AtMost.le20_split df) /\ ~ In ir (AtMost.gt20_rows df).
Proof.
  intros E. unfold AtMost.le20_split, AtMost.gt20_rows.
  rewrite !select_In. unfold AtMost.le_target, AtMost.gt_target.
  rewrite E. simpl. split; intros [_ Hc]; discriminate.
Qed.

(** C1 (the code departs from the claim).  The partition is total in
    exact mode, but in at-most mode a row whose [Duration] is not a number
    is in neither stream: on [sheet_malformed] the malformed row, label 1
    of the input, passes through in exact mode and is missing from both
    outputs of the at-most split. *)
Theorem C1_at_most_split_loses_malformed_duration :
  In (1%nat, normalize_row malformed_row)
     (with_index (normalize sheet_malformed)) /\
  Duration (normalize_row malformed_row) = NaN /\
  In (1%nat, normalize_row malformed_row)
     (pass_through ExactMode sheet_malformed) /\
  ~ In (1%nat, normalize_row malformed_row)
       (mergeable_split AtMostMode sheet_malformed) /\
  ~ In (1%nat, normalize_row malformed_row)
       (pass_through AtMostMode sheet_malformed).
Proof.
  assert (Hin : In (1%nat, normalize_row malformed_row)
                   (with_index (normalize sheet_malformed))).
  { apply with_index_In. reflexivity. }
  split; [exact Hin|]. split; [reflexivity|]. split.
  - apply exact_nan_passes_through; [exact Hin | reflexivity].
  - apply at_most_nan_in_neither. reflexivity.
Qed.

(** ** What the exact merge returns *)

Lemma exact_new_run_col_returned t flags :
  Exact.new_run_col t = Returned flags -> flags = Exact.new_run_flags t.
Proof.
  unfold Exact.new_run_col, Exact.new_run_flags.
  destruct (Exact.apply_results t) as [|f [|f' rs]].
  - discriminate.
  - destruct (List.length f =? 1)%nat; [|discriminate].
    intros H. inversion H. simpl. rewrite app_nil_r. reflexivity.
  - intros H. inversion H. reflexivity.
Qed.

Lemma exact_merge_returned df runs cl raw :
  Exact.merge_consecutive_aoi df = Returned (runs, cl, raw) ->
  has_EventIndex df = true /\
  Exact.new_run_col (Exact.df20_sorted df) =
    Returned (Exact.new_run_flags (Exact.df20_sorted df)) /\
  cl = classified_stream ExactMode df /\
  raw = Exact.df_non20 df /\
  runs = mkFrame true (aggregate true cl).
Proof.
  unfold Exact.merge_consecutive_aoi, Exact.merged_runs, Exact.df20,
    Exact.classify.
  destruct (Exact.new_run_col (Exact.df20_sorted df)) as [flags|e] eqn:E;
    [|discriminate].
  destruct (has_EventIndex df); [|discriminate].
  intros H. inversion H. subst.
  rewrite (exact_new_run_col_returned _ _ E). auto.
Qed.

Lemma exact_merge_value df :
  has_EventIndex df = true ->
  Exact.new_run_col (Exact.df20_sorted df) =
    Returned (Exact.new_run_flags (Exact.df20_sorted df)) ->
  Exact.merge_consecutive_aoi df =
  Returned (mkFrame true (aggregate true (classified_stream ExactMode df)),
            classified_stream ExactMode df, Exact.df_non20 df).
Proof.
  intros Hei E.
  unfold Exact.merge_consecutive_aoi, Exact.merged_runs, Exact.df20,
    Exact.classify.
  rewrite E, Hei. reflexivity.
Qed.

(** ** The timeline composer *)

Lemma combine_timeline_In src_runs src_raw runs raw t :
  In t (combine_timeline src_runs src_raw runs raw) <->
  (exists r, In r runs /\ t = merged_out src_runs r) \/
  (exists ir, In ir raw /\ t = raw_out src_raw ir).
Proof.
  unfold combine_timeline. rewrite sort_values_In, in_app_iff, !in_map_iff.
  split; intros [[x [H1 H2]] | [x [H1 H2]]]; [left | right | left | right];
    exists x; split; auto.
Qed.

Lemma process_one_file_timeline m df wb :
  process_one_file m df = Returned wb ->
  exists src_runs,
    src_runs <> raw_source m /\
    Timeline_Combined wb =
    combine_timeline src_runs (raw_source m) (rows (MergedRuns wb))
      (pass_through m df).
Proof.
  destruct m; simpl.
  - unfold Exact.process_one_file.
    destruct (Exact.merge_consecutive_aoi df) as [[[runs cl] raw]|e] eqn:E;
      [|discriminate].
    destruct (exact_merge_returned _ _ _ _ E) as [_ [_ [_ [-> _]]]].
    intros H. inversion H. subst. simpl.
    exists "Merged20msRun"%string. split; [discriminate | reflexivity].
  - intros H. inversion H. subst. simpl.
    exists "Merged<=20msRun"%string. split; [discriminate | reflexivity].
Qed.

Lemma pass_through_In m df ir :
  In ir (pass_through m df) <->
  nth_error (normalize df) (fst ir) = Some (snd ir) /\
  kept_raw m (snd ir) = true.
Proof.
  destruct ir as [i r].
  destruct m; simpl; unfold Exact.df_non20, AtMost.gt20_rows;
    rewrite select_In, with_index_In; reflexivity.
Qed.

(** C9 (as amended).  A row of the combined timeline carries the raw tag
    exactly when it is a pass-through row, and then its [OriginalRowIndex]
    is the index label the row has in the input table, that is, its
    position among all input rows. *)
Theorem C9_raw_rows_carry_input_table_index m df wb t :
  process_one_file m df = Returned wb ->
  (In t (Timeline_Combined wb) /\ Source t = raw_source m) <->
  (exists i r,
      nth_error (normalize df) i = Some r /\ kept_raw m r = true /\
      t = mkTimeline r None None (raw_source m) (Some i)).
Proof.
  intros Hwb. destruct (process_one_file_timeline m df wb Hwb)
    as [src [Hsrc ->]].
  rewrite combine_timeline_In. split.
  - intros [[[r [_ ->]] | [[i r] [Hin ->]]] Hs].
    + simpl in Hs. congruence.
    + apply pass_through_In in Hin. simpl in Hin.
      exists i, r. unfold raw_out. simpl. tauto.
  - intros [i [r [Hn [Hk ->]]]]. split; [|reflexivity].
    right. exists (i, r). split; [|reflexivity].
    apply pass_through_In. simpl. tauto.
Qed.

Lemma C9_raw_rows_carry_input_table_index_witness :
  In (mkTimeline (normalize_row (interval k0 20 80 60 "Puck" 2)) None None
        (raw_source AtMostMode) (Some 1%nat))
     (Timeline_Combined (AtMost.process_one_file sheet_mixed)).
Proof.
  apply (proj2 (C9_raw_rows_carry_input_table_index AtMostMode sheet_mixed
                  (AtMost.process_one_file sheet_mixed) _ eq_refl)).
  exists 1%nat, (normalize_row (interval k0 20 80 60 "Puck" 2)).
  split; [reflexivity|]. split; reflexivity.
Defined.

(** C9 (as stated) fails on [sheet_mixed]: its only pass-through row is at
    position 0 of the pass-through set and carries [OriginalRowIndex = 1]. *)
Lemma C9_index_is_not_position_in_pass_through :
  ~ (forall t,
       In t (Timeline_Combined (AtMost.process_one_file sheet_mixed)) ->
       Source t = raw_source AtMostMode ->
       exists pos,
         OriginalRowIndex t = Some pos /\
         nth_error (reset_index (pass_through AtMostMode sheet_mixed)) pos =
         Some (tl_cells t)).
Proof.
  intros H.
  destruct (H (mkTimeline (normalize_row (interval k0 20 80 60 "Puck" 2))
                 None None (raw_source AtMostMode) (Some 1%nat)))
    as [pos [Hpos Hnth]].
  - vm_compute. right. left. reflexivity.
  - reflexivity.
  - simpl in Hpos. inversion Hpos. subst pos. vm_compute in Hnth.
    discriminate.
Qed.

(** ** The mergeable stream and what [merge] returns *)

Lemma sorted_stream_sort m df :
  sorted_stream m df =
  sort_values sortkey_cmp sort_key (reset_index (mergeable_split m df)).
Proof.
  destruct m; simpl; unfold Exact.df20_sorted, AtMost.le20_sorted, reset_index;
    apply (sort_values_map sortkey_cmp sort_key snd).
Qed.

Lemma sorted_stream_sorted m df :
  StronglySorted (le_by sortkey_cmp sort_key) (sorted_stream m df).
Proof.
  rewrite sorted_stream_sort. apply sort_values_sorted.
  exact sortkey_cmp_order.
Qed.

Lemma mergeable_split_In m df ir :
  In ir (mergeable_split m df) <->
  nth_error (normalize df) (fst ir) = Some (snd ir) /\
  mergeable m (snd ir) = true.
Proof.
  destruct ir as [i r].
  destruct m; simpl; unfold Exact.df20_split, AtMost.le20_split;
    rewrite select_In, with_index_In; reflexivity.
Qed.

Lemma sorted_stream_In m df r :
  In r (sorted_stream m df) <->
  In r (normalize df) /\ mergeable m r = true.
Proof.
  rewrite sorted_stream_sort, sort_values_In. unfold reset_index.
  rewrite in_map_iff. split.
  - intros [[i r'] [E Hin]]. simpl in E. subst r'.
    apply mergeable_split_In in Hin. simpl in Hin.
    split; [|tauto]. apply nth_error_In with i. tauto.
  - intros [Hin Hm]. apply In_nth_error in Hin. destruct Hin as [i Hi].
    exists (i, r). split; [reflexivity|].
    apply mergeable_split_In. simpl. tauto.
Qed.

Lemma mergeable_duration m r :
  mergeable m r = true -> exists z, Duration r = Num z /\ z <= DURATION_TARGET.
Proof.
  destruct m; simpl; unfold Exact.eq_target, AtMost.le_target;
    destruct (Duration r) as [|z]; simpl; try discriminate; intros H;
    exists z; split; try reflexivity.
  - apply Z.eqb_eq in H. lia.
  - apply Z.leb_le in H. exact H.
Qed.

Lemma exact_duration r :
  mergeable ExactMode r = true -> Duration r = Num DURATION_TARGET.
Proof.
  simpl. unfold Exact.eq_target. destruct (Duration r) as [|z]; simpl;
    [discriminate|]. intros H. apply Z.eqb_eq in H. congruence.
Qed.

Lemma merge_returned m df runs cl raw :
  merge m df = Returned (runs, cl, raw) ->
  cl = classified_stream m df /\ raw = pass_through m df /\
  runs = mkFrame (has_EventIndex df)
                 (aggregate (has_EventIndex df) (classified_stream m df)).
Proof.
  destruct m.
  - intros H. apply exact_merge_returned in H.
    destruct H as [Hei [_ [-> [-> ->]]]]. rewrite Hei. auto.
  - simpl. unfold AtMost.merge_consecutive_aoi_duration_le20, AtMost.merged_runs.
    intros H. inversion H. auto.
Qed.

Lemma classified_stream_group m df k :
  classified_group k (classified_stream m df) =
  scan_group (contiguity m) (group_rows key_cmp key k (sorted_stream m df)).
Proof.
  destruct m; simpl.
  - apply exact_classify_group. exact (sorted_stream_sorted ExactMode df).
  - apply at_most_classify_group.
Qed.

(** ** The per-group scan *)

Lemma scan_from_rows contig prev n g :
  map row (scan_from contig prev n g) = g.
Proof.
  revert prev n. induction g as [|r g IH]; intros prev n; simpl.
  - reflexivity.
  - rewrite IH. reflexivity.
Qed.

Lemma scan_group_rows contig g : map row (scan_group contig g) = g.
Proof. destruct g as [|r g]; simpl; [|rewrite scan_from_rows]; reflexivity. Qed.

Lemma scan_from_adjacent contig g :
  forall prev n i p c,
  nth_error (scan_from contig prev n g) i = Some p ->
  nth_error (scan_from contig prev n g) (S i) = Some c ->
  new_run c = starts_run contig (Some (row p)) (row c) /\
  run_id c = count_flag (new_run c) (run_id p).
Proof.
  induction g as [|r g IH]; intros prev n i p c Hp Hc.
  - destruct i; discriminate.
  - destruct i as [|i]; simpl in Hp, Hc.
    + inversion Hp. subst p. clear Hp. simpl.
      destruct g as [|r' g]; simpl in Hc; [discriminate|].
      inversion Hc. subst c. simpl. auto.
    + exact (IH _ _ _ _ _ Hp Hc).
Qed.

Lemma scan_group_adjacent contig g i p c :
  nth_error (scan_group contig g) i = Some p ->
  nth_error (scan_group contig g) (S i) = Some c ->
  new_run c = starts_run contig (Some (row p)) (row c) /\
  run_id c = count_flag (new_run c) (run_id p).
Proof.
  destruct g as [|r g]; intros Hp Hc.
  - destruct i; discriminate.
  - destruct i as [|i]; simpl in Hp, Hc.
    + inversion Hp. subst p. clear Hp. simpl.
      destruct g as [|r' g]; simpl in Hc; [discriminate|].
      inversion Hc. subst c. simpl. auto.
    + exact (scan_from_adjacent _ _ _ _ _ _ _ Hp Hc).
Qed.

Lemma scan_from_running_count contig g :
  forall prev n i c,
  nth_error (scan_from contig prev n g) i = Some c ->
  run_id c =
  (n + flags_set (map new_run (firstn (S i) (scan_from contig prev n g))))%nat.
Proof.
  induction g as [|r g IH]; intros prev n i c Hc.
  - destruct i; discriminate.
  - pose (f := starts_run contig (Some prev) r).
    change (scan_from contig prev n (r :: g))
      with (mkClassified r f (count_flag f n) 1
            :: scan_from contig r (count_flag f n) g) in *.
    clearbody f. destruct i as [|i]; simpl in Hc.
    + inversion Hc. subst c. clear Hc. unfold flags_set. simpl.
      destruct f; simpl; lia.
    + rewrite (IH _ _ _ _ Hc). rewrite (firstn_cons (S i)).
      unfold flags_set. simpl map. simpl filter.
      destruct f; simpl; lia.
Qed.

Lemma scan_group_running_count contig g i c :
  nth_error (scan_group contig g) i = Some c ->
  run_id c = flags_set (map new_run (firstn (S i) (scan_group contig g))).
Proof.
  destruct g as [|r g]; intros Hc.
  - destruct i; discriminate.
  - destruct i as [|i]; simpl in Hc.
    + inversion Hc. reflexivity.
    + rewrite (scan_from_running_count _ _ _ _ _ _ Hc). reflexivity.
Qed.

(** C2.  In either mode the rows of a group of the sorted mergeable stream
    are classified as by a sequential scan of the group: the first row
    starts run 1, a later row starts a new run iff NOT (same AOI as the
    preceding row AND contiguous with it), and the run number of a row is
    the number of new-run flags from the start of the group down to it. *)
Theorem C2_group_is_classified_by_sequential_scan m df runs cl raw k :
  merge m df = Returned (runs, cl, raw) ->
  classified_group k cl =
    scan_group (contiguity m) (group_rows key_cmp key k (sorted_stream m df)) /\
  (forall i c,
      nth_error (classified_group k cl) i = Some c ->
      run_id c = flags_set (map new_run (firstn (S i) (classified_group k cl)))) /\
  (forall c, nth_error (classified_group k cl) 0 = Some c ->
             new_run c = true /\ run_id c = 1%nat) /\
  (forall i p c,
      nth_error (classified_group k cl) i = Some p ->
      nth_error (classified_group k cl) (S i) = Some c ->
      new_run c =
        negb (same_aoi_as (row p) (row c) && contiguity m (row p) (row c)) /\
      run_id c = if new_run c then S (run_id p) else run_id p).
Proof.
  intros H. apply merge_returned in H. destruct H as [-> _].
  rewrite classified_stream_group. split; [reflexivity|].
  split; [|split].
  - intros i c. apply scan_group_running_count.
  - intros c. destruct (group_rows key_cmp key k (sorted_stream m df));
      simpl; intros Hc; inversion Hc. auto.
  - intros i p c Hp Hc.
    exact (scan_group_adjacent _ _ _ _ _ Hp Hc).
Qed.

Lemma C2_group_is_classified_by_sequential_scan_witness :
  classified_group k0 (AtMost.le20_rows sheet_boundary) =
  scan_group contiguous_at_most
    (group_rows key_cmp key k0 (AtMost.le20_sorted sheet_boundary)).
Proof.
  exact (proj1 (C2_group_is_classified_by_sequential_scan AtMostMode
                  sheet_boundary _ _ _ k0 eq_refl)).
Defined.

(** ** The continuity rule *)

Lemma classified_group_row_In m df k c :
  In c (classified_group k (classified_stream m df)) ->
  In (row c) (sorted_stream m df).
Proof.
  rewrite classified_stream_group. intros H.
  apply (in_map row) in H. rewrite scan_group_rows in H.
  apply (group_rows_In _ key_cmp_order) in H. tauto.
Qed.

Lemma exact_both_durations_target df k p c :
  In p (classified_group k (classified_stream ExactMode df)) ->
  In c (classified_group k (classified_stream ExactMode df)) ->
  both_durations_target (row p) (row c) = true.
Proof.
  intros Hp Hc.
  apply classified_group_row_In, sorted_stream_In in Hp.
  apply classified_group_row_In, sorted_stream_In in Hc.
  unfold both_durations_target.
  rewrite (exact_duration _ (proj2 Hp)), (exact_duration _ (proj2 Hc)).
  reflexivity.
Qed.

(** C3 (as amended).  In either mode a mergeable row continues the run of
    the preceding row of its group iff its AOI equals that row's AOI and
    either its Start equals that row's Stop or the fallback holds: its
    Start is T after that row's Start and both rows have Duration T.  The
    fallback is thus enabled in at-most mode, between two rows of duration
    exactly T; in exact mode both durations are T for every pair. *)
Theorem C3_fallback_needs_both_durations_target m df runs cl raw k i p c :
  merge m df = Returned (runs, cl, raw) ->
  nth_error (classified_group k cl) i = Some p ->
  nth_error (classified_group k cl) (S i) = Some c ->
  new_run c =
    negb (same_aoi_as (row p) (row c) &&
          (starts_at_previous_stop (row p) (row c) ||
           (start_step_is_target (row p) (row c) &&
            both_durations_target (row p) (row c)))) /\
  (m = ExactMode -> both_durations_target (row p) (row c) = true).
Proof.
  intros H Hp Hc. apply merge_returned in H. destruct H as [-> _].
  assert (Hex : m = ExactMode -> both_durations_target (row p) (row c) = true).
  { intros ->. apply (exact_both_durations_target df k).
    - exact (nth_error_In _ _ Hp).
    - exact (nth_error_In _ _ Hc). }
  split; [|exact Hex].
  rewrite classified_stream_group in Hp, Hc.
  destruct (scan_group_adjacent _ _ _ _ _ Hp Hc) as [-> _].
  destruct m; simpl.
  - unfold contiguous_exact. rewrite (Hex eq_refl), andb_true_r. reflexivity.
  - reflexivity.
Qed.

Lemma C3_fallback_needs_both_durations_target_witness :
  nth_error (classified_group k0 (classified_stream AtMostMode sheet_step)) 1 =
    Some step_second /\
  starts_at_previous_stop (row step_first) (row step_second) = false /\
  new_run step_second =
    negb (same_aoi_as (row step_first) (row step_second) &&
          (starts_at_previous_stop (row step_first) (row step_second) ||
           (start_step_is_target (row step_first) (row step_second) &&
            both_durations_target (row step_first) (row step_second)))).
Proof.
  split; [reflexivity|]. split; [reflexivity|].
  exact (proj1 (C3_fallback_needs_both_durations_target AtMostMode sheet_step
                  _ _ _ k0 0 step_first step_second
                  eq_refl eq_refl eq_refl)).
Defined.

(** C3 (as stated) fails on [sheet_step]: in at-most mode the second row
    continues the run of the first although its Start, 20, is not the
    Stop, 19, of the first. *)
Lemma C3_at_most_mode_uses_the_fallback :
  ~ (forall k i p c,
       nth_error (classified_group k (classified_stream AtMostMode sheet_step)) i
         = Some p ->
       nth_error (classified_group k (classified_stream AtMostMode sheet_step))
         (S i) = Some c ->
       new_run c = false ->
       same_aoi_as (row p) (row c) && starts_at_previous_stop (row p) (row c)
         = true).
Proof.
  intros H.
  specialize (H k0 0%nat step_first step_second eq_refl eq_refl eq_refl).
  vm_compute in H. discriminate.
Qed.

(** ** A missing [EventIndex] column *)

Lemma at_most_merge_always_returns df :
  has_EventIndex (AtMost.merged_runs df) = has_EventIndex df /\
  (has_EventIndex df = false ->
   forall r, In r (rows (AtMost.merged_runs df)) -> EventIndex (cells r) = None).
Proof.
  split; [reflexivity|]. intros E r. simpl. unfold aggregate.
  rewrite sort_values_In, in_map_iff. intros [g [<- _]]. rewrite E.
  reflexivity.
Qed.

Lemma exact_merge_needs_event_index df :
  has_EventIndex df = false ->
  exists e, Exact.merge_consecutive_aoi df = Raised e.
Proof.
  intros E. unfold Exact.merge_consecutive_aoi, Exact.merged_runs.
  rewrite E. destruct (Exact.df20 df); eexists; reflexivity.
Qed.

(** C8 (the code departs from the claim in the exact variant).  On a
    sheet without the [EventIndex] column the at-most merge returns its
    three runs with no [EventIndex], whereas the exact merge raises
    [KeyError]. *)
Theorem C8_exact_merge_raises_without_event_index :
  has_EventIndex sheet_no_event_index = false /\
  (exists runs cl raw,
      merge AtMostMode sheet_no_event_index = Returned (runs, cl, raw) /\
      has_EventIndex runs = false /\
      map Run_SegmentsMerged (rows runs) = [2%nat; 1%nat; 1%nat] /\
      map (fun r => EventIndex (cells r)) (rows runs) = [None; None; None]) /\
  merge ExactMode sheet_no_event_index =
    Raised "KeyError: Column(s) ['EventIndex'] do not exist".
Proof.
  split; [reflexivity|]. split; [|reflexivity].
  eexists _, _, _. split; [reflexivity|]. repeat split; reflexivity.
Qed.

(** ** Conservation of the merged segments *)

Lemma assign_segments t flags ids c :
  In c (assign t flags ids) -> SegmentsMerged c = 1%nat.
Proof.
  revert flags ids. induction t as [|r t IH]; intros [|b flags] [|n ids];
    simpl; try tauto.
  intros [<- | H]; [reflexivity | exact (IH _ _ H)].
Qed.

Lemma assign_rows t flags ids :
  List.length flags = List.length t -> List.length ids = List.length t ->
  map row (assign t flags ids) = t.
Proof.
  revert flags ids. induction t as [|r t IH]; intros [|b flags] [|n ids];
    simpl; intros H1 H2; try discriminate; try reflexivity.
  rewrite IH by congruence. reflexivity.
Qed.

Lemma classified_stream_segments m df c :
  In c (classified_stream m df) -> SegmentsMerged c = 1%nat.
Proof. destruct m; simpl; apply assign_segments. Qed.

Lemma count_sum_ones (cs : list Classified) :
  (forall c, In c cs -> SegmentsMerged c = 1%nat) ->
  count_sum (map SegmentsMerged cs) = List.length cs.
Proof.
  induction cs as [|c cs IH]; intros H.
  - reflexivity.
  - unfold count_sum in *. simpl. rewrite (H c (or_introl eq_refl)).
    rewrite IH; [reflexivity|]. intros x Hx. apply H. right. exact Hx.
Qed.

Lemma count_sum_perm xs ys :
  Permutation xs ys -> count_sum xs = count_sum ys.
Proof.
  unfold count_sum. induction 1; simpl; lia.
Qed.

Lemma filter_map_commute {A B : Type} (f : A -> B) (p : B -> bool) l :
  filter p (map f l) = map f (filter (fun x => p (f x)) l).
Proof.
  induction l as [|x l IH]; simpl.
  - reflexivity.
  - destruct (p (f x)); simpl; rewrite IH; reflexivity.
Qed.

(** The runs of group [k], before the final sort. *)
Lemma runs_of_group_aggregate ei k cl :
  Permutation
    (runs_of_group k (aggregate ei cl))
    (map (fun kn => agg_run ei (kn, group_rows runkey_cmp run_key kn cl))
       (filter (fun kn => key_eqb k (fst kn))
          (group_keys runkey_cmp (map run_key cl)))).
Proof.
  unfold runs_of_group, aggregate, group_rows.
  rewrite (sort_values_filter _ sortkey_cmp_order).
  eapply perm_trans; [apply sort_values_perm|].
  unfold groupby. rewrite map_map, filter_map_commute.
  apply Permutation_refl.
Qed.

Lemma segments_conserved ei k cl :
  (forall c, In c cl -> SegmentsMerged c = 1%nat) ->
  count_sum (map Run_SegmentsMerged (runs_of_group k (aggregate ei cl))) =
  List.length (classified_group k cl).
Proof.
  intros Hone.
  rewrite (count_sum_perm _ _
             (Permutation_map Run_SegmentsMerged
                (runs_of_group_aggregate ei k cl))).
  rewrite map_map. simpl.
  rewrite (map_ext_in _
             (fun kn => List.length (group_rows runkey_cmp run_key kn cl))).
  - rewrite (group_sizes _ runkey_cmp_order run_key
               (fun kn => key_eqb k (fst kn))).
    + reflexivity.
    + apply group_keys_NoDup. exact runkey_cmp_order.
    + intros c Hc. apply group_keys_In; [exact runkey_cmp_order|].
      apply in_map. exact Hc.
  - intros kn _. apply count_sum_ones. intros c Hc.
    apply (group_rows_In _ runkey_cmp_order) in Hc. apply Hone. tauto.
Qed.

(** *** Sheets with blank key cells *)

Lemma filter_true {A : Type} (l : list A) : filter (fun _ => true) l = l.
Proof. induction l as [|x l IH]; simpl; [|rewrite IH]; reflexivity. Qed.

(** All the Runs of a table together hold every grouped row once. *)
Lemma segments_total ei cl :
  (forall c, In c cl -> SegmentsMerged c = 1%nat) ->
  count_sum (map Run_SegmentsMerged (aggregate ei cl)) = List.length cl.
Proof.
  intros Hone. unfold aggregate.
  rewrite (count_sum_perm _ _
             (Permutation_map Run_SegmentsMerged (sort_values_perm _ _ _))).
  unfold groupby. rewrite !map_map. simpl.
  rewrite (map_ext_in _
             (fun kn => List.length (group_rows runkey_cmp run_key kn cl))).
  - pose proof (group_sizes _ runkey_cmp_order run_key (fun _ => true)
                  (group_keys runkey_cmp (map run_key cl)) cl) as E.
    rewrite !filter_true in E. apply E.
    + apply group_keys_NoDup. exact runkey_cmp_order.
    + intros c Hc. apply group_keys_In; [exact runkey_cmp_order|].
      apply in_map. exact Hc.
  - intros kn _. apply count_sum_ones. intros c Hc.
    apply (group_rows_In _ runkey_cmp_order) in Hc. apply Hone. tauto.
Qed.

Lemma sparse_assign_columns seen t flags :
  Forall sparse_columns
    (Sparse.assign t flags
       (cumsum_from_dropna key_cmp seen (combine (map Sparse.group t) flags))).
Proof.
  revert seen flags.
  induction t as [|r t IH]; intros seen [|b flags]; simpl; try constructor.
  - split; [reflexivity|]. unfold Sparse.has_group. simpl.
    destruct (Sparse.group r); [eauto | discriminate].
  - apply IH.
Qed.

Lemma sparse_le20_rows_columns df : Forall sparse_columns (Sparse.le20_rows df).
Proof.
  unfold Sparse.le20_rows, Sparse.classify, Sparse.run_id_col,
    groupby_cumsum_dropna.
  apply sparse_assign_columns.
Qed.

Lemma grouped_segments l c :
  Forall sparse_columns l -> In c (dropna Sparse.grouped l) ->
  SegmentsMerged c = 1%nat.
Proof.
  induction 1 as [|x l [Hx _] _ IH]; simpl; [tauto|].
  unfold Sparse.grouped at 1.
  destruct (Sparse.group (Sparse.row x)); [|exact IH].
  destruct (Sparse.run_id x); [|exact IH].
  intros [<- | Hc]; [exact Hx | exact (IH Hc)].
Qed.

(** The grouped rows of the key [k] are the rows whose cells spell [k]. *)
Lemma grouped_rows_of_group k l :
  Forall sparse_columns l ->
  List.length (classified_group k (dropna Sparse.grouped l)) =
  List.length (Sparse.rows_of_group k l).
Proof.
  unfold classified_group, group_rows, Sparse.rows_of_group.
  induction 1 as [|x l [_ Hx] _ IH]; simpl; [reflexivity|].
  unfold Sparse.has_group in Hx.
  unfold Sparse.grouped at 1. unfold in_group at 1.
  destruct (Sparse.group (Sparse.row x)) as [k'|]; [|exact IH].
  destruct (Hx eq_refl) as [n ->]. simpl.
  destruct (cmp_eqb key_cmp k k'); simpl; rewrite IH; reflexivity.
Qed.

Lemma grouped_length l :
  Forall sparse_columns l ->
  List.length (dropna Sparse.grouped l) =
  List.length (filter Sparse.has_group l).
Proof.
  induction 1 as [|x l [_ Hx] _ IH]; simpl; [reflexivity|].
  unfold Sparse.has_group in Hx. unfold Sparse.grouped at 1.
  unfold Sparse.has_group at 1.
  destruct (Sparse.group (Sparse.row x)) as [k'|]; [|exact IH].
  destruct (Hx eq_refl) as [n ->]. simpl. rewrite IH. reflexivity.
Qed.

(** On a sheet with blank key cells, the Runs of a key hold the mergeable
    rows whose cells spell that key, and all the Runs together hold the
    mergeable rows that are in a group. *)
Lemma sparse_segments_conserved sheet :
  (forall k,
     count_sum (map Run_SegmentsMerged
                  (runs_of_group k (rows (Sparse.merged_runs sheet)))) =
     List.length (Sparse.rows_of_group k (Sparse.le20_rows sheet))) /\
  count_sum (map Run_SegmentsMerged (rows (Sparse.merged_runs sheet))) =
  List.length (filter Sparse.has_group (Sparse.le20_rows sheet)).
Proof.
  pose proof (sparse_le20_rows_columns sheet) as Hcols.
  unfold Sparse.merged_runs. cbn [rows]. split.
  - intros k. rewrite segments_conserved.
    + apply grouped_rows_of_group. exact Hcols.
    + intros c. apply grouped_segments. exact Hcols.
  - rewrite segments_total.
    + apply grouped_length. exact Hcols.
    + intros c. apply grouped_segments. exact Hcols.
Qed.

(** *** Sheets without blank cells, read as sparse sheets *)

Lemma filled_cells_of k : filled (cells_of k) = Some k.
Proof. destruct k; reflexivity. Qed.

Lemma sparse_group r : Sparse.group (sparse_row r) = Some (key r).
Proof. apply filled_cells_of. Qed.

Lemma combine_map_r {A B : Type} (f : A -> B) (ns : list nat) l :
  combine ns (map f l) = map (fun ir => (fst ir, f (snd ir))) (combine ns l).
Proof.
  revert ns. induction l as [|x l IH]; intros [|n ns]; simpl;
    try reflexivity.
  rewrite IH. reflexivity.
Qed.

Lemma with_index_map {A B : Type} (f : A -> B) l :
  with_index (map f l) = map (fun ir => (fst ir, f (snd ir))) (with_index l).
Proof.
  unfold with_index. rewrite length_map. apply combine_map_r.
Qed.

Lemma sort_values_ext {A K1 K2 : Type} (c1 : K1 -> K1 -> comparison)
  (c2 : K2 -> K2 -> comparison) (col1 : A -> K1) (col2 : A -> K2) l :
  (forall x y, cmp_leb c1 (col1 x) (col1 y) = cmp_leb c2 (col2 x) (col2 y)) ->
  sort_values c1 col1 l = sort_values c2 col2 l.
Proof.
  intros H. induction l as [|x t IH]; simpl.
  - reflexivity.
  - rewrite IH. generalize (sort_values c2 col2 t). intros s.
    induction s as [|y s IHs]; simpl.
    + reflexivity.
    + rewrite H, IHs. reflexivity.
Qed.

Lemma sparse_normalize df :
  Sparse.normalize (sparse_sheet df) = map sparse_row (normalize df).
Proof.
  unfold Sparse.normalize, Sparse.records, normalize, records, sparse_sheet.
  cbn [rows has_EventIndex]. rewrite !map_map. apply map_ext.
  intros r. reflexivity.
Qed.

Lemma sparse_le20_sorted df :
  Sparse.le20_sorted (sparse_sheet df) = map sparse_row (AtMost.le20_sorted df).
Proof.
  unfold Sparse.le20_sorted, AtMost.le20_sorted, Sparse.le20_split,
    AtMost.le20_split, select, reset_index.
  rewrite sparse_normalize, with_index_map, filter_map_commute.
  rewrite <- sort_values_map, !map_map. cbn [snd].
  apply f_equal. apply sort_values_ext. intros x y. reflexivity.
Qed.

Lemma find_sparse k seen :
  find (in_group key_cmp Sparse.group k) (map sparse_row seen) =
  option_map sparse_row (find (fun p => cmp_eqb key_cmp k (key p)) seen).
Proof.
  induction seen as [|p seen IH]; simpl.
  - reflexivity.
  - unfold in_group at 1. rewrite sparse_group.
    destruct (cmp_eqb key_cmp k (key p)); [reflexivity | exact IH].
Qed.

Lemma shift_sparse {V : Type} (na : V) (val : NRow -> V)
  (val' : Sparse.Row num -> V) :
  (forall r, val' (sparse_row r) = val r) ->
  forall seen t,
    shift_from_dropna key_cmp Sparse.group na val'
      (map sparse_row seen) (map sparse_row t) =
    shift_from key_cmp key na val seen t.
Proof.
  intros Hval seen t. revert seen.
  induction t as [|r t IH]; intros seen; cbn [shift_from_dropna shift_from map].
  - reflexivity.
  - rewrite sparse_group, find_sparse.
    rewrite <- (IH (r :: seen)). cbn [map]. f_equal.
    destruct (find (fun p => cmp_eqb key_cmp (key r) (key p)) seen); simpl;
      [apply Hval | reflexivity].
Qed.

Lemma groupby_shift_sparse {V : Type} (na : V) (val : NRow -> V)
  (val' : Sparse.Row num -> V) t :
  (forall r, val' (sparse_row r) = val r) ->
  groupby_shift_dropna key_cmp Sparse.group na val' (map sparse_row t) =
  groupby_shift key_cmp key na val t.
Proof. intros Hval. exact (shift_sparse na val val' Hval [] t). Qed.

Lemma sparse_new_run_col t :
  Sparse.new_run_col (map sparse_row t) = AtMost.new_run_col t.
Proof.
  unfold Sparse.new_run_col, AtMost.new_run_col, Sparse.same_aoi,
    AtMost.same_aoi, Sparse.contiguous, AtMost.contiguous,
    Sparse.contiguous_by_stop, AtMost.contiguous_by_stop,
    Sparse.contiguous_by_step20, AtMost.contiguous_by_step20,
    Sparse.prev_aoi, AtMost.prev_aoi, Sparse.prev_stop, AtMost.prev_stop,
    Sparse.prev_start, AtMost.prev_start, Sparse.prev_dur, AtMost.prev_dur.
  rewrite (groupby_shift_sparse None AOI Sparse.AOI t (fun _ => eq_refl)).
  rewrite (groupby_shift_sparse NaN Stop Sparse.Stop t (fun _ => eq_refl)).
  rewrite (groupby_shift_sparse NaN Start Sparse.Start t (fun _ => eq_refl)).
  rewrite (groupby_shift_sparse NaN Duration Sparse.Duration t (fun _ => eq_refl)).
  rewrite !map_map. reflexivity.
Qed.

Lemma cumsum_sparse seen ks flags :
  cumsum_from_dropna key_cmp
    (map (fun p : GroupKey * bool => (Some (fst p), snd p)) seen)
    (combine (map Some ks) flags) =
  map Some (cumsum_from key_cmp seen (combine ks flags)).
Proof.
  revert seen flags.
  induction ks as [|k ks IH]; intros seen [|b flags]; simpl;
    try reflexivity.
  rewrite <- (IH ((k, b) :: seen) flags). simpl. f_equal. f_equal.
  unfold in_group at 1. simpl.
  destruct (cmp_eqb key_cmp k k && b); simpl; f_equal;
    rewrite filter_map_commute, length_map; reflexivity.
Qed.

Lemma grouped_assign t flags ids :
  dropna Sparse.grouped
    (Sparse.assign (map sparse_row t) flags (map Some ids)) =
  assign t flags ids.
Proof.
  revert flags ids.
  induction t as [|r t IH]; intros [|b flags] [|n ids];
    cbn [map Sparse.assign dropna assign]; try reflexivity.
  unfold Sparse.grouped at 1.
  cbn [Sparse.row Sparse.run_id Sparse.new_run Sparse.SegmentsMerged].
  rewrite sparse_group, IH.
  destruct r; reflexivity.
Qed.

(** On a sheet without blank key cells the rows that are in a group are
    all the mergeable rows, classified as module [AtMost] classifies
    them, and the run table is that of module [AtMost]. *)
Lemma sparse_merge_without_blanks df :
  dropna Sparse.grouped (Sparse.le20_rows (sparse_sheet df)) =
    AtMost.le20_rows df /\
  Sparse.merged_runs (sparse_sheet df) = AtMost.merged_runs df.
Proof.
  assert (E : dropna Sparse.grouped (Sparse.le20_rows (sparse_sheet df)) =
              AtMost.le20_rows df).
  { unfold Sparse.le20_rows, AtMost.le20_rows, Sparse.classify,
      AtMost.classify, Sparse.run_id_col, AtMost.run_id_col,
      groupby_cumsum_dropna, groupby_cumsum.
    rewrite sparse_le20_sorted, sparse_new_run_col.
    rewrite map_map.
    rewrite (map_ext (fun x => Sparse.group (sparse_row x))
               (fun x => Some (key x)) sparse_group).
    rewrite <- (map_map key Some).
    rewrite (cumsum_sparse [] (map key (AtMost.le20_sorted df))).
    apply grouped_assign. }
  split; [exact E|].
  unfold Sparse.merged_runs, AtMost.merged_runs. rewrite E. reflexivity.
Qed.

(** The merge on sheets whose key cells are filled: the number of rows of
    a group in the sorted stream, in the classified stream and in the
    Runs of the group. *)
Lemma merge_segments_conserved m df runs cl raw k :
  merge m df = Returned (runs, cl, raw) ->
  count_sum (map Run_SegmentsMerged (runs_of_group k (rows runs))) =
  List.length (group_rows key_cmp key k (sorted_stream m df)) /\
  List.length (group_rows key_cmp key k (sorted_stream m df)) =
  List.length (classified_group k cl).
Proof.
  intros H. apply merge_returned in H. destruct H as [-> [_ ->]]. simpl.
  rewrite segments_conserved by apply classified_stream_segments.
  rewrite classified_stream_group.
  rewrite <- (length_map row (scan_group _ _)), scan_group_rows. auto.
Qed.

(** C5 (as amended).  For every group whose seven key cells are filled
    in, the SegmentsMerged of its Runs add up to the number of mergeable
    rows of the group: in both variants on a sheet without blank key
    cells, and in the at-most variant on any sheet.  A mergeable
    row with a blank key cell is in no group and in no Run: all the Runs
    of a sheet together hold the mergeable rows whose key cells are
    filled in, and no others. *)
Theorem C5_segments_merged_add_up_in_filled_groups :
  (forall m df runs cl raw k,
     merge m df = Returned (runs, cl, raw) ->
     count_sum (map Run_SegmentsMerged (runs_of_group k (rows runs))) =
     List.length (group_rows key_cmp key k (sorted_stream m df)) /\
     List.length (group_rows key_cmp key k (sorted_stream m df)) =
     List.length (classified_group k cl)) /\
  (forall sheet k,
     count_sum (map Run_SegmentsMerged
                  (runs_of_group k (rows (Sparse.merged_runs sheet)))) =
     List.length (Sparse.rows_of_group k (Sparse.le20_rows sheet))) /\
  (forall sheet,
     count_sum (map Run_SegmentsMerged (rows (Sparse.merged_runs sheet))) =
     List.length (filter Sparse.has_group (Sparse.le20_rows sheet))).
Proof.
  split; [|split].
  - exact merge_segments_conserved.
  - intros sheet. exact (proj1 (sparse_segments_conserved sheet)).
  - intros sheet. exact (proj2 (sparse_segments_conserved sheet)).
Qed.

Lemma C5_segments_merged_add_up_in_filled_groups_witness :
  (Exact.merge_consecutive_aoi sheet_apart =
     Returned (mkFrame true (aggregate true (classified_stream ExactMode sheet_apart)),
               classified_stream ExactMode sheet_apart,
               Exact.df_non20 sheet_apart) /\
   count_sum (map Run_SegmentsMerged
                (runs_of_group k0
                   (aggregate true (classified_stream ExactMode sheet_apart)))) =
   1%nat) /\
  count_sum (map Run_SegmentsMerged
               (runs_of_group k0 (rows (Sparse.merged_runs sheet_blank_key)))) =
  2%nat /\
  count_sum (map Run_SegmentsMerged (rows (Sparse.merged_runs sheet_blank_key))) =
  List.length (filter Sparse.has_group (Sparse.le20_rows sheet_blank_key)).
Proof.
  split; [split; [reflexivity|]|split].
  - exact (proj1 (proj1 C5_segments_merged_add_up_in_filled_groups
                    ExactMode sheet_apart _ _ _ k0 eq_refl)).
  - exact (proj1 (proj2 C5_segments_merged_add_up_in_filled_groups)
             sheet_blank_key k0).
  - exact (proj2 (proj2 C5_segments_merged_add_up_in_filled_groups)
             sheet_blank_key).
Defined.

(** C5 as first stated fails on a sheet with a blank key cell.  On
    [sheet_blank_key] the three rows are mergeable; one mergeable row
    carries the key cells [blank_validity], but no Run does, and the
    SegmentsMerged of all the Runs add up to 2. *)
Lemma C5_blank_key_row_is_in_no_run :
  List.length (Sparse.le20_rows sheet_blank_key) = 3%nat /\
  List.length
    (Sparse.rows_with_cells blank_validity (Sparse.le20_rows sheet_blank_key)) =
  1%nat /\
  count_sum
    (map Run_SegmentsMerged
       (Sparse.runs_with_cells blank_validity
          (rows (Sparse.merged_runs sheet_blank_key)))) = 0%nat /\
  count_sum (map Run_SegmentsMerged (rows (Sparse.merged_runs sheet_blank_key))) =
  2%nat.
Proof. vm_compute. repeat split. Qed.

(** ** The two variants on a sheet of 20 ms rows *)

Lemma map2_ext_In {A B C : Type} (f g : A -> B -> C) xs ys :
  (forall x y, In x xs -> In y ys -> f x y = g x y) ->
  map2 f xs ys = map2 g xs ys.
Proof.
  revert ys. induction xs as [|x xs IH]; intros [|y ys] H; simpl;
    try reflexivity.
  rewrite H by (left; reflexivity). f_equal. apply IH.
  intros a b Ha Hb. apply H; right; assumption.
Qed.

Lemma previous_rows_In seen t p :
  In (Some p) (previous_rows seen t) -> In p seen \/ In p t.
Proof.
  revert seen. induction t as [|r t IH]; intros seen; simpl.
  - tauto.
  - unfold previous_rows in *. simpl. intros [H | H].
    + destruct (find (fun q => cmp_eqb key_cmp (key r) (key q)) seen) eqn:E;
        [|discriminate].
      inversion H. subst. apply find_some in E. tauto.
    + destruct (IH _ H) as [[<- | H'] | H']; auto.
Qed.

Lemma starts_run_same_on_target prev r :
  Duration r = Num DURATION_TARGET ->
  (forall p, prev = Some p -> Duration p = Num DURATION_TARGET) ->
  starts_run contiguous_exact prev r = starts_run contiguous_at_most prev r.
Proof.
  intros Hr Hp. destruct prev as [p|]; [|reflexivity].
  unfold starts_run, contiguous_exact, contiguous_at_most,
    both_durations_target.
  rewrite Hr, (Hp p eq_refl).
  change (num_eq (Num DURATION_TARGET) (Num DURATION_TARGET)) with true.
  rewrite !andb_true_r. reflexivity.
Qed.

Lemma classify_same_on_target t :
  StronglySorted (le_by sortkey_cmp sort_key) t ->
  (forall r, In r t -> Duration r = Num DURATION_TARGET) ->
  Exact.assign_columns t (Exact.new_run_flags t) = AtMost.classify t.
Proof.
  intros Hs Hd.
  assert (E : Exact.new_run_flags t = AtMost.new_run_col t).
  { rewrite exact_new_run_flags by exact Hs. rewrite at_most_new_run_col.
    apply map2_ext_In. intros o r Ho Hr. apply starts_run_same_on_target.
    - exact (Hd r Hr).
    - intros p ->. apply previous_rows_In in Ho.
      destruct Ho as [[] | Ho]. exact (Hd p Ho). }
  unfold Exact.assign_columns, AtMost.classify, AtMost.run_id_col.
  rewrite E. reflexivity.
Qed.

Lemma normalize_In df r :
  In r (normalize df) ->
  exists x, In x (rows df) /\ Duration r = to_numeric (Duration x).
Proof.
  unfold normalize, records. rewrite map_map, in_map_iff.
  intros [x [<- Hx]]. exists x. split; [exact Hx | reflexivity].
Qed.

(** On a sheet of 20 ms rows the exact merge, when it returns, returns
    what the at-most merge returns. *)
Lemma variants_agree_when_exact_returns df x :
  (forall r, In r (rows df) -> to_numeric (Duration r) = Num 20) ->
  Exact.merge_consecutive_aoi df = Returned x ->
  x = AtMost.merge_consecutive_aoi_duration_le20 df.
Proof.
  intros Hdur Hx. destruct x as [[runs cl] raw].
  apply exact_merge_returned in Hx. destruct Hx as [Hei [_ [Hcl [-> ->]]]].
  assert (Hall : forall ir, In ir (with_index (normalize df)) ->
                            Duration (snd ir) = Num DURATION_TARGET).
  { intros [i r] Hin. apply with_index_In in Hin. apply nth_error_In in Hin.
    apply normalize_In in Hin. destruct Hin as [x [Hx E]]. simpl.
    rewrite E. exact (Hdur x Hx). }
  assert (Hsplit : Exact.df20_split df = AtMost.le20_split df).
  { unfold Exact.df20_split, AtMost.le20_split, select. apply filter_ext_in.
    intros ir Hin. unfold Exact.eq_target, AtMost.le_target.
    rewrite (Hall ir Hin). reflexivity. }
  assert (Hraw : Exact.df_non20 df = AtMost.gt20_rows df).
  { unfold Exact.df_non20, AtMost.gt20_rows, select. apply filter_ext_in.
    intros ir Hin. unfold Exact.ne_target, AtMost.gt_target.
    rewrite (Hall ir Hin). reflexivity. }
  assert (Hsorted : Exact.df20_sorted df = AtMost.le20_sorted df).
  { unfold Exact.df20_sorted, AtMost.le20_sorted. rewrite Hsplit. reflexivity. }
  assert (Hcl' : cl = AtMost.le20_rows df).
  { rewrite Hcl. simpl. unfold AtMost.le20_rows. rewrite Hsorted.
    apply classify_same_on_target.
    - exact (sorted_stream_sorted AtMostMode df).
    - intros r Hr. apply (sorted_stream_In AtMostMode) in Hr.
      destruct Hr as [Hr _]. apply In_nth_error in Hr. destruct Hr as [i Hi].
      apply (Hall (i, r)). apply with_index_In. exact Hi. }
  unfold AtMost.merge_consecutive_aoi_duration_le20, AtMost.merged_runs.
  rewrite Hei, Hcl', Hraw. reflexivity.
Qed.

(** C10 (the code departs from the claim in the exact variant).  The
    boundary example has the EventIndex column and 20 ms rows only, all in
    one group.  The at-most merge returns its two Runs; the exact merge
    raises when it assigns [new_run], because [groupby.apply] hands back a
    one-row frame for a single group.  Whenever the exact merge does
    return on such a sheet, it returns the tables of the at-most merge
    ([variants_agree_when_exact_returns]). *)
Theorem C10_exact_merge_raises_on_a_single_group :
  has_EventIndex sheet_boundary = true /\
  (forall r, In r (rows sheet_boundary) -> to_numeric (Duration r) = Num 20) /\
  map Run_SegmentsMerged (rows (AtMost.merged_runs sheet_boundary)) =
    [2%nat; 1%nat] /\
  Exact.merge_consecutive_aoi sheet_boundary =
    Raised "ValueError: Cannot set a DataFrame with multiple columns to the single column new_run".
Proof.
  split; [reflexivity|]. split; [|split; reflexivity].
  simpl. intros r [<- | [<- | [<- | []]]]; reflexivity.
Qed.

(** ** The aggregations *)

Lemma agg_min_least xs : least_of xs (agg_min xs).
Proof.
  induction xs as [|x xs IH]; simpl.
  - intros x [].
  - unfold agg_min in *. simpl.
    destruct x as [|a]; destruct (fold_right num_min2 NaN xs) as [|b];
      simpl in *.
    + intros y [<- | Hy]; [reflexivity | exact (IH y Hy)].
    + destruct IH as [Hin Hlow]. split; [right; exact Hin|].
      intros y [Hy | Hy]; [discriminate | exact (Hlow y Hy)].
    + split; [left; reflexivity|]. intros y [Hy | Hy].
      * inversion Hy. lia.
      * specialize (IH _ Hy). discriminate.
    + destruct IH as [Hin Hlow]. split.
      * destruct (Z.min_spec a b) as [[_ ->] | [_ ->]];
          [left; reflexivity | right; exact Hin].
      * intros y [Hy | Hy]; [inversion Hy; lia|].
        specialize (Hlow y Hy). lia.
Qed.

Lemma agg_max_greatest xs : greatest_of xs (agg_max xs).
Proof.
  induction xs as [|x xs IH]; simpl.
  - intros x [].
  - unfold agg_max in *. simpl.
    destruct x as [|a]; destruct (fold_right num_max2 NaN xs) as [|b];
      simpl in *.
    + intros y [<- | Hy]; [reflexivity | exact (IH y Hy)].
    + destruct IH as [Hin Hup]. split; [right; exact Hin|].
      intros y [Hy | Hy]; [discriminate | exact (Hup y Hy)].
    + split; [left; reflexivity|]. intros y [Hy | Hy].
      * inversion Hy. lia.
      * specialize (IH _ Hy). discriminate.
    + destruct IH as [Hin Hup]. split.
      * destruct (Z.max_spec a b) as [[_ ->] | [_ ->]];
          [right; exact Hin | left; reflexivity].
      * intros y [Hy | Hy]; [inversion Hy; lia|].
        specialize (Hup y Hy). lia.
Qed.

Lemma least_of_In xs m : xs <> [] -> least_of xs m -> In m xs.
Proof.
  destruct xs as [|x xs]; [congruence|]. intros _.
  destruct m as [|z]; simpl.
  - intros H. left. apply H. left. reflexivity.
  - tauto.
Qed.

Lemma greatest_of_In xs m : xs <> [] -> greatest_of xs m -> In m xs.
Proof.
  destruct xs as [|x xs]; [congruence|]. intros _.
  destruct m as [|z]; simpl.
  - intros H. left. apply H. left. reflexivity.
  - tauto.
Qed.

Lemma agg_sum_numbers zs : total_of zs (agg_sum (map Num zs)).
Proof.
  unfold total_of, agg_sum. f_equal.
  induction zs as [|z zs IH]; simpl; [reflexivity | rewrite IH; reflexivity].
Qed.

Lemma agg_first_filled {V : Type} (xs : list (option V)) :
  first_filled_of xs (agg_first xs).
Proof.
  induction xs as [|[e|] xs IH]; simpl.
  - intros x [].
  - exists [], xs. split; [reflexivity | intros x []].
  - destruct (agg_first xs) as [e|]; simpl in *.
    + destruct IH as [pre [post [-> Hpre]]].
      exists (None :: pre), post. split; [reflexivity|].
      intros x [<- | Hx]; [reflexivity | exact (Hpre x Hx)].
    + intros x [<- | Hx]; [reflexivity | exact (IH x Hx)].
Qed.

Lemma all_numbers {A : Type} (f : A -> num) l :
  (forall x, In x l -> exists z, f x = Num z) ->
  exists zs, map f l = map Num zs.
Proof.
  induction l as [|x l IH]; intros H.
  - exists []. reflexivity.
  - destruct (H x (or_introl eq_refl)) as [z Ez].
    destruct IH as [zs Ezs]; [intros y Hy; apply H; right; exact Hy|].
    exists (z :: zs). simpl. congruence.
Qed.

(** ** The members of a run *)

Lemma runkey_eqb_split k n k' n' :
  cmp_eqb runkey_cmp (k, n) (k', n') = cmp_eqb key_cmp k k' && (n =? n')%nat.
Proof.
  unfold cmp_eqb, runkey_cmp, pair_cmp, lex. simpl.
  destruct (key_cmp k k'); try reflexivity.
  destruct (Nat.compare_spec n n') as [E | E | E].
  - subst. rewrite Nat.eqb_refl. reflexivity.
  - symmetry. apply Nat.eqb_neq. lia.
  - symmetry. apply Nat.eqb_neq. lia.
Qed.

Lemma run_group_filter k n cl :
  group_rows runkey_cmp run_key (k, n) cl =
  filter (fun c => (n =? run_id c)%nat) (classified_group k cl).
Proof.
  unfold group_rows, classified_group, group_rows, run_key.
  induction cl as [|c cl IH]; simpl.
  - reflexivity.
  - rewrite runkey_eqb_split.
    destruct (cmp_eqb key_cmp k (key (row c))); simpl;
      [destruct (n =? run_id c)%nat|]; rewrite IH; reflexivity.
Qed.

Lemma aggregate_In ei cl r :
  In r (aggregate ei cl) <->
  exists c, In c cl /\
            r = agg_run ei (run_key c,
                            group_rows runkey_cmp run_key (run_key c) cl).
Proof.
  unfold aggregate. rewrite sort_values_In, in_map_iff. split.
  - intros [g [<- Hg]]. apply (groupby_In _ runkey_cmp_order) in Hg.
    destruct Hg as [[c [Hc Ek]] Eg]. exists c. split; [exact Hc|].
    destruct g as [kn rs]. simpl in *. congruence.
  - intros [c [Hc ->]]. eexists. split; [reflexivity|].
    apply (groupby_In _ runkey_cmp_order). simpl. split; [|reflexivity].
    exists c. auto.
Qed.

Lemma obj_eq_true a b : obj_eq a b = true -> a = b /\ b <> None.
Proof.
  destruct a as [x|], b as [y|]; simpl; try discriminate.
  intros H. apply String.eqb_eq in H. subst. split; congruence.
Qed.

Lemma count_flag_ge f n : (n <= count_flag f n)%nat.
Proof. destruct f; simpl; lia. Qed.

Lemma count_flag_same f n : count_flag f n = n -> f = false.
Proof. destruct f; simpl; [lia | reflexivity]. Qed.

Lemma scan_from_cons contig prev n r g :
  scan_from contig prev n (r :: g) =
  mkClassified r (starts_run contig (Some prev) r)
    (count_flag (starts_run contig (Some prev) r) n) 1
  :: scan_from contig r (count_flag (starts_run contig (Some prev) r) n) g.
Proof. reflexivity. Qed.

Lemma scan_from_ids contig g :
  forall prev n c, In c (scan_from contig prev n g) -> (n <= run_id c)%nat.
Proof.
  induction g as [|r g IH]; intros prev n c.
  - intros [].
  - rewrite scan_from_cons.
    pose proof (count_flag_ge (starts_run contig (Some prev) r) n) as Hge.
    intros [<- | H]; [exact Hge|].
    specialize (IH _ _ _ H). lia.
Qed.

(** The rows that continue the run of [prev] carry its AOI. *)
Lemma scan_from_same_run contig g :
  forall prev n c,
  In c (scan_from contig prev n g) -> run_id c = n ->
  AOI (row c) = AOI prev /\ AOI prev <> None.
Proof.
  induction g as [|r g IH]; intros prev n c.
  - intros [].
  - rewrite scan_from_cons.
    assert (Hf : starts_run contig (Some prev) r = false ->
                 AOI r = AOI prev /\ AOI prev <> None).
    { simpl. intros E. apply negb_false_iff in E.
      apply andb_true_iff in E. apply obj_eq_true. exact (proj1 E). }
    pose proof (count_flag_ge (starts_run contig (Some prev) r) n) as Hge.
    revert Hf Hge. generalize (starts_run contig (Some prev) r). intros f Hf Hge.
    intros [<- | H] E.
    + apply Hf. exact (count_flag_same _ _ E).
    + pose proof (scan_from_ids _ _ _ _ _ H) as Hge'.
      assert (En : count_flag f n = n) by lia.
      destruct (Hf (count_flag_same _ _ En)) as [E1 E2].
      rewrite En in H. destruct (IH _ _ _ H E) as [E3 _].
      split; congruence.
Qed.

Lemma scan_from_block contig n g :
  forall prev m c0 rest,
  filter (fun c => (n =? run_id c)%nat) (scan_from contig prev m g) = c0 :: rest ->
  forall c, In c rest ->
            AOI (row c) = AOI (row c0) /\ AOI (row c0) <> None.
Proof.
  induction g as [|r g IH]; intros prev m c0 rest.
  - discriminate.
  - rewrite scan_from_cons.
    generalize (starts_run contig (Some prev) r). intros f.
    cbn [filter run_id].
    destruct (Nat.eqb_spec n (count_flag f m)) as [E | E].
    + intros H c Hc. inversion H. subst c0 rest. cbn [row].
      apply filter_In in Hc. destruct Hc as [Hc Hn].
      apply Nat.eqb_eq in Hn. rewrite <- E in Hc.
      exact (scan_from_same_run _ _ _ _ _ Hc (eq_sym Hn)).
    + apply IH.
Qed.

Lemma scan_group_block contig n g c0 rest :
  filter (fun c => (n =? run_id c)%nat) (scan_group contig g) = c0 :: rest ->
  forall c, In c rest ->
            AOI (row c) = AOI (row c0) /\ AOI (row c0) <> None.
Proof.
  destruct g as [|r g]; simpl.
  - discriminate.
  - destruct (Nat.eqb_spec n 1) as [E | E].
    + intros H c Hc. inversion H. subst c0 rest. simpl.
      apply filter_In in Hc. destruct Hc as [Hc Hn].
      apply Nat.eqb_eq in Hn. subst n.
      exact (scan_from_same_run _ _ _ _ _ Hc (eq_sym Hn)).
    + apply scan_from_block.
Qed.

Lemma agg_first_block {V : Type} (a : option V) rest :
  (forall x, In x rest -> x = a /\ a <> None) ->
  agg_first (a :: rest) = a.
Proof.
  destruct a as [v|]; simpl; [reflexivity|].
  destruct rest as [|x rest]; [reflexivity|].
  intros H. destruct (H x (or_introl eq_refl)) as [_ Hc]. congruence.
Qed.

(** ** What a run records of its members *)

Lemma run_members_scan m df k n :
  group_rows runkey_cmp run_key (k, n) (classified_stream m df) =
  filter (fun c => (n =? run_id c)%nat)
    (scan_group (contiguity m) (group_rows key_cmp key k (sorted_stream m df))).
Proof. rewrite run_group_filter, classified_stream_group. reflexivity. Qed.

Lemma run_member_in_stream m df kn c :
  In c (group_rows runkey_cmp run_key kn (classified_stream m df)) ->
  In (row c) (sorted_stream m df) /\ run_key c = kn.
Proof.
  intros H. split.
  - destruct kn as [k n]. rewrite run_group_filter in H.
    apply filter_In in H. exact (classified_group_row_In _ _ _ _ (proj1 H)).
  - apply (group_rows_In _ runkey_cmp_order) in H. tauto.
Qed.

Lemma agg_run_summarises m df c :
  In c (classified_stream m df) ->
  run_summarises (has_EventIndex df)
    (members (key (row c)) (run_id c) (classified_stream m df))
    (agg_run (has_EventIndex df)
       (run_key c,
        group_rows runkey_cmp run_key (run_key c) (classified_stream m df))).
Proof.
  intros Hc. unfold members.
  change (key (row c), run_id c) with (run_key c).
  assert (Hin : In c (group_rows runkey_cmp run_key (run_key c)
                        (classified_stream m df))).
  { apply (group_rows_In _ runkey_cmp_order). auto. }
  assert (Hblock := run_members_scan m df (key (row c)) (run_id c)).
  change (key (row c), run_id c) with (run_key c) in Hblock.
  assert (Hstream := run_member_in_stream m df (run_key c)).
  assert (Hseg : forall x,
             In x (group_rows runkey_cmp run_key (run_key c)
                     (classified_stream m df)) -> SegmentsMerged x = 1%nat).
  { intros x Hx. apply (classified_stream_segments m df).
    apply (group_rows_In _ runkey_cmp_order) in Hx. tauto. }
  revert Hin Hblock Hstream Hseg.
  generalize (group_rows runkey_cmp run_key (run_key c) (classified_stream m df)).
  intros G Hin Hblock Hstream Hseg.
  destruct G as [|c0 G]; [destruct Hin|]. clear Hin.
  destruct (all_numbers Duration (map row (c0 :: G))) as [zs Hzs].
  { intros x Hx. apply in_map_iff in Hx. destruct Hx as [c' [<- Hc']].
    destruct (Hstream c' Hc') as [Hs _]. apply sorted_stream_In in Hs.
    destruct (mergeable_duration m _ (proj2 Hs)) as [z [Ez _]].
    exists z. exact Ez. }
  exists (row c0), (map row G), zs. unfold agg_run. cbn [fst snd cells].
  split; [reflexivity|].
  split; [apply agg_min_least|].
  split; [apply agg_max_greatest|].
  split; [exact Hzs|].
  split; [rewrite Hzs; apply agg_sum_numbers|].
  split.
  { cbn [map AOI]. apply agg_first_block. intros x Hx.
    apply in_map_iff in Hx. destruct Hx as [x' [<- Hx]].
    apply in_map_iff in Hx. destruct Hx as [c' [<- Hc']].
    exact (scan_group_block _ _ _ _ _ (eq_sym Hblock) c' Hc'). }
  split.
  { cbn [Run_SegmentsMerged]. rewrite count_sum_ones by exact Hseg.
    rewrite length_map. reflexivity. }
  destruct (has_EventIndex df); [|reflexivity].
  split; [apply agg_first_filled|].
  cbn [map EventIndex]. destruct (EventIndex (row c0)); simpl; congruence.
Qed.

(** C4 (as amended).  Every Run has: Start the least Start of its member
    rows, Stop the greatest Stop, Duration the sum of the member
    Durations, AOI the AOI of the first member in sort order,
    SegmentsMerged the number of members and, when the column is present,
    EventIndex the first EventIndex cell among the members that is filled
    in, which is the first member's own whenever that one is filled in. *)
Theorem C4_run_summarises_its_members m df runs cl raw r :
  merge m df = Returned (runs, cl, raw) ->
  In r (rows runs) ->
  run_summarises (has_EventIndex df)
    (members (key (cells r)) (Run_id r) cl) r.
Proof.
  intros H Hr. apply merge_returned in H. destruct H as [-> [_ ->]].
  simpl in Hr. apply aggregate_In in Hr. destruct Hr as [c [Hc ->]].
  exact (agg_run_summarises m df c Hc).
Qed.

Lemma C4_run_summarises_its_members_witness :
  run_summarises true
    (members k0 1 (AtMost.le20_rows sheet_blank_event))
    (mkRun (mkRow k0 (Num 0) (Num 40) (Num 40) (Some "Puck"%string) (Some 7))
           1 2).
Proof.
  exact (C4_run_summarises_its_members AtMostMode sheet_blank_event _ _ _
           (mkRun (mkRow k0 (Num 0) (Num 40) (Num 40) (Some "Puck"%string)
                     (Some 7)) 1 2)
           eq_refl (or_introl eq_refl)).
Defined.

(** C4 (as stated) fails on [sheet_blank_event]: the two rows form one
    Run whose EventIndex is 7, the cell of the second member, while the
    EventIndex cell of the first member is blank. *)
Lemma C4_event_index_is_first_filled_cell :
  ~ (forall r first,
       In r (rows (AtMost.merged_runs sheet_blank_event)) ->
       hd_error (members (key (cells r)) (Run_id r)
                   (AtMost.le20_rows sheet_blank_event)) = Some first ->
       EventIndex (cells r) = EventIndex first).
Proof.
  intros H.
  specialize (H (mkRun (mkRow k0 (Num 0) (Num 40) (Num 40)
                          (Some "Puck"%string) (Some 7)) 1 2)
                (mkRow k0 (Num 0) (Num 20) (Num 20) (Some "Puck"%string) None)
                (or_introl eq_refl) eq_refl).
  discriminate.
Qed.

(** ** The order of the runs of a group *)

Lemma num_le_last_trans a b c :
  num_le_last a b -> num_le_last b c -> num_le_last a c.
Proof.
  unfold num_le_last. intros H1 H2.
  pose proof (cmp_leb_trans _ num_cmp_order a b c) as T. unfold cmp_leb in T.
  destruct (num_cmp a b); try congruence;
    destruct (num_cmp b c); try congruence;
    destruct (num_cmp a c); try congruence;
    specialize (T eq_refl eq_refl); discriminate.
Qed.

Lemma sort_key_same_group a b :
  le_by sortkey_cmp sort_key a b -> key a = key b ->
  num_le_last (Start a) (Start b).
Proof.
  unfold le_by, cmp_leb, sortkey_cmp, pair_cmp, sort_key, lex, num_le_last.
  simpl. intros H E. rewrite E, (cmp_refl _ key_cmp_order) in H.
  destruct (num_cmp (Start a) (Start b)); congruence.
Qed.

Lemma sorted_pairs {A : Type} (R : A -> A -> Prop) l a b :
  StronglySorted R l -> In a l -> In b l -> a = b \/ R a b \/ R b a.
Proof.
  induction 1 as [|x t Hs IH Hall]; simpl; [tauto|].
  rewrite Forall_forall in Hall.
  intros [<- | Ha] [<- | Hb]; auto.
Qed.

Lemma scan_from_sorted (P : NRow -> NRow -> Prop) contig g :
  StronglySorted P g ->
  forall prev n,
  StronglySorted (fun a b => (run_id a <= run_id b)%nat /\ P (row a) (row b))
    (scan_from contig prev n g).
Proof.
  induction 1 as [|r g Hs IH Hall]; intros prev n.
  - constructor.
  - rewrite scan_from_cons. constructor; [apply IH|].
    rewrite Forall_forall in *. intros c Hc. cbn [run_id row]. split.
    + exact (scan_from_ids _ _ _ _ _ Hc).
    + apply Hall. apply (in_map row) in Hc.
      rewrite scan_from_rows in Hc. exact Hc.
Qed.

Lemma scan_group_sorted (P : NRow -> NRow -> Prop) contig g :
  StronglySorted P g ->
  StronglySorted (fun a b => (run_id a <= run_id b)%nat /\ P (row a) (row b))
    (scan_group contig g).
Proof.
  destruct 1 as [|r g Hs Hall]; simpl.
  - constructor.
  - constructor; [apply scan_from_sorted; exact Hs|].
    rewrite Forall_forall in *. intros c Hc. cbn [run_id row]. split.
    + exact (scan_from_ids _ _ _ _ _ Hc).
    + apply Hall. apply (in_map row) in Hc.
      rewrite scan_from_rows in Hc. exact Hc.
Qed.

Lemma no_overlap_all_pairs g :
  StronglySorted (fun a b => num_le_last (Start a) (Start b)) g ->
  rows_do_not_overlap g ->
  StronglySorted (fun a b => num_le_last (Stop a) (Start b)) g.
Proof.
  unfold rows_do_not_overlap.
  induction 1 as [|x t Hs IH Hall]; intros Hno.
  - constructor.
  - inversion Hno as [|? ? Hno' Hhd]; subst.
    constructor; [exact (IH Hno')|].
    destruct t as [|y t']; [constructor|].
    inversion Hhd as [|? ? Hxy]; subst.
    inversion Hs as [|? ? _ Hy]; subst.
    constructor; [exact Hxy|].
    rewrite Forall_forall in *. intros b Hb.
    exact (num_le_last_trans _ _ _ Hxy (Hy b Hb)).
Qed.

Lemma group_sorted_by_start m df k :
  StronglySorted (fun a b => num_le_last (Start a) (Start b))
    (group_rows key_cmp key k (sorted_stream m df)).
Proof.
  assert (H : StronglySorted
                (fun a b => le_by sortkey_cmp sort_key a b /\
                            (key a = k /\ key b = k))
                (group_rows key_cmp key k (sorted_stream m df))).
  { pose proof (sorted_filter sortkey_cmp sort_key
                  (fun r => cmp_eqb key_cmp k (key r)) _
                  (sorted_stream_sorted m df)) as Hs.
    fold (group_rows key_cmp key k (sorted_stream m df)) in Hs.
    assert (Hk : forall x,
               In x (group_rows key_cmp key k (sorted_stream m df)) ->
               key x = k).
    { intros x Hx. apply (group_rows_In _ key_cmp_order) in Hx. tauto. }
    revert Hs Hk.
    generalize (group_rows key_cmp key k (sorted_stream m df)).
    intros g Hs. induction Hs as [|x t Hs IH Hall]; intros Hk.
    - constructor.
    - constructor.
      + apply IH. intros y Hy. apply Hk. right. exact Hy.
      + rewrite Forall_forall in *. intros y Hy. split; [exact (Hall y Hy)|].
        split; apply Hk; [left; reflexivity | right; exact Hy]. }
  revert H. apply sorted_weaken. intros a b [Hle [Ea Eb]].
  apply sort_key_same_group; congruence.
Qed.

Lemma members_ordered m df k a b :
  In a (scan_group (contiguity m)
          (group_rows key_cmp key k (sorted_stream m df))) ->
  In b (scan_group (contiguity m)
          (group_rows key_cmp key k (sorted_stream m df))) ->
  (run_id a < run_id b)%nat ->
  num_le_last (Start (row a)) (Start (row b)) /\
  (rows_do_not_overlap (group_rows key_cmp key k (sorted_stream m df)) ->
   num_le_last (Stop (row a)) (Start (row b))).
Proof.
  intros Ha Hb Hlt. pose proof (group_sorted_by_start m df k) as Hs. split.
  - destruct (sorted_pairs _ _ a b
                (scan_group_sorted _ (contiguity m) _ Hs) Ha Hb)
      as [E | [[_ H] | [H _]]]; [subst; lia | exact H | lia].
  - intros Hno. pose proof (no_overlap_all_pairs _ Hs Hno) as Hs'.
    destruct (sorted_pairs _ _ a b
                (scan_group_sorted _ (contiguity m) _ Hs') Ha Hb)
      as [E | [[_ H] | [H _]]]; [subst; lia | exact H | lia].
Qed.

Lemma run_bounds_from_members m df c :
  In c (classified_stream m df) ->
  let S := scan_group (contiguity m)
             (group_rows key_cmp key (key (row c)) (sorted_stream m df)) in
  let r := agg_run (has_EventIndex df)
             (run_key c,
              group_rows runkey_cmp run_key (run_key c) (classified_stream m df)) in
  exists a b,
    In a S /\ run_id a = run_id c /\ Start (cells r) = Start (row a) /\
    In b S /\ run_id b = run_id c /\ Stop (cells r) = Stop (row b).
Proof.
  intros Hc S r.
  pose proof (run_members_scan m df (key (row c)) (run_id c)) as Hblock.
  change (key (row c), run_id c) with (run_key c) in Hblock.
  assert (Hin : In c (group_rows runkey_cmp run_key (run_key c)
                        (classified_stream m df))).
  { apply (group_rows_In _ runkey_cmp_order). auto. }
  assert (HS : forall x,
             In x (group_rows runkey_cmp run_key (run_key c)
                     (classified_stream m df)) ->
             In x S /\ run_id x = run_id c).
  { intros x Hx. rewrite Hblock in Hx. apply filter_In in Hx.
    destruct Hx as [Hx Hn]. apply Nat.eqb_eq in Hn. auto. }
  subst r. unfold agg_run. cbn [fst snd cells Start Stop].
  revert Hin HS.
  generalize (group_rows runkey_cmp run_key (run_key c) (classified_stream m df)).
  intros G Hin HS. destruct G as [|c0 G]; [destruct Hin|].
  assert (Hne : forall f : NRow -> num, map f (map row (c0 :: G)) <> []).
  { intros f. discriminate. }
  pose proof (least_of_In _ _ (Hne Start)
                (agg_min_least (map Start (map row (c0 :: G))))) as Hmin.
  pose proof (greatest_of_In _ _ (Hne Stop)
                (agg_max_greatest (map Stop (map row (c0 :: G))))) as Hmax.
  rewrite map_map in Hmin, Hmax.
  apply in_map_iff in Hmin. destruct Hmin as [a [Ea Ha]].
  apply in_map_iff in Hmax. destruct Hmax as [b [Eb Hb]].
  exists a, b. destruct (HS a Ha) as [Ha1 Ha2]. destruct (HS b Hb) as [Hb1 Hb2].
  rewrite !map_map. repeat split; auto.
Qed.

(** C6 (as amended).  Within a group the Runs taken in run-id order have
    non-decreasing Start values (NaN last, as in the sort).  A Run ends no
    later than a later Run of its group starts provided the consecutive
    mergeable rows of the group do not overlap themselves; nothing
    prevents overlapping Runs otherwise. *)
Theorem C6_runs_of_a_group_start_in_order m df runs cl raw r1 r2 :
  merge m df = Returned (runs, cl, raw) ->
  In r1 (rows runs) -> In r2 (rows runs) ->
  key (cells r1) = key (cells r2) ->
  (Run_id r1 < Run_id r2)%nat ->
  num_le_last (Start (cells r1)) (Start (cells r2)) /\
  (rows_do_not_overlap
     (group_rows key_cmp key (key (cells r1)) (sorted_stream m df)) ->
   num_le_last (Stop (cells r1)) (Start (cells r2))).
Proof.
  intros H H1 H2 Ek Hlt. apply merge_returned in H. destruct H as [-> [_ ->]].
  simpl in H1, H2. apply aggregate_In in H1, H2.
  destruct H1 as [c1 [Hc1 ->]]. destruct H2 as [c2 [Hc2 ->]].
  cbn [agg_run key cells Run_id fst snd run_key] in Ek, Hlt.
  destruct (run_bounds_from_members m df c1 Hc1)
    as [a1 [b1 [Ha1 [Ia1 [Es1 [Hb1 [Ib1 Ee1]]]]]]].
  destruct (run_bounds_from_members m df c2 Hc2)
    as [a2 [_ [Ha2 [Ia2 [Es2 _]]]]].
  rewrite <- Ek in Ha2.
  rewrite Es1, Es2, Ee1.
  change (key (cells (agg_run (has_EventIndex df)
            (run_key c1,
             group_rows runkey_cmp run_key (run_key c1)
               (classified_stream m df))))) with (key (row c1)).
  split.
  - apply (members_ordered m df (key (row c1)) a1 a2 Ha1 Ha2). lia.
  - apply (members_ordered m df (key (row c1)) b1 a2 Hb1 Ha2). lia.
Qed.

Lemma C6_runs_of_a_group_start_in_order_witness :
  num_le_last (Num 0) (Num 40) /\
  (rows_do_not_overlap
     (group_rows key_cmp key k0 (sorted_stream AtMostMode sheet_boundary)) ->
   num_le_last (Num 40) (Num 40)).
Proof.
  exact (C6_runs_of_a_group_start_in_order AtMostMode sheet_boundary _ _ _
           (mkRun (mkRow k0 (Num 0) (Num 40) (Num 40) (Some "Puck"%string)
                     (Some 1)) 1 2)
           (mkRun (mkRow k0 (Num 40) (Num 60) (Num 20) (Some "Ice"%string)
                     (Some 3)) 2 1)
           eq_refl (or_introl eq_refl) (or_intror (or_introl eq_refl))
           eq_refl (le_n 2)).
Defined.

(** C6 (as stated) fails on [sheet_overlap]: the first Run of the group
    stops at 20 and the second starts at 10. *)
Lemma C6_runs_of_a_group_may_overlap :
  ~ (forall r1 r2,
       In r1 (rows (AtMost.merged_runs sheet_overlap)) ->
       In r2 (rows (AtMost.merged_runs sheet_overlap)) ->
       key (cells r1) = key (cells r2) ->
       (Run_id r1 < Run_id r2)%nat ->
       num_le_last (Stop (cells r1)) (Start (cells r2))).
Proof.
  intros H.
  specialize (H (mkRun (mkRow k0 (Num 0) (Num 20) (Num 20)
                          (Some "Puck"%string) (Some 1)) 1 1)
                (mkRun (mkRow k0 (Num 10) (Num 30) (Num 20)
                          (Some "Ice"%string) (Some 2)) 2 1)
                (or_introl eq_refl) (or_intror (or_introl eq_refl))
                eq_refl (le_n 2)).
  apply H. reflexivity.
Qed.

(** ** Feeding the runs back *)

Lemma previous_rows_length seen t :
  List.length (previous_rows seen t) = List.length t.
Proof.
  revert seen. unfold previous_rows.
  induction t as [|r t IH]; intros seen; simpl; [|rewrite IH]; reflexivity.
Qed.

Lemma cumsum_from_length {K : Type} (cmp : K -> K -> comparison) seen l :
  List.length (cumsum_from cmp seen l) = List.length l.
Proof.
  revert seen. induction l as [|kb l IH]; intros seen; simpl;
    [|rewrite IH]; reflexivity.
Qed.

Lemma assign_scan_rows contig t :
  map row
    (assign t (map2 (starts_run contig) (previous_rows [] t) t)
       (groupby_cumsum key_cmp (map key t)
          (map2 (starts_run contig) (previous_rows [] t) t))) = t.
Proof.
  assert (Hf : List.length (map2 (starts_run contig) (previous_rows [] t) t) =
               List.length t).
  { rewrite map2_length; apply previous_rows_length. }
  apply assign_rows; [exact Hf|].
  unfold groupby_cumsum. rewrite cumsum_from_length, length_combine, length_map.
  rewrite Hf. apply Nat.min_id.
Qed.

Lemma classified_stream_rows m df :
  map row (classified_stream m df) = sorted_stream m df.
Proof.
  destruct m; simpl.
  - unfold Exact.assign_columns.
    rewrite exact_new_run_flags by exact (sorted_stream_sorted ExactMode df).
    apply assign_scan_rows.
  - unfold AtMost.le20_rows, AtMost.classify, AtMost.run_id_col.
    rewrite at_most_new_run_col. apply assign_scan_rows.
Qed.

Lemma trivially_sorted {A : Type} (l : list A) :
  StronglySorted (fun _ _ => True) l.
Proof.
  induction l; constructor; [assumption | apply Forall_forall; auto].
Qed.

Lemma run_key_sorted (l : list Classified) :
  StronglySorted (le_by key_cmp (fun c => key (row c))) l ->
  (forall k, StronglySorted (fun a b => (run_id a <= run_id b)%nat)
               (classified_group k l)) ->
  StronglySorted (le_by runkey_cmp run_key) l.
Proof.
  induction 1 as [|x t Hs IH Hall]; intros Hid.
  - constructor.
  - constructor.
    + apply IH. intros k. specialize (Hid k). unfold classified_group in *.
      rewrite group_rows_cons in Hid.
      destruct (cmp_eqb key_cmp k (key (row x))); [|exact Hid].
      inversion Hid. assumption.
    + rewrite Forall_forall in *. intros y Hy. specialize (Hall y Hy).
      unfold le_by, cmp_leb, runkey_cmp, pair_cmp, run_key, lex in *. simpl.
      destruct (key_cmp (key (row x)) (key (row y))) eqn:E;
        [|reflexivity | discriminate].
      apply (cmp_eq_iff _ key_cmp_order) in E.
      specialize (Hid (key (row x))). unfold classified_group in Hid.
      rewrite group_rows_cons, (cmp_eqb_refl _ key_cmp_order) in Hid.
      inversion Hid as [|? ? _ Hle]; subst. rewrite Forall_forall in Hle.
      assert (Hin : In y (group_rows key_cmp (fun c => key (row c))
                            (key (row x)) t)).
      { apply (group_rows_In _ key_cmp_order). auto. }
      specialize (Hle y Hin).
      destruct (Nat.compare_spec (run_id x) (run_id y)); try reflexivity. lia.
Qed.

Lemma classified_stream_sorted m df :
  StronglySorted (le_by runkey_cmp run_key) (classified_stream m df).
Proof.
  apply run_key_sorted.
  - apply (sorted_map key_cmp key row). rewrite classified_stream_rows.
    apply (sorted_weaken (le_by sortkey_cmp sort_key)).
    + exact sort_key_le_key.
    + apply sorted_stream_sorted.
  - intros k. rewrite classified_stream_group.
    apply (sorted_weaken
             (fun a b => (run_id a <= run_id b)%nat /\ True)); [tauto|].
    apply (scan_group_sorted (fun _ _ => True)). apply trivially_sorted.
Qed.

Lemma concat_singletons {A : Type} (gs : list (list A)) :
  (forall g, In g gs -> List.length g = 1%nat) ->
  gs = map (fun x => [x]) (concat gs).
Proof.
  induction gs as [|g gs IH]; intros H.
  - reflexivity.
  - assert (Hg := H g (or_introl eq_refl)).
    destruct g as [|x [|y g]]; try discriminate. simpl. f_equal.
    apply IH. intros g' Hg'. apply H. right. exact Hg'.
Qed.

Lemma singleton_runs_cells ei (gs : list (RunKey * list Classified)) :
  (forall g, In g gs ->
             exists c, snd g = [c] /\ cells (agg_run ei g) = row c) ->
  map (fun r => cells r) (map (agg_run ei) gs) = map row (concat (map snd gs)).
Proof.
  induction gs as [|g gs IH]; intros H.
  - reflexivity.
  - destruct (H g (or_introl eq_refl)) as [c [Ec Er]].
    rewrite !map_cons, Er, Ec. cbn [concat app map]. f_equal.
    apply IH. intros g' Hg'. apply H. right. exact Hg'.
Qed.

Lemma agg_min_one x : agg_min [x] = x.
Proof. destruct x; reflexivity. Qed.

Lemma agg_max_one x : agg_max [x] = x.
Proof. destruct x; reflexivity. Qed.

Lemma agg_first_one {V : Type} (x : option V) : agg_first [x] = x.
Proof. destruct x; reflexivity. Qed.

Lemma agg_run_one ei (c : Classified) :
  (exists z, Duration (row c) = Num z) ->
  (ei = false -> EventIndex (row c) = None) ->
  cells (agg_run ei (run_key c, [c])) = row c.
Proof.
  intros [z Ez] He. unfold agg_run. cbn [fst snd cells map run_key].
  rewrite agg_min_one, agg_max_one, !agg_first_one, Ez.
  unfold agg_sum. cbn [fold_right]. rewrite Z.add_0_r, <- Ez.
  destruct (row c) as [k s e d a i]. simpl in *.
  destruct ei; [reflexivity|]. rewrite (He eq_refl). reflexivity.
Qed.

Lemma stream_event_index m df r :
  In r (sorted_stream m df) -> has_EventIndex df = false ->
  EventIndex r = None.
Proof.
  intros H E. apply sorted_stream_In in H. destruct H as [H _].
  unfold normalize, records in H. rewrite map_map in H.
  apply in_map_iff in H. destruct H as [x [<- _]]. simpl. rewrite E.
  reflexivity.
Qed.

(** When no two rows were merged, the run table holds the rows of the
    mergeable stream, in the order of the stream. *)
Lemma unmerged_runs_are_the_stream m df :
  (forall r, In r (aggregate (has_EventIndex df) (classified_stream m df)) ->
             Run_SegmentsMerged r = 1%nat) ->
  map (fun r => cells r)
      (aggregate (has_EventIndex df) (classified_stream m df)) =
  sorted_stream m df.
Proof.
  intros Hone.
  set (ei := has_EventIndex df) in *. set (C := classified_stream m df) in *.
  set (GS := groupby runkey_cmp run_key C).
  assert (Hlen : forall g, In g (map snd GS) -> List.length g = 1%nat).
  { intros G HG. apply in_map_iff in HG. destruct HG as [g [<- Hg]].
    assert (Hr : In (agg_run ei g) (aggregate ei C)).
    { unfold aggregate. apply sort_values_In. apply in_map. exact Hg. }
    specialize (Hone _ Hr). unfold agg_run in Hone. simpl in Hone.
    rewrite count_sum_ones in Hone; [exact Hone|].
    intros c Hc. apply (classified_stream_segments m df).
    apply (groupby_In _ runkey_cmp_order) in Hg. destruct Hg as [_ Eg].
    rewrite Eg in Hc. apply (group_rows_In _ runkey_cmp_order) in Hc.
    exact (proj1 Hc). }
  assert (Hcat : concat (map snd GS) = C).
  { apply (concat_groupby _ runkey_cmp_order).
    apply classified_stream_sorted. }
  assert (Hcells : map (fun r => cells r) (map (agg_run ei) GS) =
                   sorted_stream m df).
  { rewrite singleton_runs_cells.
    - rewrite Hcat. apply classified_stream_rows.
    - intros g Hg.
      assert (Hl := Hlen (snd g) (in_map snd _ _ Hg)).
      apply (groupby_In _ runkey_cmp_order) in Hg. destruct Hg as [_ Eg].
      destruct g as [kn G]. simpl in *.
      destruct G as [|c [|c' G]]; try discriminate.
      exists c. split; [reflexivity|].
      assert (Hc : In c (group_rows runkey_cmp run_key kn C))
        by (rewrite <- Eg; left; reflexivity).
      destruct (run_member_in_stream m df kn c Hc) as [Hs <-].
      apply agg_run_one.
      + apply sorted_stream_In in Hs.
        destruct (mergeable_duration m _ (proj2 Hs)) as [z [Ez _]].
        exists z. exact Ez.
      + exact (stream_event_index m df _ Hs). }
  unfold aggregate. fold GS.
  rewrite (sorted_sort_values sortkey_cmp (fun r => sort_key (cells r)));
    [exact Hcells|].
  apply (sorted_map sortkey_cmp sort_key (fun r => cells r)).
  rewrite Hcells. apply sorted_stream_sorted.
Qed.

Lemma to_numeric_of_num x : to_numeric (of_num x) = x.
Proof. destruct x; reflexivity. Qed.

Lemma normalize_runs_as_input ei rs :
  (forall r, In r rs -> ei = false -> EventIndex (cells r) = None) ->
  normalize (runs_as_input (mkFrame ei rs)) = map (fun r => cells r) rs.
Proof.
  intros H. unfold normalize, records, runs_as_input. simpl.
  rewrite !map_map. apply map_ext_in. intros r Hr.
  unfold normalize_row, run_as_row. simpl. rewrite !to_numeric_of_num.
  destruct (cells r) as [k s e d a i] eqn:E. simpl.
  destruct ei; [reflexivity|].
  specialize (H r Hr eq_refl). rewrite E in H. simpl in H. subst i.
  reflexivity.
Qed.

Lemma reset_with_index {R : Type} (l : list R) : reset_index (with_index l) = l.
Proof.
  unfold reset_index, with_index. generalize 0%nat.
  induction l as [|x l IH]; intros s; simpl; [|rewrite IH]; reflexivity.
Qed.

Lemma select_all {R : Type} (mask : R -> bool) (l : list (Labelled R)) :
  (forall ir, In ir l -> mask (snd ir) = true) -> select mask l = l.
Proof.
  intros H. unfold select. apply forallb_filter_id. apply forallb_forall.
  exact H.
Qed.

Lemma select_none {R : Type} (mask : R -> bool) (l : list (Labelled R)) :
  (forall ir, In ir l -> mask (snd ir) = false) -> select mask l = [].
Proof.
  unfold select. induction l as [|x l IH]; intros H; simpl.
  - reflexivity.
  - rewrite (H x (or_introl eq_refl)). apply IH.
    intros y Hy. apply H. right. exact Hy.
Qed.

Lemma mergeable_not_kept_raw m r : mergeable m r = true -> kept_raw m r = false.
Proof.
  destruct m; simpl.
  - rewrite exact_masks_complementary. intros ->. reflexivity.
  - intros H. destruct (AtMost.gt_target r) eqn:E; [|reflexivity].
    destruct (at_most_masks_exclusive r H E).
Qed.

Lemma mergeable_split_select m df :
  mergeable_split m df = select (mergeable m) (with_index (normalize df)).
Proof. destruct m; reflexivity. Qed.

Lemma pass_through_select m df :
  pass_through m df = select (kept_raw m) (with_index (normalize df)).
Proof. destruct m; reflexivity. Qed.

Lemma with_index_snd_In {R : Type} (l : list R) ir :
  In ir (with_index l) -> In (snd ir) l.
Proof.
  destruct ir as [i r]. intros H. apply with_index_In in H.
  exact (nth_error_In _ _ H).
Qed.

Lemma classified_stream_of_sorted m df df' :
  sorted_stream m df' = sorted_stream m df ->
  classified_stream m df' = classified_stream m df.
Proof.
  destruct m; simpl; unfold AtMost.le20_rows; intros ->; reflexivity.
Qed.

(** What the merge returns depends on the sheet through the sorted
    mergeable stream, the pass-through rows and the presence of the
    [EventIndex] column only. *)
Lemma merge_congruent m df df' runs cl raw :
  merge m df = Returned (runs, cl, raw) ->
  has_EventIndex df' = has_EventIndex df ->
  sorted_stream m df' = sorted_stream m df ->
  merge m df' = Returned (runs, cl, pass_through m df').
Proof.
  intros H Hei Hs.
  pose proof (classified_stream_of_sorted m df df' Hs) as Hcl.
  destruct m.
  - apply exact_merge_returned in H.
    destruct H as [Hev [Hcol [-> [_ ->]]]]. simpl.
    rewrite exact_merge_value.
    + rewrite Hcl. reflexivity.
    + congruence.
    + simpl in Hs. rewrite Hs. exact Hcol.
  - apply merge_returned in H. destruct H as [-> [_ ->]]. simpl in *.
    unfold AtMost.merge_consecutive_aoi_duration_le20, AtMost.merged_runs.
    rewrite Hei, Hcl. reflexivity.
Qed.

(** C7 (as amended).  Feeding MergedRuns back through the same merge
    reproduces the run table when no Run merged two rows (every
    SegmentsMerged is 1): the merge then returns the same Runs and the
    same classified stream, and passes nothing through.  A Run that
    merged rows is changed by the second pass. *)
Theorem C7_unmerged_runs_are_a_fixed_point m df runs cl raw :
  merge m df = Returned (runs, cl, raw) ->
  (forall r, In r (rows runs) -> Run_SegmentsMerged r = 1%nat) ->
  merge m (runs_as_input runs) = Returned (runs, cl, []).
Proof.
  intros H Hone. pose proof (merge_returned _ _ _ _ _ H) as [Ecl [_ Eruns]].
  rewrite Eruns in Hone. simpl in Hone.
  assert (Hcells : map (fun r => cells r) (rows runs) = sorted_stream m df).
  { rewrite Eruns. exact (unmerged_runs_are_the_stream m df Hone). }
  assert (Hnorm : normalize (runs_as_input runs) = sorted_stream m df).
  { rewrite Eruns at 1. rewrite normalize_runs_as_input.
    - rewrite Eruns in Hcells. exact Hcells.
    - intros r Hr E. apply (stream_event_index m df); [|exact E].
      rewrite <- Hcells, Eruns. apply (in_map (fun x => cells x)). exact Hr. }
  assert (Hm : forall ir, In ir (with_index (sorted_stream m df)) ->
                          mergeable m (snd ir) = true).
  { intros ir Hir. apply with_index_snd_In in Hir.
    apply sorted_stream_In in Hir. tauto. }
  assert (Hsorted : sorted_stream m (runs_as_input runs) = sorted_stream m df).
  { rewrite sorted_stream_sort, mergeable_split_select, Hnorm.
    rewrite select_all by exact Hm. rewrite reset_with_index.
    apply (sorted_sort_values sortkey_cmp). apply sorted_stream_sorted. }
  rewrite (merge_congruent m df (runs_as_input runs) runs cl raw H).
  - rewrite pass_through_select, Hnorm.
    rewrite select_none; [reflexivity|].
    intros ir Hir. apply mergeable_not_kept_raw. exact (Hm ir Hir).
  - rewrite Eruns. reflexivity.
  - exact Hsorted.
Qed.

Lemma C7_unmerged_runs_are_a_fixed_point_witness :
  merge AtMostMode (runs_as_input (AtMost.merged_runs sheet_apart)) =
  Returned (AtMost.merged_runs sheet_apart, AtMost.le20_rows sheet_apart, []).
Proof.
  apply (C7_unmerged_runs_are_a_fixed_point AtMostMode sheet_apart
           _ _ (AtMost.gt20_rows sheet_apart) eq_refl).
  intros r Hr. vm_compute in Hr.
  destruct Hr as [<- | [<- | [<- | []]]]; reflexivity.
Defined.

(** C7 (as stated) fails on the boundary example: its first Run has
    Duration 40, so the second pass routes it to the pass-through stream
    and returns the [Ice] Run alone. *)
Lemma C7_merged_runs_are_not_a_fixed_point :
  AtMost.merged_runs (runs_as_input (AtMost.merged_runs sheet_boundary)) <>
  AtMost.merged_runs sheet_boundary.
Proof. vm_compute. discriminate. Qed.

(** * Further properties of the scripts *)

(** ** Accounting for the rows of the sheet *)

Lemma with_index_length {R : Type} (l : list R) :
  List.length (with_index l) = List.length l.
Proof.
  unfold with_index. generalize 0%nat.
  induction l as [|x l IH]; intros s; simpl; [|rewrite IH]; reflexivity.
Qed.

Lemma select_reset_index {R : Type} (mask : R -> bool) (l : list (Labelled R)) :
  reset_index (select mask l) = filter mask (reset_index l).
Proof.
  unfold reset_index, select. induction l as [|x l IH]; simpl.
  - reflexivity.
  - destruct (mask (snd x)); simpl; rewrite IH; reflexivity.
Qed.

Lemma select_length {R : Type} (mask : R -> bool) (l : list R) :
  List.length (select mask (with_index l)) = List.length (filter mask l).
Proof.
  rewrite <- (reset_with_index l) at 2.
  rewrite <- select_reset_index. unfold reset_index.
  symmetry. apply length_map.
Qed.

Lemma filter_three_way {A : Type} (p q n : A -> bool) l :
  (forall x, In x l ->
     (if p x then 1 else 0) + (if q x then 1 else 0) + (if n x then 1 else 0)
     = 1)%nat ->
  (List.length (filter p l) + List.length (filter q l) +
   List.length (filter n l) = List.length l)%nat.
Proof.
  induction l as [|x l IH]; intros H.
  - reflexivity.
  - specialize (IH (fun y Hy => H y (or_intror Hy))).
    specialize (H x (or_introl eq_refl)). simpl.
    destruct (p x), (q x), (n x); simpl in *; lia.
Qed.

Lemma normalize_length df : List.length (normalize df) = List.length (rows df).
Proof. unfold normalize, records. rewrite !length_map. reflexivity. Qed.

(** X1.  Every row of the sheet is in exactly one of: the mergeable
    stream, the pass-through stream, or, in at-most mode only, the rows
    whose Duration is not a number, which the at-most split drops. *)
Theorem split_accounts_for_every_row m df :
  (List.length (mergeable_split m df) + List.length (pass_through m df) +
   match m with
   | ExactMode => 0
   | AtMostMode =>
       List.length (filter (fun r => is_nan (Duration r)) (normalize df))
   end = List.length (rows df))%nat.
Proof.
  rewrite <- normalize_length, mergeable_split_select, pass_through_select.
  rewrite !select_length. destruct m.
  - rewrite Nat.add_0_r.
    rewrite <- (filter_three_way (mergeable ExactMode) (kept_raw ExactMode)
                  (fun _ => false) (normalize df)).
    + assert (E : filter (fun _ : NRow => false) (normalize df) = []).
      { induction (normalize df); simpl; auto. }
      rewrite E. simpl. lia.
    + intros x _. simpl. rewrite exact_masks_complementary.
      destruct (Exact.eq_target x); reflexivity.
  - apply filter_three_way. intros x _. simpl.
    unfold AtMost.le_target, AtMost.gt_target.
    destruct (Duration x) as [|z]; simpl; [reflexivity|].
    destruct (Z.leb_spec z DURATION_TARGET), (Z.ltb_spec DURATION_TARGET z);
      simpl; lia.
Qed.

(** ** The run table *)

Lemma aggregate_sorted ei cl :
  StronglySorted (le_by sortkey_cmp (fun r => sort_key (cells r)))
    (aggregate ei cl).
Proof. apply sort_values_sorted. exact sortkey_cmp_order. Qed.

Lemma aggregate_perm ei cl :
  Permutation (aggregate ei cl)
    (map (agg_run ei) (groupby runkey_cmp run_key cl)).
Proof. apply sort_values_perm. Qed.

Lemma agg_run_key ei gs :
  map (fun r => (key (cells r), Run_id r)) (map (agg_run ei) gs) = map fst gs.
Proof.
  rewrite map_map. apply map_ext. intros [[k n] g]. reflexivity.
Qed.

(** X2.  The run table is sorted by the group columns, then Start, then
    Stop (nulls last), and no two of its rows have the same group and
    run number. *)
Theorem run_table_is_sorted_and_keyed m df runs cl raw :
  merge m df = Returned (runs, cl, raw) ->
  StronglySorted (le_by sortkey_cmp (fun r => sort_key (cells r))) (rows runs) /\
  NoDup (map (fun r => (key (cells r), Run_id r)) (rows runs)).
Proof.
  intros H. apply merge_returned in H. destruct H as [_ [_ ->]]. simpl.
  split; [apply aggregate_sorted|].
  apply (Permutation_NoDup (l := map fst (groupby runkey_cmp run_key
                                             (classified_stream m df)))).
  - rewrite <- (agg_run_key (has_EventIndex df)).
    apply Permutation_map, Permutation_sym, aggregate_perm.
  - rewrite groupby_keys. apply group_keys_NoDup. exact runkey_cmp_order.
Qed.

Lemma run_table_is_sorted_and_keyed_witness :
  NoDup (map (fun r => (key (cells r), Run_id r))
           (rows (AtMost.merged_runs sheet_apart))).
Proof.
  exact (proj2 (run_table_is_sorted_and_keyed AtMostMode sheet_apart
                  _ _ _ eq_refl)).
Defined.

(** ** The combined timeline *)

Lemma process_one_file_sheets m df wb :
  process_one_file m df = Returned wb ->
  Timeline_Combined wb =
    combine_timeline (merged_source m) (raw_source m) (rows (MergedRuns wb))
      (pass_through m df) /\
  exists cl, merge m df = Returned (MergedRuns wb, cl, pass_through m df).
Proof.
  destruct m; simpl.
  - unfold Exact.process_one_file.
    destruct (Exact.merge_consecutive_aoi df) as [[[runs cl] raw]|e] eqn:E;
      [|discriminate].
    destruct (exact_merge_returned _ _ _ _ E) as [_ [_ [_ [Hraw _]]]].
    subst raw. intros H. inversion H. subst. simpl.
    split; [reflexivity|]. exists cl. reflexivity.
  - intros H. inversion H. subst. simpl.
    split; [reflexivity|]. eexists. reflexivity.
Qed.

Lemma constant_key_sorted {R K : Type} (cmp : K -> K -> comparison)
  (col : R -> K) v l :
  OrderCmp cmp -> (forall x, In x l -> col x = v) ->
  StronglySorted (le_by cmp col) l.
Proof.
  intros Hc. induction l as [|x l IH]; intros H; constructor.
  - apply IH. intros y Hy. apply H. right. exact Hy.
  - apply Forall_forall. intros y Hy. unfold le_by.
    rewrite (H x (or_introl eq_refl)), (H y (or_intror Hy)).
    apply (cmp_leb_refl _ Hc).
Qed.

(** A stable sort keeps the rows of equal sort key in their order. *)
Lemma sort_values_ties {R K : Type} (cmp : K -> K -> comparison)
  (col : R -> K) v l :
  OrderCmp cmp ->
  group_rows cmp col v (sort_values cmp col l) = group_rows cmp col v l.
Proof.
  intros Hc. rewrite (sort_values_group _ Hc).
  apply (sorted_sort_values cmp). apply (constant_key_sorted cmp col v _ Hc).
  intros x Hx. apply (group_rows_In _ Hc) in Hx. tauto.
Qed.

(** X3.  The combined timeline has one row per Run and one row per
    pass-through row, and is sorted by the group columns, then Start,
    then Stop. *)
Theorem timeline_is_complete_and_sorted m df wb :
  process_one_file m df = Returned wb ->
  List.length (Timeline_Combined wb) =
    (List.length (rows (MergedRuns wb)) + List.length (pass_through m df))%nat /\
  StronglySorted (le_by sortkey_cmp (fun t => sort_key (tl_cells t)))
    (Timeline_Combined wb).
Proof.
  intros H. destruct (process_one_file_sheets m df wb H) as [-> _].
  unfold combine_timeline. split.
  - rewrite sort_values_length, length_app, !length_map. reflexivity.
  - apply sort_values_sorted. exact sortkey_cmp_order.
Qed.

Lemma timeline_is_complete_and_sorted_witness :
  List.length (Timeline_Combined (AtMost.process_one_file sheet_mixed)) =
  (List.length (rows (AtMost.merged_runs sheet_mixed)) +
   List.length (AtMost.gt20_rows sheet_mixed))%nat.
Proof.
  exact (proj1 (timeline_is_complete_and_sorted AtMostMode sheet_mixed
                  _ eq_refl)).
Defined.

(** X4.  Ties in the timeline are broken by the order of concatenation:
    among the rows with one and the same group, Start and Stop, the Runs
    come first, in the order of the run table, then the raw rows, in the
    order of the input sheet. *)
Theorem timeline_ties_keep_runs_before_raw_rows m df wb v :
  process_one_file m df = Returned wb ->
  group_rows sortkey_cmp (fun t => sort_key (tl_cells t)) v
    (Timeline_Combined wb) =
  map (merged_out (merged_source m))
    (group_rows sortkey_cmp (fun r => sort_key (cells r)) v
       (rows (MergedRuns wb))) ++
  map (raw_out (raw_source m))
    (group_rows sortkey_cmp (fun ir => sort_key (snd ir)) v
       (pass_through m df)).
Proof.
  intros H. destruct (process_one_file_sheets m df wb H) as [-> _].
  unfold combine_timeline.
  rewrite (sort_values_ties _ _ _ _ sortkey_cmp_order).
  rewrite group_rows_app. unfold group_rows.
  rewrite !filter_map_commute. reflexivity.
Qed.

Lemma timeline_ties_keep_runs_before_raw_rows_witness :
  group_rows sortkey_cmp (fun t => sort_key (tl_cells t))
    (k0, (Num 0, Num 20))
    (Timeline_Combined (AtMost.process_one_file sheet_tie)) =
  [ merged_out "Merged<=20msRun"
      (mkRun (normalize_row (interval k0 0 20 20 "Puck" 2)) 1 1);
    raw_out "Raw>20msRow"
      (0%nat, normalize_row (interval k0 0 20 30 "Ice" 1)) ].
Proof.
  exact (timeline_ties_keep_runs_before_raw_rows AtMostMode sheet_tie _
           (k0, (Num 0, Num 20)) eq_refl).
Defined.

Lemma filter_app_split {A : Type} (p : A -> bool) l1 l2 :
  (forall x, In x l1 -> p x = true) -> (forall x, In x l2 -> p x = false) ->
  filter p (l1 ++ l2) = l1.
Proof.
  intros H1 H2. rewrite filter_app.
  rewrite (forallb_filter_id p l1) by (apply forallb_forall; exact H1).
  assert (E : filter p l2 = []).
  { induction l2 as [|x l2 IH]; simpl; [reflexivity|].
    rewrite (H2 x (or_introl eq_refl)). apply IH.
    intros y Hy. apply H2. right. exact Hy. }
  rewrite E. apply app_nil_r.
Qed.

(** X5.  The rows of the timeline that come from the run table are the
    rows of the MergedRuns sheet, in the same order, each tagged with the
    merged source, its run number and its SegmentsMerged. *)
Theorem timeline_lists_the_runs_in_run_table_order m df wb :
  process_one_file m df = Returned wb ->
  filter is_run_row (Timeline_Combined wb) =
  map (merged_out (merged_source m)) (rows (MergedRuns wb)).
Proof.
  intros H. destruct (process_one_file_sheets m df wb H) as [-> [cl Hm]].
  destruct (run_table_is_sorted_and_keyed m df _ _ _ Hm) as [Hs _].
  unfold combine_timeline.
  rewrite (sort_values_filter _ sortkey_cmp_order).
  rewrite filter_app_split.
  - apply (sorted_sort_values sortkey_cmp).
    apply (sorted_map sortkey_cmp (fun t => sort_key (tl_cells t))
             (merged_out (merged_source m))). exact Hs.
  - intros t Ht. apply in_map_iff in Ht. destruct Ht as [r [<- _]].
    reflexivity.
  - intros t Ht. apply in_map_iff in Ht. destruct Ht as [r [<- _]].
    reflexivity.
Qed.

Lemma timeline_lists_the_runs_in_run_table_order_witness :
  filter is_run_row (Timeline_Combined (AtMost.process_one_file sheet_apart)) =
  map (merged_out (merged_source AtMostMode))
    (rows (AtMost.merged_runs sheet_apart)).
Proof.
  exact (timeline_lists_the_runs_in_run_table_order AtMostMode sheet_apart _
           eq_refl).
Defined.

(** ** Run numbers *)

Lemma flags_set_cons b bs :
  flags_set (b :: bs) = if b then S (flags_set bs) else flags_set bs.
Proof. unfold flags_set. simpl. destruct b; reflexivity. Qed.

Lemma scan_from_id_range contig g :
  forall prev m n,
  (In n (map run_id (scan_from contig prev m g)) \/ n = m) <->
  (m <= n <= m + flags_set (map new_run (scan_from contig prev m g)))%nat.
Proof.
  induction g as [|r g IH]; intros prev m n.
  - simpl. unfold flags_set. simpl. split; [intros [[]|H] | intros H]; lia.
  - rewrite scan_from_cons.
    generalize (starts_run contig (Some prev) r). intros f.
    cbn [map run_id new_run]. rewrite flags_set_cons.
    specialize (IH r (count_flag f m) n). simpl In.
    destruct IH as [IH1 IH2].
    destruct f; simpl count_flag in *; split.
    + intros [[H|H]|H]; try lia. specialize (IH1 (or_introl H)). lia.
    + intros H. destruct (Nat.eq_dec n m) as [E|E]; [right; exact E|].
      destruct IH2 as [H'|H']; [lia | left; right; exact H' | left; left; lia].
    + intros [[H|H]|H]; try lia. specialize (IH1 (or_introl H)). lia.
    + intros H. destruct IH2 as [H'|H']; [lia | left; right; exact H' | right; exact H'].
Qed.

Lemma scan_group_id_range contig g n :
  In n (map run_id (scan_group contig g)) <->
  (1 <= n <= flags_set (map new_run (scan_group contig g)))%nat.
Proof.
  destruct g as [|r g].
  - simpl. unfold flags_set. simpl. split; [intros [] | lia].
  - cbn [scan_group map run_id new_run]. rewrite flags_set_cons.
    destruct (scan_from_id_range contig g r 1 n) as [H1 H2]. simpl In.
    split.
    + intros [H|H]; [lia|]. specialize (H1 (or_introl H)). lia.
    + intros H. destruct H2 as [H'|H']; [lia | right; exact H' | left; lia].
Qed.

Lemma run_in_table m df k n :
  (exists r, In r (aggregate (has_EventIndex df) (classified_stream m df)) /\
             key (cells r) = k /\ Run_id r = n) <->
  In n (map run_id (classified_group k (classified_stream m df))).
Proof.
  rewrite in_map_iff. split.
  - intros [r [Hr [Ek En]]]. apply aggregate_In in Hr.
    destruct Hr as [c [Hc ->]]. simpl in Ek, En. exists c. split; [exact En|].
    apply (group_rows_In _ key_cmp_order). auto.
  - intros [c [En Hc]]. apply (group_rows_In _ key_cmp_order) in Hc.
    destruct Hc as [Hc Ek].
    exists (agg_run (has_EventIndex df)
              (run_key c,
               group_rows runkey_cmp run_key (run_key c) (classified_stream m df))).
    split; [|split; [exact Ek | exact En]].
    apply aggregate_In. exists c. auto.
Qed.

Lemma nodup_range_length (l : list nat) N :
  NoDup l -> (forall n, In n l <-> (1 <= n <= N)%nat) -> List.length l = N.
Proof.
  intros Hnd H. rewrite <- (length_seq N 1%nat). apply Permutation_length.
  apply NoDup_Permutation; [exact Hnd | apply seq_NoDup|].
  intros n. rewrite H, in_seq. lia.
Qed.

(** X6.  The Runs of a group are numbered 1, 2, ..., N without gaps,
    where N, the number of Runs of the group, is the number of new-run
    flags set in the group. *)
Theorem run_numbers_are_consecutive m df runs cl raw k :
  merge m df = Returned (runs, cl, raw) ->
  (forall n,
     (exists r, In r (rows runs) /\ key (cells r) = k /\ Run_id r = n) <->
     (1 <= n <= flags_set (map new_run (classified_group k cl)))%nat) /\
  List.length (runs_of_group k (rows runs)) =
    flags_set (map new_run (classified_group k cl)).
Proof.
  intros H. apply merge_returned in H. destruct H as [-> [_ ->]]. simpl.
  assert (Hiff : forall n,
    (exists r, In r (aggregate (has_EventIndex df) (classified_stream m df)) /\
               key (cells r) = k /\ Run_id r = n) <->
    (1 <= n <= flags_set (map new_run
                            (classified_group k (classified_stream m df))))%nat).
  { intros n. rewrite run_in_table, classified_stream_group.
    apply scan_group_id_range. }
  split; [exact Hiff|].
  rewrite (Permutation_length
             (runs_of_group_aggregate (has_EventIndex df) k
                (classified_stream m df))).
  rewrite length_map.
  match goal with |- List.length ?l = _ => set (ks := l) end.
  assert (Hks : forall kn, In kn ks <->
                  fst kn = k /\ In kn (map run_key (classified_stream m df))).
  { intros kn. unfold ks. rewrite filter_In.
    rewrite (group_keys_In _ runkey_cmp_order), key_eqb_eq.
    split; intros [H1 H2]; split; try assumption; symmetry; assumption. }
  transitivity (List.length (map (@snd GroupKey nat) ks));
    [symmetry; apply length_map|]. apply nodup_range_length.
  - assert (Hnd : NoDup ks).
    { apply NoDup_filter. apply group_keys_NoDup. exact runkey_cmp_order. }
    assert (Hfst : forall kn, In kn ks -> fst kn = k)
      by (intros kn Hkn; apply Hks in Hkn; tauto).
    clear Hks. induction Hnd as [|kn l Hkn Hl IH]; simpl; constructor.
    + intros Hin. apply in_map_iff in Hin. destruct Hin as [kn' [E Hin]].
      apply Hkn. replace kn with kn'; [exact Hin|].
      destruct kn as [a b], kn' as [a' b']. simpl in E. subst b'.
      f_equal.
      transitivity k; [apply (Hfst (a', b)) | symmetry; apply (Hfst (a, b))];
        simpl; auto.
    + apply IH. intros x Hx. apply Hfst. right. exact Hx.
  - intros n. rewrite <- Hiff, in_map_iff. split.
    + intros [[k' n'] [E Hin]]. simpl in E. subst n'.
      apply Hks in Hin. destruct Hin as [Ek Hin]. simpl in Ek. subst k'.
      apply in_map_iff in Hin. destruct Hin as [c [Ec Hc]].
      apply run_in_table. apply in_map_iff. exists c.
      unfold run_key in Ec. inversion Ec. split; [reflexivity|].
      apply (group_rows_In _ key_cmp_order). auto.
    + intros Hr. apply run_in_table in Hr. apply in_map_iff in Hr.
      destruct Hr as [c [En Hc]]. apply (group_rows_In _ key_cmp_order) in Hc.
      destruct Hc as [Hc Ek]. exists (run_key c). split; [exact En|].
      apply Hks. split; [exact Ek | apply in_map; exact Hc].
Qed.

Lemma run_numbers_are_consecutive_witness :
  List.length (runs_of_group k0 (rows (AtMost.merged_runs sheet_boundary))) =
  flags_set (map new_run (classified_group k0 (AtMost.le20_rows sheet_boundary))).
Proof.
  exact (proj2 (run_numbers_are_consecutive AtMostMode sheet_boundary
                  _ _ _ k0 eq_refl)).
Defined.

(** ** Durations *)

Lemma agg_sum_value xs : agg_sum xs = Num (sum_values xs).
Proof.
  unfold agg_sum, sum_values. f_equal.
  induction xs as [|[|z] xs IH]; simpl; rewrite ?IH; reflexivity.
Qed.

Lemma sum_values_bound (bound : Z) xs :
  (forall x, In x xs -> exists z, x = Num z /\ z <= bound) ->
  sum_values xs <= bound * Z.of_nat (List.length xs).
Proof.
  unfold sum_values. induction xs as [|x xs IH]; intros H.
  - simpl. lia.
  - destruct (H x (or_introl eq_refl)) as [z [-> Hz]].
    specialize (IH (fun y Hy => H y (or_intror Hy))).
    cbn [map fold_right num_value List.length]. lia.
Qed.

Lemma sum_values_constant (v : Z) xs :
  (forall x, In x xs -> x = Num v) ->
  sum_values xs = v * Z.of_nat (List.length xs).
Proof.
  unfold sum_values. induction xs as [|x xs IH]; intros H.
  - simpl. lia.
  - rewrite (H x (or_introl eq_refl)).
    specialize (IH (fun y Hy => H y (or_intror Hy))).
    cbn [map fold_right num_value List.length]. lia.
Qed.

(** X7.  The Duration of a Run is a number, at most T times its
    SegmentsMerged; in exact mode it is exactly T times SegmentsMerged. *)
Theorem run_duration_is_bounded_by_segments m df runs cl raw r :
  merge m df = Returned (runs, cl, raw) ->
  In r (rows runs) ->
  exists z,
    Duration (cells r) = Num z /\
    z <= DURATION_TARGET * Z.of_nat (Run_SegmentsMerged r) /\
    (m = ExactMode -> z = DURATION_TARGET * Z.of_nat (Run_SegmentsMerged r)).
Proof.
  intros H Hr. apply merge_returned in H. destruct H as [-> [_ ->]].
  simpl in Hr. apply aggregate_In in Hr. destruct Hr as [c [Hc ->]].
  set (G := group_rows runkey_cmp run_key (run_key c) (classified_stream m df)).
  assert (Hstream : forall x, In x (map Duration (map row G)) ->
            exists y, In y (sorted_stream m df) /\ x = Duration y).
  { intros x Hx. rewrite map_map in Hx. apply in_map_iff in Hx.
    destruct Hx as [c' [<- Hc']].
    destruct (run_member_in_stream m df _ c' Hc') as [Hs _]. eauto. }
  assert (Hseg : Run_SegmentsMerged
                   (agg_run (has_EventIndex df) (run_key c, G)) =
                 List.length (map Duration (map row G))).
  { unfold agg_run. cbn [Run_SegmentsMerged snd].
    rewrite count_sum_ones, !length_map; [reflexivity|].
    intros x Hx. apply (classified_stream_segments m df).
    apply (group_rows_In _ runkey_cmp_order) in Hx. tauto. }
  exists (sum_values (map Duration (map row G))).
  split; [apply agg_sum_value|]. rewrite Hseg. split.
  - apply sum_values_bound. intros x Hx.
    destruct (Hstream x Hx) as [y [Hy ->]]. apply sorted_stream_In in Hy.
    exact (mergeable_duration m y (proj2 Hy)).
  - intros ->. apply sum_values_constant. intros x Hx.
    destruct (Hstream x Hx) as [y [Hy ->]]. apply sorted_stream_In in Hy.
    exact (exact_duration y (proj2 Hy)).
Qed.

Lemma run_duration_is_bounded_by_segments_witness :
  exists z,
    Num 40 = Num z /\ z <= DURATION_TARGET * Z.of_nat 2 /\
    (AtMostMode = ExactMode -> z = DURATION_TARGET * Z.of_nat 2).
Proof.
  exact (run_duration_is_bounded_by_segments AtMostMode sheet_boundary _ _ _
           (mkRun (mkRow k0 (Num 0) (Num 40) (Num 40) (Some "Puck"%string)
                     (Some 1)) 1 2)
           eq_refl (or_introl eq_refl)).
Defined.

(** Sums over the groups of a frame. *)
Section GroupSums.

Context {R K : Type} (cmp : K -> K -> comparison) (Hc : OrderCmp cmp).
Variable col : R -> K.
Variable weight : R -> Z.

Lemma total_groups_cons (f f0 : K -> Z) (d : K -> Z) ks :
  (forall k, f k = d k + f0 k) ->
  fold_right Z.add 0 (map f ks) =
  fold_right Z.add 0 (map d ks) + fold_right Z.add 0 (map f0 ks).
Proof.
  intros H. induction ks as [|k ks IH]; simpl; [reflexivity|].
  rewrite IH, H. lia.
Qed.

Lemma total_indicator_none a c ks :
  ~ In c ks ->
  fold_right Z.add 0 (map (fun k => if cmp_eqb cmp k c then a else 0) ks) = 0.
Proof.
  induction ks as [|k ks IH]; simpl; intros H; [reflexivity|].
  rewrite IH by tauto.
  destruct (cmp_eqb cmp k c) eqn:E; [|reflexivity].
  apply (cmp_eqb_eq _ Hc) in E. tauto.
Qed.

Lemma total_indicator_once (p : K -> bool) a c ks :
  NoDup ks -> In c ks ->
  fold_right Z.add 0
    (map (fun k => if cmp_eqb cmp k c then a else 0) (filter p ks)) =
  if p c then a else 0.
Proof.
  induction 1 as [|k ks Hk Hks IH]; simpl; intros Hin; [tauto|].
  destruct Hin as [-> | Hin].
  - destruct (p c) eqn:Pc.
    + simpl. rewrite (cmp_eqb_refl _ Hc).
      rewrite total_indicator_none; [lia|].
      intros H. apply filter_In in H. tauto.
    + apply total_indicator_none. intros H. apply filter_In in H. tauto.
  - assert (E : cmp_eqb cmp k c = false).
    { apply (cmp_eqb_neq _ Hc). intros ->. tauto. }
    destruct (p k); [|exact (IH Hin)].
    simpl. rewrite E. exact (IH Hin).
Qed.

(** The totals of the groups add up to the total of the frame. *)
Lemma total_of_groups (p : K -> bool) ks l :
  NoDup ks -> (forall x, In x l -> In (col x) ks) ->
  fold_right Z.add 0
    (map (fun k => total weight (group_rows cmp col k l)) (filter p ks)) =
  total weight (filter (fun x => p (col x)) l).
Proof.
  intros Hnd. induction l as [|x l IH]; intros Hin.
  - simpl. unfold total. simpl.
    induction (filter p ks) as [|k s IHs]; simpl; auto.
  - rewrite (total_groups_cons _
               (fun k => total weight (group_rows cmp col k l))
               (fun k => if cmp_eqb cmp k (col x) then weight x else 0)).
    + rewrite total_indicator_once by (try apply Hin; try left; auto).
      rewrite IH by (intros y Hy; apply Hin; right; exact Hy).
      simpl. destruct (p (col x)); unfold total; simpl; lia.
    + intros k. rewrite group_rows_cons.
      destruct (cmp_eqb cmp k (col x)); unfold total; simpl; lia.
Qed.

End GroupSums.

Lemma total_perm {A : Type} (w : A -> Z) l1 l2 :
  Permutation l1 l2 -> total w l1 = total w l2.
Proof. unfold total. induction 1; simpl; lia. Qed.

Lemma total_sum_values {A : Type} (f : A -> num) l :
  total (fun x => num_value (f x)) l = sum_values (map f l).
Proof. unfold total, sum_values. rewrite map_map. reflexivity. Qed.

(** X8.  Merging conserves the Duration of every group: the Durations of
    the Runs of a group add up to the Durations of its mergeable rows. *)
Theorem merging_conserves_group_duration m df runs cl raw k :
  merge m df = Returned (runs, cl, raw) ->
  sum_values (map (fun r => Duration (cells r)) (runs_of_group k (rows runs))) =
  sum_values (map (fun c => Duration (row c)) (classified_group k cl)).
Proof.
  intros H. apply merge_returned in H. destruct H as [-> [_ ->]]. simpl.
  rewrite <- !total_sum_values.
  rewrite (total_perm _ _ _
             (runs_of_group_aggregate (has_EventIndex df) k
                (classified_stream m df))).
  unfold total at 1. rewrite map_map.
  rewrite (map_ext _
             (fun kn => total (fun c => num_value (Duration (row c)))
                          (group_rows runkey_cmp run_key kn
                             (classified_stream m df)))).
  - rewrite (total_of_groups _ runkey_cmp_order run_key
               (fun c => num_value (Duration (row c)))
               (fun kn => key_eqb k (fst kn))).
    + reflexivity.
    + apply group_keys_NoDup. exact runkey_cmp_order.
    + intros c Hc. apply group_keys_In; [exact runkey_cmp_order|].
      apply in_map. exact Hc.
  - intros kn. unfold agg_run. cbn [cells Duration snd].
    rewrite agg_sum_value. cbn [num_value].
    rewrite total_sum_values, map_map. reflexivity.
Qed.

Lemma merging_conserves_group_duration_witness :
  sum_values (map (fun r => Duration (cells r))
                (runs_of_group k0 (rows (AtMost.merged_runs sheet_boundary)))) =
  sum_values (map (fun c => Duration (row c))
                (classified_group k0 (AtMost.le20_rows sheet_boundary))).
Proof.
  exact (merging_conserves_group_duration AtMostMode sheet_boundary _ _ _ k0
           eq_refl).
Defined.

(** ** Where a run starts *)

Lemma sorted_filter_rel {A : Type} (P : A -> A -> Prop) (p : A -> bool) l :
  StronglySorted P l -> StronglySorted P (filter p l).
Proof.
  induction 1 as [|x t Hs IH Hall]; simpl; [constructor|].
  destruct (p x); [|exact IH]. constructor; [exact IH|].
  rewrite Forall_forall in *. intros y Hy. apply filter_In in Hy.
  apply Hall. tauto.
Qed.

Lemma sorted_map_rel {A B : Type} (P : B -> B -> Prop) (f : A -> B) l :
  StronglySorted (fun a b => P (f a) (f b)) l -> StronglySorted P (map f l).
Proof.
  induction 1 as [|x t Hs IH Hall]; simpl; constructor; [exact IH|].
  rewrite Forall_forall in *. intros y Hy. apply in_map_iff in Hy.
  destruct Hy as [a [<- Ha]]. exact (Hall a Ha).
Qed.

Lemma agg_min_all_nan xs : (forall x, In x xs -> x = NaN) -> agg_min xs = NaN.
Proof.
  unfold agg_min. induction xs as [|x xs IH]; intros H; simpl; [reflexivity|].
  rewrite (H x (or_introl eq_refl)), IH; [reflexivity|].
  intros y Hy. apply H. right. exact Hy.
Qed.

(** On a column sorted with nulls last, [min] is the first cell. *)
Lemma agg_min_sorted x xs :
  StronglySorted num_le_last (x :: xs) -> agg_min (x :: xs) = x.
Proof.
  intros Hs. inversion Hs as [|? ? _ Hall]; subst.
  rewrite Forall_forall in Hall.
  change (agg_min (x :: xs)) with (num_min2 x (agg_min xs)).
  destruct x as [|a].
  - rewrite agg_min_all_nan; [reflexivity|].
    intros y Hy. specialize (Hall y Hy). unfold num_le_last in Hall.
    destruct y; simpl in Hall; congruence.
  - pose proof (agg_min_least xs) as Hl.
    destruct (agg_min xs) as [|b]; [reflexivity|]. simpl in *.
    destruct Hl as [Hin _]. specialize (Hall _ Hin).
    unfold num_le_last in Hall. simpl in Hall. f_equal.
    apply Z.min_l. destruct (Z.compare_spec a b); lia || congruence.
Qed.

Lemma members_sorted_by_start m df k n :
  StronglySorted num_le_last
    (map Start (members k n (classified_stream m df))).
Proof.
  unfold members. rewrite run_members_scan.
  apply sorted_map_rel, sorted_map_rel, sorted_filter_rel.
  apply (sorted_weaken
           (fun a b => (run_id a <= run_id b)%nat /\
                       num_le_last (Start (row a)) (Start (row b))));
    [tauto|].
  apply (scan_group_sorted (fun a b => num_le_last (Start a) (Start b))).
  apply group_sorted_by_start.
Qed.

(** X9.  A Run starts where its first member row starts: the minimum
    taken over the members is the Start of the first one in sort order,
    also when that cell is null. *)
Theorem run_starts_where_its_first_member_starts m df runs cl raw r first :
  merge m df = Returned (runs, cl, raw) ->
  In r (rows runs) ->
  hd_error (members (key (cells r)) (Run_id r) cl) = Some first ->
  Start (cells r) = Start first.
Proof.
  intros H Hr Hf. apply merge_returned in H. destruct H as [-> [_ ->]].
  simpl in Hr. apply aggregate_In in Hr. destruct Hr as [c [Hc ->]].
  cbn [agg_run cells key Run_id fst snd Start run_key] in *.
  pose proof (members_sorted_by_start m df (key (row c)) (run_id c)) as Hs.
  unfold members in *.
  change (key (row c), run_id c) with (run_key c) in *.
  destruct (map row (group_rows runkey_cmp run_key (run_key c)
                       (classified_stream m df))) as [|x xs];
    [discriminate|].
  simpl in Hf. inversion Hf. subst x. exact (agg_min_sorted _ _ Hs).
Qed.

Lemma run_starts_where_its_first_member_starts_witness :
  Start (mkRow k0 (Num 0) (Num 40) (Num 40) (Some "Puck"%string) (Some 1)) =
  Start (normalize_row (interval k0 0 20 20 "Puck" 1)).
Proof.
  exact (run_starts_where_its_first_member_starts AtMostMode sheet_boundary
           _ _ _
           (mkRun (mkRow k0 (Num 0) (Num 40) (Num 40) (Some "Puck"%string)
                     (Some 1)) 1 2)
           (normalize_row (interval k0 0 20 20 "Puck" 1))
           eq_refl (or_introl eq_refl) eq_refl).
Defined.

(** ** Runs of a single row *)

Lemma nodup_singleton {A : Type} (x : A) l :
  NoDup l -> (forall y, In y l <-> y = x) -> l = [x].
Proof.
  intros Hnd H. destruct l as [|a l].
  - destruct (proj2 (H x) eq_refl).
  - assert (a = x) by (apply H; left; reflexivity). subst a.
    destruct l as [|b l]; [reflexivity|].
    assert (b = x) by (apply H; right; left; reflexivity). subst b.
    inversion Hnd as [|? ? Hx _]. destruct Hx. left. reflexivity.
Qed.

(** X10.  A group with a single mergeable row yields exactly one Run:
    that row itself, numbered 1, with SegmentsMerged 1. *)
Theorem single_row_group_is_one_run m df runs cl raw k r :
  merge m df = Returned (runs, cl, raw) ->
  group_rows key_cmp key k (sorted_stream m df) = [r] ->
  runs_of_group k (rows runs) = [mkRun r 1 1].
Proof.
  intros H Hg. apply merge_returned in H. destruct H as [-> [_ ->]]. simpl.
  assert (Hr : In r (sorted_stream m df) /\ key r = k).
  { apply (group_rows_In _ key_cmp_order). rewrite Hg. left. reflexivity. }
  destruct Hr as [Hr Ek].
  assert (Hcg : classified_group k (classified_stream m df) =
                [mkClassified r true 1 1]).
  { rewrite classified_stream_group, Hg. reflexivity. }
  pose proof (runs_of_group_aggregate (has_EventIndex df) k
                (classified_stream m df)) as Hp.
  match type of Hp with
  | Permutation _ (map _ ?ks) => assert (Hkeys : ks = [(k, 1%nat)])
  end.
  { apply nodup_singleton.
    - apply NoDup_filter, group_keys_NoDup. exact runkey_cmp_order.
    - intros [k' n]. rewrite filter_In, (group_keys_In _ runkey_cmp_order).
      rewrite key_eqb_eq. simpl. split.
      + intros [Hin <-]. apply in_map_iff in Hin.
        destruct Hin as [c [Ec Hc]]. unfold run_key in Ec. inversion Ec.
        assert (Hc' : In c (classified_group k (classified_stream m df))).
        { apply (group_rows_In _ key_cmp_order). subst. auto. }
        rewrite Hcg in Hc'. destruct Hc' as [<- | []]. reflexivity.
      + intros E. inversion E. subst. split; [|reflexivity].
        assert (Hc' : In (mkClassified r true 1 1)
                        (classified_group (key r) (classified_stream m df)))
          by (rewrite Hcg; left; reflexivity).
        apply (group_rows_In _ key_cmp_order) in Hc'.
        apply in_map_iff. exists (mkClassified r true 1 1).
        split; [reflexivity | tauto]. }
  rewrite Hkeys in Hp. cbn [map] in Hp.
  apply Permutation_sym, Permutation_length_1_inv in Hp. rewrite Hp.
  rewrite run_group_filter, Hcg. cbn [filter run_id Nat.eqb].
  pose proof (agg_run_one (has_EventIndex df) (mkClassified r true 1 1)) as Ho.
  assert (Hcells : cells (agg_run (has_EventIndex df)
                            (run_key (mkClassified r true 1 1),
                             [mkClassified r true 1 1])) = r).
  { apply Ho.
    - apply sorted_stream_In in Hr.
      destruct (mergeable_duration m _ (proj2 Hr)) as [z [Ez _]]. eauto.
    - exact (stream_event_index m df r Hr). }
  subst k. unfold agg_run in *.
  cbn [cells fst snd run_key row run_id] in *.
  f_equal. f_equal. exact Hcells.
Qed.

Lemma single_row_group_is_one_run_witness :
  runs_of_group k1 (rows (AtMost.merged_runs sheet_apart)) =
  [mkRun (normalize_row (interval k1 0 20 20 "Ice" 1)) 1 1].
Proof.
  exact (single_row_group_is_one_run AtMostMode sheet_apart _ _ _ k1
           (normalize_row (interval k1 0 20 20 "Ice" 1)) eq_refl eq_refl).
Defined.

(** ** Rows without an AOI *)

Lemma scan_from_blank_aoi contig g :
  forall prev n c,
  In c (scan_from contig prev n g) -> AOI (row c) = None -> new_run c = true.
Proof.
  induction g as [|r g IH]; intros prev n c.
  - intros [].
  - rewrite scan_from_cons. intros [<- | H] E.
    + cbn [new_run row] in *. unfold starts_run, same_aoi_as.
      rewrite E. reflexivity.
    + exact (IH _ _ _ H E).
Qed.

Lemma scan_group_blank_aoi contig g c :
  In c (scan_group contig g) -> AOI (row c) = None -> new_run c = true.
Proof.
  destruct g as [|r g]; simpl; [tauto|].
  intros [<- | H] E; [reflexivity | exact (scan_from_blank_aoi _ _ _ _ _ H E)].
Qed.

(** X11.  A mergeable row whose AOI cell is blank is never merged: it
    starts a new run and is the only member of that run. *)
Theorem blank_aoi_row_is_a_run_of_its_own m df runs cl raw c :
  merge m df = Returned (runs, cl, raw) ->
  In c cl -> AOI (row c) = None ->
  new_run c = true /\ members (key (row c)) (run_id c) cl = [row c].
Proof.
  intros H Hc E. apply merge_returned in H. destruct H as [-> _].
  assert (Hg : In c (classified_group (key (row c)) (classified_stream m df))).
  { apply (group_rows_In _ key_cmp_order). auto. }
  split.
  - rewrite classified_stream_group in Hg.
    exact (scan_group_blank_aoi _ _ _ Hg E).
  - unfold members.
    pose proof (run_members_scan m df (key (row c)) (run_id c)) as Hb.
    assert (Hin : In c (group_rows runkey_cmp run_key (key (row c), run_id c)
                          (classified_stream m df))).
    { apply (group_rows_In _ runkey_cmp_order). auto. }
    destruct (group_rows runkey_cmp run_key (key (row c), run_id c)
                (classified_stream m df)) as [|c0 rest]; [destruct Hin|].
    pose proof (scan_group_block _ _ _ _ _ (eq_sym Hb)) as Hblock.
    destruct rest as [|c1 rest].
    + destruct Hin as [<- | []]. reflexivity.
    + exfalso. destruct Hin as [<- | Hin].
      * destruct (Hblock c1 (or_introl eq_refl)) as [_ Hne]. congruence.
      * destruct (Hblock c Hin) as [E1 Hne]. congruence.
Qed.

Lemma blank_aoi_row_is_a_run_of_its_own_witness :
  members k0 2 (AtMost.le20_rows sheet_blank_aoi) =
  [mkRow k0 (Num 20) (Num 40) (Num 20) None (Some 2)].
Proof.
  exact (proj2 (blank_aoi_row_is_a_run_of_its_own AtMostMode sheet_blank_aoi
                  _ _ _
                  (mkClassified
                     (mkRow k0 (Num 20) (Num 40) (Num 20) None (Some 2))
                     true 2 1)
                  eq_refl (or_intror (or_introl eq_refl)) eq_refl)).
Defined.

(** ** The AOI summaries *)

Lemma num_cmp_desc_order : OrderCmp num_cmp_desc.
Proof.
  constructor.
  - intros [|x] [|y]; simpl; split; intros H; try congruence.
    + apply Z.compare_eq_iff in H. congruence.
    + inversion H. apply Z.compare_refl.
  - intros [|x] [|y]; simpl; try reflexivity. apply Z.compare_antisym.
  - intros [|x] [|y] [|z]; simpl; try congruence.
    rewrite !Z.compare_lt_iff. lia.
Qed.

Lemma filter_all {A : Type} (l : list A) : filter (fun _ => true) l = l.
Proof. induction l as [|x l IH]; simpl; [|rewrite IH]; reflexivity. Qed.

Lemma aoi_summary_perm t :
  Permutation (aoi_summary_overall t) (map summarise (aoi_groups t)).
Proof. apply sort_values_perm. Qed.

Lemma summarise_rows {K : Type} (gs : list (K * list Classified)) :
  map Rows (map summarise gs) = map (fun g => List.length (snd g)) gs.
Proof. rewrite map_map. reflexivity. Qed.

Lemma summarise_duration {K : Type} (g : K * list Classified) :
  num_value (TotalDuration (summarise g)) =
  total (fun c => num_value (Duration (row c))) (snd g).
Proof.
  unfold summarise. cbn [TotalDuration]. rewrite agg_sum_value.
  cbn [num_value]. rewrite total_sum_values, map_map. reflexivity.
Qed.

(** X12.  The AOI summary counts every mergeable row that has an AOI
    exactly once and adds up its Duration exactly once; the rows with a
    blank AOI are in no line of the summary. *)
Theorem aoi_summary_covers_rows_with_an_aoi t :
  count_sum (map Rows (aoi_summary_overall t)) =
    List.length (filter has_aoi t) /\
  total (fun s => num_value (TotalDuration s)) (aoi_summary_overall t) =
    total (fun c => num_value (Duration (row c))) (filter has_aoi t).
Proof.
  split.
  - rewrite (count_sum_perm _ _ (Permutation_map Rows (aoi_summary_perm t))).
    unfold aoi_groups, groupby. rewrite summarise_rows, map_map. cbn [snd].
    rewrite <- (filter_all (group_keys str_cmp
                              (map aoi_label (filter has_aoi t)))).
    rewrite (group_sizes _ str_cmp_order aoi_label (fun _ => true)).
    + rewrite filter_all. reflexivity.
    + apply group_keys_NoDup. exact str_cmp_order.
    + intros c Hc. apply group_keys_In; [exact str_cmp_order|].
      apply in_map. exact Hc.
  - rewrite (total_perm _ _ _ (aoi_summary_perm t)).
    unfold aoi_groups, groupby, total at 1. rewrite !map_map.
    rewrite (map_ext _
               (fun a => total (fun c => num_value (Duration (row c)))
                           (group_rows str_cmp aoi_label a (filter has_aoi t))))
      by (intros a; apply summarise_duration).
    rewrite <- (filter_all (group_keys str_cmp
                              (map aoi_label (filter has_aoi t)))).
    rewrite (total_of_groups _ str_cmp_order aoi_label
               (fun c => num_value (Duration (row c))) (fun _ => true)).
    + rewrite filter_all. reflexivity.
    + apply group_keys_NoDup. exact str_cmp_order.
    + intros c Hc. apply group_keys_In; [exact str_cmp_order|].
      apply in_map. exact Hc.
Qed.

Lemma aoi_summary_In t s :
  In s (aoi_summary_overall t) <->
  In (group_of s) (map aoi_label (filter has_aoi t)) /\
  s = summarise (group_of s,
                 group_rows str_cmp aoi_label (group_of s) (filter has_aoi t)).
Proof.
  unfold aoi_summary_overall. rewrite sort_values_In, in_map_iff.
  unfold aoi_groups. split.
  - intros [g [<- Hg]]. apply (groupby_In _ str_cmp_order) in Hg.
    destruct Hg as [[c [Hc Ec]] Eg]. destruct g as [a G]. simpl in *.
    subst. split; [apply in_map; exact Hc | reflexivity].
  - intros [Ha Es]. eexists. split; [symmetry; exact Es|].
    apply (groupby_In _ str_cmp_order). simpl. split; [|reflexivity].
    apply in_map_iff in Ha. destruct Ha as [c [Ec Hc]]. exists c. auto.
Qed.

(** X13.  The two summary sheets agree: the Rows and the TotalDuration of
    an AOI in AOI_Summary are the sums of the Rows and of the
    TotalDuration of that AOI over the lines of AOI_ByGroup. *)
Theorem aoi_summary_is_the_sum_of_aoi_by_group t s :
  In s (aoi_summary_overall t) ->
  Rows s =
    count_sum (map Rows
                 (filter (fun b => cmp_eqb str_cmp (group_of s) (snd (group_of b)))
                    (aoi_by_group t))) /\
  num_value (TotalDuration s) =
    total (fun b => num_value (TotalDuration b))
      (filter (fun b => cmp_eqb str_cmp (group_of s) (snd (group_of b)))
         (aoi_by_group t)).
Proof.
  intros Hs. apply aoi_summary_In in Hs. destruct Hs as [_ Es].
  set (a := group_of s) in *. set (T := filter has_aoi t) in *.
  assert (Hby : filter (fun b => cmp_eqb str_cmp a (snd (group_of b)))
                  (aoi_by_group t) =
                map (fun ka => summarise
                                 (ka, group_rows groupaoi_cmp group_aoi ka T))
                  (filter (fun ka : GroupAoi => cmp_eqb str_cmp a (snd ka))
                     (group_keys groupaoi_cmp (map group_aoi T)))).
  { unfold aoi_by_group, groupby. fold T. rewrite map_map.
    rewrite filter_map_commute. reflexivity. }
  assert (Hord : OrderCmp groupaoi_cmp).
  { apply pair_cmp_order; [exact key_cmp_order | exact str_cmp_order]. }
  assert (Hnd : NoDup (group_keys groupaoi_cmp (map group_aoi T)))
    by (apply group_keys_NoDup; exact Hord).
  assert (Hin : forall c, In c T ->
                  In (group_aoi c) (group_keys groupaoi_cmp (map group_aoi T))).
  { intros c Hc. apply group_keys_In; [exact Hord | apply in_map; exact Hc]. }
  rewrite Hby. split.
  - rewrite Es. cbn [Rows summarise snd]. rewrite !map_map. cbn [Rows snd].
    pose proof (group_sizes _ Hord group_aoi
                  (fun ka : GroupAoi => cmp_eqb str_cmp a (snd ka)) _ T Hnd Hin)
      as E.
    symmetry. etransitivity; [|exact E]. reflexivity.
  - rewrite Es at 1. rewrite summarise_duration. cbn [snd].
    unfold total at 2. rewrite map_map.
    rewrite (map_ext _
               (fun ka => total (fun c => num_value (Duration (row c)))
                            (group_rows groupaoi_cmp group_aoi ka T)))
      by (intros ka; apply summarise_duration).
    rewrite (total_of_groups _ Hord group_aoi
               (fun c => num_value (Duration (row c)))
               (fun ka : GroupAoi => cmp_eqb str_cmp a (snd ka)) _ T Hnd Hin).
    reflexivity.
Qed.

Lemma aoi_summary_is_the_sum_of_aoi_by_group_witness :
  map (fun b => (fst (group_of b), Rows b, TotalDuration b))
    (filter (fun b => cmp_eqb str_cmp "Puck"%string (snd (group_of b)))
       (aoi_by_group (AtMost.le20_rows sheet_shared_aoi))) =
  [ (k0, 2%nat, Num 40); (k1, 1%nat, Num 10) ] /\
  Rows (mkSummary "Puck"%string 3%nat (Num 50) (Num 0) (Num 40)) =
  count_sum (map Rows
               (filter (fun b => cmp_eqb str_cmp "Puck"%string (snd (group_of b)))
                  (aoi_by_group (AtMost.le20_rows sheet_shared_aoi)))) /\
  num_value (TotalDuration (mkSummary "Puck"%string 3%nat (Num 50) (Num 0) (Num 40))) =
  total (fun b => num_value (TotalDuration b))
    (filter (fun b => cmp_eqb str_cmp "Puck"%string (snd (group_of b)))
       (aoi_by_group (AtMost.le20_rows sheet_shared_aoi))).
Proof.
  split; [reflexivity|].
  exact (aoi_summary_is_the_sum_of_aoi_by_group
           (AtMost.le20_rows sheet_shared_aoi)
           (mkSummary "Puck"%string 3%nat (Num 50) (Num 0) (Num 40))
           (or_introl eq_refl)).
Defined.

(** X14.  AOI_Summary has one line per AOI label that occurs among the
    mergeable rows, and its lines are in descending order of
    TotalDuration. *)
Theorem aoi_summary_lists_each_aoi_once_by_descending_total t :
  NoDup (map group_of (aoi_summary_overall t)) /\
  (forall a, In a (map group_of (aoi_summary_overall t)) <->
             exists c, In c t /\ AOI (row c) = Some a) /\
  StronglySorted
    (fun x y => num_value (TotalDuration y) <= num_value (TotalDuration x))
    (aoi_summary_overall t).
Proof.
  assert (Hkeys : Permutation (map group_of (aoi_summary_overall t))
                    (group_keys str_cmp (map aoi_label (filter has_aoi t)))).
  { eapply perm_trans; [apply Permutation_map, aoi_summary_perm|].
    unfold aoi_groups, groupby. rewrite !map_map. cbn [group_of summarise fst].
    rewrite map_id. apply Permutation_refl. }
  split; [|split].
  - apply (Permutation_NoDup (Permutation_sym Hkeys)).
    apply group_keys_NoDup. exact str_cmp_order.
  - intros a. split.
    + intros Ha. apply (Permutation_in _ Hkeys) in Ha.
      apply (proj1 (group_keys_In _ str_cmp_order a _)) in Ha.
      apply in_map_iff in Ha.
      destruct Ha as [c [Ec Hc]]. apply filter_In in Hc. destruct Hc as [Hc Hh].
      exists c. split; [exact Hc|]. unfold has_aoi, aoi_label in *.
      destruct (AOI (row c)); [congruence | discriminate].
    + intros [c [Hc Ec]]. apply (Permutation_in _ (Permutation_sym Hkeys)).
      apply (proj2 (group_keys_In _ str_cmp_order a _)).
      apply in_map_iff. exists c.
      unfold aoi_label, has_aoi. split; [rewrite Ec; reflexivity|].
      apply filter_In. split; [exact Hc|]. unfold has_aoi. rewrite Ec.
      reflexivity.
  - assert (Hnum : forall s, In s (aoi_summary_overall t) ->
                     TotalDuration s = Num (num_value (TotalDuration s))).
    { intros s Hs. apply aoi_summary_In in Hs. destruct Hs as [_ ->].
      unfold summarise. cbn [TotalDuration]. rewrite agg_sum_value.
      reflexivity. }
    pose proof (sort_values_sorted num_cmp_desc num_cmp_desc_order
                  TotalDuration (map summarise (aoi_groups t))) as Hs.
    fold (aoi_summary_overall t) in Hs. revert Hnum Hs.
    generalize (aoi_summary_overall t). intros l Hnum Hs.
    induction Hs as [|x l Hs IH Hall]; constructor.
    + apply IH. intros s Hs'. apply Hnum. right. exact Hs'.
    + rewrite Forall_forall in *. intros y Hy. specialize (Hall y Hy).
      unfold le_by, cmp_leb in Hall.
      rewrite (Hnum x (or_introl eq_refl)), (Hnum y (or_intror Hy)) in Hall.
      simpl in Hall.
      destruct (Z.compare_spec (num_value (TotalDuration y))
                  (num_value (TotalDuration x))); lia || discriminate.
Qed.

(** ** The archived script *)

(** X15.  Whenever the exact merge returns, the archived script returns
    the same classified and pass-through streams and the same Runs; only
    the order of the run table differs, which the archived script sorts
    by Interval, then Start. *)
Theorem archived_merge_returns_the_same_runs_reordered df runs cl raw :
  Exact.merge_consecutive_aoi df = Returned (runs, cl, raw) ->
  exists runs',
    Archive.merge_consecutive_aoi df = Returned (runs', cl, raw) /\
    has_EventIndex runs' = has_EventIndex runs /\
    Permutation (rows runs') (rows runs) /\
    StronglySorted
      (le_by (pair_cmp str_cmp num_cmp)
         (fun r => (Interval (key (cells r)), Start (cells r))))
      (rows runs').
Proof.
  intros H. pose proof (exact_merge_returned _ _ _ _ H)
    as [Hei [Hcol [Hcl [Hraw Hruns]]]].
  unfold Archive.merge_consecutive_aoi, Exact.df20, Exact.classify.
  rewrite Hcol, Hei. eexists. split.
  - rewrite Hraw, Hcl. reflexivity.
  - rewrite Hruns. cbn [rows has_EventIndex]. split; [reflexivity|]. split.
    + unfold Archive.nice_ordering.
      eapply perm_trans; [apply sort_values_perm|].
      apply Permutation_sym. rewrite Hcl. apply aggregate_perm.
    + apply sort_values_sorted. apply pair_cmp_order.
      * exact str_cmp_order.
      * exact num_cmp_order.
Qed.

Lemma archived_merge_returns_the_same_runs_reordered_witness :
  exists runs',
    Archive.merge_consecutive_aoi sheet_two_groups =
      Returned (runs', classified_stream ExactMode sheet_two_groups,
                Exact.df_non20 sheet_two_groups) /\
    has_EventIndex runs' = true /\
    Permutation (rows runs')
      (aggregate true (classified_stream ExactMode sheet_two_groups)) /\
    StronglySorted
      (le_by (pair_cmp str_cmp num_cmp)
         (fun r => (Interval (key (cells r)), Start (cells r))))
      (rows runs').
Proof.
  exact (archived_merge_returns_the_same_runs_reordered sheet_two_groups
           _ _ _ eq_refl).
Defined.

(** ** The batch driver *)

(** X16.  The files of the batch are the entries of the folder whose name
    ends in .xlsx and does not start with the lock-file marker, taken in
    ascending order of their names. *)
Theorem batch_takes_the_xlsx_files_in_name_order listing :
  (forall f, In f (input_files listing) <->
             In f listing /\ is_xlsx (file_name f) = true /\
             is_lock_file (file_name f) = false) /\
  StronglySorted (le_by str_cmp file_name) (input_files listing).
Proof.
  unfold input_files. split.
  - intros f. rewrite filter_In, sort_values_In, filter_In, negb_true_iff.
    tauto.
  - apply sorted_filter. apply sort_values_sorted. exact str_cmp_order.
Qed.

Lemma process_files_returns m files :
  forall written,
  process_files m files = (written, Returned tt) ->
  Forall2 (written_from m) files written.
Proof.
  induction files as [|f files IH]; intros written; simpl.
  - intros H. inversion H. constructor.
  - destruct (read_excel f) as [df|e] eqn:Er; [|discriminate].
    destruct (process_one_file m df) as [wb|e] eqn:Ep; [|discriminate].
    destruct (process_files m files) as [w ending] eqn:Ef.
    intros H. inversion H. subst. constructor.
    + split; [reflexivity|]. exists df. auto.
    + apply IH. reflexivity.
Qed.

Lemma process_files_raises m files :
  forall written e,
  process_files m files = (written, Raised e) ->
  exists done f rest,
    files = done ++ f :: rest /\
    Forall2 (written_from m) done written /\
    fails_on m f e.
Proof.
  induction files as [|f files IH]; intros written e; simpl.
  - discriminate.
  - destruct (read_excel f) as [df|e'] eqn:Er.
    + destruct (process_one_file m df) as [wb|e''] eqn:Ep.
      * destruct (process_files m files) as [w ending] eqn:Ef.
        intros H. inversion H. subst.
        destruct (IH _ _ eq_refl) as [done [f' [rest [-> [Hd Hf]]]]].
        exists (f :: done), f', rest. split; [reflexivity|].
        split; [|exact Hf]. constructor; [|exact Hd].
        split; [reflexivity|]. exists df. auto.
      * intros H. inversion H. subst.
        exists [], f, files. split; [reflexivity|].
        split; [constructor|]. right. exists df. auto.
    + intros H. inversion H. subst.
      exists [], f, files. split; [reflexivity|].
      split; [constructor|]. left. exact Er.
Qed.

(** X17.  When [main] ends normally the input folder exists, holds at
    least one file to process, and exactly one workbook was written for
    each file of the batch, in the order of the batch, under the name of
    the input with its .xlsx replaced by _aggregated.xlsx. *)
Theorem main_writes_one_workbook_per_file m folder written :
  main m folder = (written, Returned tt) ->
  exists listing,
    folder = Some listing /\
    input_files listing <> [] /\
    Forall2 (written_from m) (input_files listing) written.
Proof.
  unfold main. destruct folder as [listing|]; [|discriminate].
  destruct (input_files listing) as [|f rest] eqn:E; [discriminate|].
  intros H. exists listing. split; [reflexivity|]. rewrite E.
  split; [discriminate|]. exact (process_files_returns m _ _ H).
Qed.

Lemma main_writes_one_workbook_per_file_witness :
  exists listing,
    Some folder_sample = Some listing /\
    input_files listing <> [] /\
    Forall2 (written_from AtMostMode) (input_files listing)
      (fst (main AtMostMode (Some folder_sample))).
Proof.
  exact (main_writes_one_workbook_per_file AtMostMode (Some folder_sample)
           _ eq_refl).
Defined.

(** X18.  No exception is caught in the batch: when [main] raises on an
    existing folder, either there was no file to process and nothing was
    written, or the batch stopped at the first file whose reading or
    processing raised; the workbooks of the files before it were written
    and none for that file or any later one. *)
Theorem main_stops_at_the_first_failing_file m listing written e :
  main m (Some listing) = (written, Raised e) ->
  (input_files listing = [] /\ written = [] /\
   e = "FileNotFoundError: No .xlsx files found"%string) \/
  (exists done f rest,
     input_files listing = done ++ f :: rest /\
     Forall2 (written_from m) done written /\
     fails_on m f e).
Proof.
  unfold main. destruct (input_files listing) as [|f rest] eqn:E.
  - intros H. inversion H. left. auto.
  - intros H. right. exact (process_files_raises m _ _ _ H).
Qed.

Lemma main_stops_at_the_first_failing_file_witness :
  (input_files folder_single_group = [] /\
   fst (main ExactMode (Some folder_single_group)) = [] /\
   "ValueError: Cannot set a DataFrame with multiple columns to the single column new_run"%string =
   "FileNotFoundError: No .xlsx files found"%string) \/
  (exists done f rest,
     input_files folder_single_group = done ++ f :: rest /\
     Forall2 (written_from ExactMode) done
       (fst (main ExactMode (Some folder_single_group))) /\
     fails_on ExactMode f
       "ValueError: Cannot set a DataFrame with multiple columns to the single column new_run").
Proof.
  exact (main_stops_at_the_first_failing_file ExactMode folder_single_group
           (fst (main ExactMode (Some folder_single_group)))
           "ValueError: Cannot set a DataFrame with multiple columns to the single column new_run"
           eq_refl).
Defined.
